(** * VlogFlow: frame sampling and reconciliation of the analysis result

    A shallow embedding of the three TypeScript sources of the application:
    the frame sampler [extractFramesFromVideo], the analysis service
    [analyzeVideoFrames] with its index-clamping step, and the orchestrator
    [processProject].

    Conventions of the embedding.
    - A JavaScript [number] that holds an index or a count is a [Z] or a
      [nat]; the response schema declares [bestFrameIndex] as an INTEGER.
    - A JavaScript [number] that holds seconds or pixels is embedded twice.
      [VideoUtils] takes it as a rational [Q]: exact arithmetic, a finite
      duration and a media element that reports the time it was assigned;
      the order and bound properties of the frames are proved there.
      [VideoUtils64] takes it as the double it is, non-finite values
      included, and lets the media element report its own time; the
      interval, the course of the captures and the end of a run are proved
      there.  [Rounded] makes the rounding of the canvas sizes explicit.
    - A thrown exception is the left injection of a sum ([Completion]).
    - What the browser and the remote model do is an input of the model:
      the decoder of a video file, the canvas encoder, the environment's API
      key, the remote call and [JSON.parse]. *)

From Stdlib Require Import ZArith QArith Qround Qminmax Qpower List Sorted String Bool Lia Lqa.
From Stdlib Require Import DecimalString Ascii.
From Stdlib Require Floats.
Import ListNotations.

Local Open Scope Z_scope.

(** ** JavaScript values used by the sources *)

Module JS.

(** An [Error] object: only its [message] is ever read (App.tsx, line 65). *)
Inductive Exception : Type :=
| Error (message : string)
| TypeError (message : string)
| SyntaxError (message : string).

Definition message (e : Exception) : string :=
  match e with
  | Error m | TypeError m | SyntaxError m => m
  end.

(** Either a thrown exception or a returned value. *)
Definition Completion (A : Type) : Type := (Exception + A)%type.

Definition ret {A} (a : A) : Completion A := inr a.
Definition throw {A} (e : Exception) : Completion A := inl e.

Definition bind {A B} (c : Completion A) (k : A -> Completion B) : Completion B :=
  match c with
  | inl e => inl e
  | inr a => k a
  end.

(** [Array.prototype.map] with a callback that may throw: the first
    exception aborts the traversal. *)
Fixpoint array_map {A B} (f : A -> Completion B) (l : list A) : Completion (list B) :=
  match l with
  | [] => ret []
  | x :: xs =>
      bind (f x) (fun y => bind (array_map f xs) (fun ys => ret (y :: ys)))
  end.

(** [arr[i]] for an integer [i]: [undefined] (here [None]) outside
    [0 .. length-1], in particular at every negative index. *)
Definition index {A} (arr : list A) (i : Z) : option A :=
  if i <? 0 then None else nth_error arr (Z.to_nat i).

(** The message V8 gives to a property read on [undefined]. *)
Definition read_of_undefined (prop : string) : Exception :=
  TypeError ("Cannot read properties of undefined (reading '" ++ prop ++ "')").

(** [!text] for a string that may be [undefined]. *)
Definition falsy (text : option string) : bool :=
  match text with
  | None => true
  | Some s => match s with EmptyString => true | _ => false end
  end.

(** A number as the sampler's arithmetic can produce it from finite
    operands: finite, or one of the three non-finite doubles. *)
Inductive JsNumber : Type :=
| Fin (q : Q)
| PosInf
| NegInf
| NaN.

(** [a / b] on finite operands. *)
Definition div (a b : Q) : JsNumber :=
  if Qeq_bool b 0 then
    if Qeq_bool a 0 then NaN
    else if Qle_bool 0 a then PosInf else NegInf
  else Fin (a / b).

(** [Math.max(a, y)] and [Math.min(a, y)] with a finite first argument. *)
Definition Math_max (a : Q) (y : JsNumber) : JsNumber :=
  match y with
  | Fin q => Fin (Qmax a q)
  | PosInf => PosInf
  | NegInf => Fin a
  | NaN => NaN
  end.

Definition Math_min (a : Q) (y : JsNumber) : JsNumber :=
  match y with
  | Fin q => Fin (Qmin a q)
  | PosInf => Fin a
  | NegInf => NegInf
  | NaN => NaN
  end.

(** [a * y] with a finite first argument. *)
Definition mul (a : Q) (y : JsNumber) : JsNumber :=
  match y with
  | Fin q => Fin (a * q)
  | PosInf => if Qeq_bool a 0 then NaN else if Qle_bool 0 a then PosInf else NegInf
  | NegInf => if Qeq_bool a 0 then NaN else if Qle_bool 0 a then NegInf else PosInf
  | NaN => NaN
  end.

(** [a + y] with a finite first argument. *)
Definition add (a : Q) (y : JsNumber) : JsNumber :=
  match y with
  | Fin q => Fin (a + q)
  | other => other
  end.

(** Rounding toward zero. *)
Definition Qtruncate (q : Q) : Z :=
  if Qle_bool 0 q then Qfloor q else Qceiling q.

(** Conversion to WebIDL [unsigned long]: non-finite gives 0, a finite value
    is truncated and reduced modulo 2^32. *)
Definition to_unsigned_long (x : JsNumber) : Z :=
  match x with
  | Fin q => Z.modulo (Qtruncate q) (2 ^ 32)
  | _ => 0
  end.

(** The setter of a reflected [unsigned long] attribute such as
    [canvas.width]: the converted value is kept up to 2^31 - 1, and replaced
    by the attribute's default above. *)
Definition set_reflected (default : Z) (x : JsNumber) : Z :=
  let n := to_unsigned_long x in
  if n <=? 2147483647 then n else default.

End JS.

(** ** JavaScript numbers as the doubles they are

    The sampler computes its interval, its seek times and the canvas sizes
    in IEEE 754 binary64.  Here a number is a primitive double, [+], [*]
    and [/] are the correctly rounded operations, and the non-finite results
    are values of the type. *)

Module Binary64.

Import PrimFloat FloatOps SpecFloat.

Local Open Scope float_scope.

(** The double nearest to an integer (a [length], a [videoWidth], a frame
    count). *)
Definition of_Z (z : Z) : float := SF2Prim (binary_normalize prec emax z 0 false).
Definition of_N (n : N) : float := of_Z (Z.of_N n).
Definition of_nat (n : nat) : float := of_Z (Z.of_nat n).

(** The value of a double, exactly: a finite double is the rational
    (-1)^s * m * 2^e, given here in lowest terms. *)
Definition to_JsNumber (x : float) : JS.JsNumber :=
  match Prim2SF x with
  | S754_zero _ => JS.Fin 0
  | S754_infinity false => JS.PosInf
  | S754_infinity true => JS.NegInf
  | S754_nan => JS.NaN
  | S754_finite s m e =>
      JS.Fin (Qred (inject_Z (if s then Z.neg m else Z.pos m) * Qpower 2 e))
  end.

Definition to_Q (x : float) : Q :=
  match to_JsNumber x with
  | JS.Fin q => q
  | _ => 0%Q
  end.

(** [Number.isFinite] *)
Definition isFinite (x : float) : bool := negb (is_nan x || is_infinity x).

(** [Math.max(x, y)]: NaN when an argument is NaN; of two zeros, +0. *)
Definition Math_max (x y : float) : float :=
  if is_nan x || is_nan y then nan
  else if ltb x y then y
  else if ltb y x then x
  else if get_sign x then y else x.

(** [Math.min(x, y)]: NaN when an argument is NaN; of two zeros, -0. *)
Definition Math_min (x y : float) : float :=
  if is_nan x || is_nan y then nan
  else if ltb x y then x
  else if ltb y x then y
  else if get_sign x then x else y.

End Binary64.

(** ** The canvas size (videoUtils.ts, lines 59-61), in doubles *)

Module Canvas.

Import PrimFloat Binary64.

Local Open Scope float_scope.

Definition MAX_WIDTH : float := 960.

(** [Math.min(1, MAX_WIDTH / video.videoWidth)] *)
Definition scale (videoWidth : N) : float :=
  Math_min 1 (MAX_WIDTH / of_N videoWidth).

(** [canvas.width = video.videoWidth * scale]: the canvas keeps the
    product as a reflected [unsigned long]. *)
Definition width (videoWidth : N) : Z :=
  JS.set_reflected 300 (to_JsNumber (of_N videoWidth * scale videoWidth)).

(** [canvas.height = video.videoHeight * scale] *)
Definition height (videoWidth videoHeight : N) : Z :=
  JS.set_reflected 150 (to_JsNumber (of_N videoHeight * scale videoWidth)).

End Canvas.

(** ** Data model (the interfaces at the end of App.tsx) *)

Inductive Blob : Type := mkBlob (bytes : list Byte.byte).

Module FrameData.
Record t : Type := mk {
  timeOffset : Q;
  base64 : string;
  blob : Blob
}.
End FrameData.

Inductive HighlightType : Type := food | scenery | transport | other.

Module TimelineItem.
(** [timeOffset] is not a property of the response schema, and [location]
    and [foodItems] are not required by it: the three may be absent from a
    parsed entry. *)
Record t : Type := mk {
  timestamp : string;
  timeOffset : option Q;
  content : string;
  location : option string;
  foodItems : option (list string);
  bestFrameIndex : Z;
  highlightType : HighlightType
}.
End TimelineItem.

Module AnalysisResult.
Record t : Type := mk {
  title : string;
  summary : string;
  timeline : list TimelineItem.t;
  vibe : list string
}.
End AnalysisResult.

(** ** services/geminiService.ts *)

Module GeminiService.

Import JS.

(** [Math.min(Math.max(0, item.bestFrameIndex), frames.length - 1)] *)
Definition safeIndex (frames : list FrameData.t) (item : TimelineItem.t) : Z :=
  Z.min (Z.max 0 (TimelineItem.bestFrameIndex item)) (Z.of_nat (List.length frames) - 1).

(** The callback of [result.timeline.map] (lines 110-119). *)
Definition processItem (frames : list FrameData.t) (item : TimelineItem.t)
  : Completion TimelineItem.t :=
  let safeIndex := safeIndex frames item in
  match index frames safeIndex with
  | None => throw (read_of_undefined "timeOffset")
  | Some frame =>
      let realTime := FrameData.timeOffset frame in
      ret {| TimelineItem.timestamp := TimelineItem.timestamp item;
             TimelineItem.timeOffset := Some realTime;
             TimelineItem.content := TimelineItem.content item;
             TimelineItem.location := TimelineItem.location item;
             TimelineItem.foodItems := TimelineItem.foodItems item;
             TimelineItem.bestFrameIndex := safeIndex;
             TimelineItem.highlightType := TimelineItem.highlightType item |}
  end.

(** Lines 110-124: the corrected timeline inside a copy of the result. *)
Definition reconcile (frames : list FrameData.t) (result : AnalysisResult.t)
  : Completion AnalysisResult.t :=
  bind (array_map (processItem frames) (AnalysisResult.timeline result))
       (fun processedTimeline =>
          ret {| AnalysisResult.title := AnalysisResult.title result;
                 AnalysisResult.summary := AnalysisResult.summary result;
                 AnalysisResult.timeline := processedTimeline;
                 AnalysisResult.vibe := AnalysisResult.vibe result |}).

(** One part of the request: the instruction text or an inline image. *)
Inductive ContentPart : Type :=
| text (prompt : string)
| inlineData (mimeType : string) (data : string).

(** The instruction text of lines 65-76, kept opaque. *)
Definition instruction : string := "你是一位拥有显微镜般观察力的顶级美食侦探和旅游编辑。"%string.

Definition contentParts (frames : list FrameData.t) : list ContentPart :=
  text instruction
    :: map (fun frame => inlineData "image/jpeg" (FrameData.base64 frame)) frames.

(** What the service reads from its surroundings. *)
Record World : Type := mkWorld {
  API_KEY : option string;
  generateContent : list ContentPart -> Completion (option string);
  JSON_parse : string -> Completion AnalysisResult.t
}.

Definition getClient (w : World) : Completion unit :=
  if falsy (API_KEY w) then throw (Error "环境变量中未找到 API Key") else ret tt.

(** The [catch] block logs and rethrows: it is the identity on completions. *)
Definition analyzeVideoFrames (w : World) (frames : list FrameData.t)
  : Completion AnalysisResult.t :=
  bind (getClient w) (fun _ =>
  let contentParts := contentParts frames in
  bind (generateContent w contentParts) (fun response_text =>
  match response_text with
  | None => throw (Error "AI 未返回结果")
  | Some EmptyString => throw (Error "AI 未返回结果")
  | Some payload =>
      bind (JSON_parse w payload) (fun result => reconcile frames result)
  end)).

End GeminiService.

(** ** services/videoUtils.ts *)

Module VideoUtils.

Import JS.

Local Open Scope Q_scope.

(** What the media element knows once [loadedmetadata] has fired.  The
    duration is finite: a stream of unbounded length is outside the model. *)
Record Metadata : Type := mkMetadata {
  duration : Q;
  videoWidth : N;
  videoHeight : N
}.

(** What the browser answers to one seek (it answers every seek): the
    [seeked] event, after which the canvas encoder yields the payload of the
    data URL and a blob (or [null]), or the media element's [error] event. *)
Inductive SeekResult : Type :=
| seeked (base64 : string) (blob : option Blob)
| error.

(** A video file as the sampler sees it: whether its metadata loads, and
    what the decoder answers to the k-th seek. *)
Record VideoFile : Type := mkVideoFile {
  loadedmetadata : option Metadata;
  decoder : nat -> SeekResult
}.

(** The promise returned to the caller. *)
Inductive Promise : Type :=
| Pending
| Resolved (frames : list FrameData.t)
| Rejected (reason : Exception).

(** [resolve] and [reject] have no effect on a settled promise. *)
Definition settle (p outcome : Promise) : Promise :=
  match p with
  | Pending => outcome
  | _ => p
  end.

(** The variables the closures of [extractFramesFromVideo] share.
    [seeking] records that a seek has been started and its [seeked] event
    is still to come. *)
Record State : Type := mkState {
  video : Metadata;
  currentTime : Q;
  seeking : bool;
  canvas_width : Z;
  canvas_height : Z;
  frames : list FrameData.t;
  interval : JsNumber;
  promise : Promise;
  revoked : bool
}.

Definition Qnat (n : nat) : Q := inject_Z (Z.of_nat n).

(** [Math.max(0.5, video.duration / targetFrameCount)] *)
Definition sampling_interval (m : Metadata) (targetFrameCount : nat) : JsNumber :=
  Math_max (1 # 2) (div (duration m) (Qnat targetFrameCount)).

(** The [loadedmetadata] listener (lines 58-68): it sizes the canvas, fixes
    the interval and starts the first seek, to time 0. *)
Definition on_loadedmetadata (targetFrameCount : nat) (m : Metadata) : State :=
  {| video := m;
     currentTime := 0;
     seeking := true;
     canvas_width := Canvas.width (videoWidth m);
     canvas_height := Canvas.height (videoWidth m) (videoHeight m);
     frames := [];
     interval := sampling_interval m targetFrameCount;
     promise := Pending;
     revoked := false |}.

(** [video.currentTime += interval] (line 54).  The setter accepts a finite
    time and starts a seek; it throws on a non-finite one, which ends the
    callback with no seek started.  The time is stored as assigned: a media
    element that clamps it to the duration gives the same answers to the
    test of line 34, see [clamped_seek_same_test]. *)
Definition seek_next (st : State) : State :=
  match add (currentTime st) (interval st) with
  | Fin t =>
      {| video := video st; currentTime := t; seeking := true;
         canvas_width := canvas_width st; canvas_height := canvas_height st;
         frames := frames st; interval := interval st;
         promise := promise st; revoked := revoked st |}
  | _ =>
      {| video := video st; currentTime := currentTime st; seeking := false;
         canvas_width := canvas_width st; canvas_height := canvas_height st;
         frames := frames st; interval := interval st;
         promise := promise st; revoked := revoked st |}
  end.

(** [frames.push({timeOffset: video.currentTime, base64, blob})] when the
    encoder produced a blob (lines 45-51).  The video is never played: the
    time read in the callback is the time of the seek. *)
Definition push_frame (base64 : string) (blob : option Blob) (st : State) : State :=
  match blob with
  | Some b =>
      {| video := video st; currentTime := currentTime st; seeking := seeking st;
         canvas_width := canvas_width st; canvas_height := canvas_height st;
         frames := frames st ++ [FrameData.mk (currentTime st) base64 b];
         interval := interval st;
         promise := promise st; revoked := revoked st |}
  | None => st
  end.

(** The test of line 34. *)
Definition finished (targetFrameCount : nat) (st : State) : bool :=
  Qle_bool (duration (video st)) (currentTime st)
  || (targetFrameCount <=? List.length (frames st))%nat.

(** [captureFrame] (lines 33-56), run by the [seeked] listener, together
    with the [toBlob] callback it registers. *)
Definition captureFrame (targetFrameCount : nat)
           (base64 : string) (blob : option Blob) (st : State) : State :=
  if finished targetFrameCount st then
    {| video := video st; currentTime := currentTime st; seeking := false;
       canvas_width := canvas_width st; canvas_height := canvas_height st;
       frames := frames st; interval := interval st;
       promise := settle (promise st) (Resolved (frames st));
       revoked := true |}
  else
    seek_next (push_frame base64 blob st).

(** The [error] listener (lines 74-76). *)
Definition on_error (st : State) : State :=
  {| video := video st; currentTime := currentTime st; seeking := false;
     canvas_width := canvas_width st; canvas_height := canvas_height st;
     frames := frames st; interval := interval st;
     promise := settle (promise st) (Rejected (Error "视频加载失败，请检查文件格式"));
     revoked := revoked st |}.

(** The event loop: while a seek is under way the browser answers it, and
    the matching listener runs.  [k] counts the seeks answered so far. *)
Fixpoint run (decoder : nat -> SeekResult) (targetFrameCount : nat)
         (fuel k : nat) (st : State) : State :=
  match fuel with
  | O => st
  | S fuel' =>
      if seeking st then
        match decoder k with
        | seeked base64 blob =>
            run decoder targetFrameCount fuel' (S k)
                (captureFrame targetFrameCount base64 blob st)
        | error => on_error st
        end
      else st
  end.

(** [extractFramesFromVideo] after [fuel] browser events, [context] telling
    whether [canvas.getContext('2d')] returned a context. *)
Definition extractFramesFromVideo_steps (fuel : nat) (context : bool)
           (videoFile : VideoFile) (targetFrameCount : nat) : Promise :=
  if negb context then Rejected (Error "无法创建Canvas上下文")
  else
    match loadedmetadata videoFile with
    | None => Rejected (Error "视频加载失败，请检查文件格式")
    | Some m =>
        promise (run (decoder videoFile) targetFrameCount fuel 0
                     (on_loadedmetadata targetFrameCount m))
    end.

(** A number of events after which every run has come to rest
    ([steps_enough]): the interval is at least half a second. *)
Definition enough (videoFile : VideoFile) : nat :=
  match loadedmetadata videoFile with
  | None => 0
  | Some m => Z.to_nat (Qceiling (2 * duration m)) + 1
  end.

Definition extractFramesFromVideo (context : bool)
           (videoFile : VideoFile) (targetFrameCount : nat) : Promise :=
  extractFramesFromVideo_steps (enough videoFile) context videoFile targetFrameCount.

Definition timeOffsets (fs : list FrameData.t) : list Q := map FrameData.timeOffset fs.

End VideoUtils.

(** ** App.tsx: the project store and [processProject] *)

Inductive ProjectStatus : Type := idle | extracting | analyzing | done | error.

Module Project.
Record t : Type := mk {
  id : string;
  customName : option string;
  file : VideoUtils.VideoFile;
  status : ProjectStatus;
  frames : list FrameData.t;
  result : option AnalysisResult.t;
  error : option string;
  createdAt : Z
}.
End Project.

(** [Partial<Project>] as the callers of [updateProject] build it: a field is
    [None] when the key is absent from the object literal. *)
Module Updates.
Record t : Type := mk {
  customName : option string;
  status : option ProjectStatus;
  frames : option (list FrameData.t);
  result : option AnalysisResult.t;
  error : option string
}.
End Updates.

Module App.

Import JS.

Definition or_else {A} (o : option A) (a : A) : A :=
  match o with Some x => x | None => a end.

Definition or_keep {A} (o old : option A) : option A :=
  match o with Some x => Some x | None => old end.

(** [{ ...p, ...updates }] *)
Definition spread (p : Project.t) (updates : Updates.t) : Project.t :=
  {| Project.id := Project.id p;
     Project.customName := or_keep (Updates.customName updates) (Project.customName p);
     Project.file := Project.file p;
     Project.status := or_else (Updates.status updates) (Project.status p);
     Project.frames := or_else (Updates.frames updates) (Project.frames p);
     Project.result := or_keep (Updates.result updates) (Project.result p);
     Project.error := or_keep (Updates.error updates) (Project.error p);
     Project.createdAt := Project.createdAt p |}.

(** [setProjects(prev => prev.map(p => p.id === id ? { ...p, ...updates } : p))] *)
Definition updateProject (id : string) (updates : Updates.t)
           (prev : list Project.t) : list Project.t :=
  map (fun p => if String.eqb (Project.id p) id then spread p updates else p) prev.

Definition updateProjectStatus (id : string) (status : ProjectStatus)
           (prev : list Project.t) : list Project.t :=
  updateProject id (Updates.mk None (Some status) None None None) prev.

(** [err.message || "处理失败"] *)
Definition error_message (err : Exception) : string :=
  match message err with
  | EmptyString => "处理失败"
  | m => m
  end.

(** The [catch] block of [processProject] (lines 63-66). *)
Definition fail (projectId : string) (err : Exception)
           (prev : list Project.t) : list Project.t :=
  updateProject projectId
    (Updates.mk None (Some error) None None (Some (error_message err))) prev.

(** [processProject] (lines 51-67) as a transformer of the project store.
    [context] tells whether the canvas gave a 2d context; the surroundings
    of the analysis service are [w].  A sampler promise that never settles
    leaves the project in its [extracting] state. *)
Definition processProject (w : GeminiService.World) (context : bool)
           (projectId : string) (file : VideoUtils.VideoFile)
           (projects : list Project.t) : list Project.t :=
  let projects := updateProjectStatus projectId extracting projects in
  match VideoUtils.extractFramesFromVideo context file 120 with
  | VideoUtils.Pending => projects
  | VideoUtils.Rejected err => fail projectId err projects
  | VideoUtils.Resolved frames =>
      let projects :=
        updateProject projectId
          (Updates.mk None (Some analyzing) (Some frames) None None) projects in
      match GeminiService.analyzeVideoFrames w frames with
      | inl err => fail projectId err projects
      | inr result =>
          updateProject projectId
            (Updates.mk None (Some done) None (Some result) None) projects
      end
  end.

End App.

(** ** Predicates used to state the properties *)

Module Spec.

Import JS.

(** The relation between a parsed entry and the event returned for it:
    the index is max(0, min(raw, N-1)), it is a position of the frame
    sequence, and the time is that of the frame found there. *)
Definition clamped_to (frames : list FrameData.t) (raw ev : TimelineItem.t) : Prop :=
  let n := Z.of_nat (List.length frames) in
  let clamped := Z.max 0 (Z.min (TimelineItem.bestFrameIndex raw) (n - 1)) in
  TimelineItem.bestFrameIndex ev = clamped
  /\ 0 <= clamped <= n - 1
  /\ exists frame, index frames clamped = Some frame
                   /\ TimelineItem.timeOffset ev = Some (FrameData.timeOffset frame).

(** The fields that are copied from the parsed entry. *)
Definition passed_through (raw ev : TimelineItem.t) : Prop :=
  TimelineItem.timestamp ev = TimelineItem.timestamp raw
  /\ TimelineItem.content ev = TimelineItem.content raw
  /\ TimelineItem.location ev = TimelineItem.location raw
  /\ TimelineItem.foodItems ev = TimelineItem.foodItems raw
  /\ TimelineItem.highlightType ev = TimelineItem.highlightType raw.

(** What holds of the sampler's variables from [loadedmetadata] on, for a
    video with metadata [m], a target count and an interval [i]. *)
Record sampling (m : VideoUtils.Metadata) (targetFrameCount : nat) (i : Q)
       (st : VideoUtils.State) : Prop := {
  same_video : VideoUtils.video st = m;
  finite_interval :
    targetFrameCount = 0%nat
    \/ (VideoUtils.interval st = Fin i /\ (1 # 2 <= i)%Q);
  pending_iff_seeking :
    VideoUtils.seeking st = true <-> VideoUtils.promise st = VideoUtils.Pending;
  resolved_with_frames :
    forall fs, VideoUtils.promise st = VideoUtils.Resolved fs -> fs = VideoUtils.frames st;
  increasing :
    StronglySorted Qlt (VideoUtils.timeOffsets (VideoUtils.frames st));
  before_seek :
    Forall (fun t => (t < VideoUtils.currentTime st)%Q)
           (VideoUtils.timeOffsets (VideoUtils.frames st));
  before_end :
    Forall (fun t => (t < VideoUtils.duration m)%Q)
           (VideoUtils.timeOffsets (VideoUtils.frames st));
  at_most_target : (List.length (VideoUtils.frames st) <= targetFrameCount)%nat;
  seek_on_grid :
    exists j : nat, (VideoUtils.currentTime st == VideoUtils.Qnat j * i)%Q;
  frames_on_grid :
    Forall (fun t => exists j : nat, (t == VideoUtils.Qnat j * i)%Q)
           (VideoUtils.timeOffsets (VideoUtils.frames st));
  count_le_time :
    (VideoUtils.Qnat (List.length (VideoUtils.frames st)) * i
     <= VideoUtils.currentTime st)%Q;
  count_bound :
    VideoUtils.frames st = []
    \/ (VideoUtils.Qnat (List.length (VideoUtils.frames st)) * i
        < VideoUtils.duration m + i)%Q
}.

(** An entry that needs no repair. *)
Definition already_reconciled (frames : list FrameData.t) (item : TimelineItem.t) : Prop :=
  0 <= TimelineItem.bestFrameIndex item <= Z.of_nat (List.length frames) - 1
  /\ exists frame, index frames (TimelineItem.bestFrameIndex item) = Some frame
                   /\ TimelineItem.timeOffset item = Some (FrameData.timeOffset frame).

(** A project whose pipeline failed after [frames] were captured: it is
    in the [error] state with a message, it keeps the frames, and its
    [result] is the one it had before. *)
Definition failed_project (frames : list FrameData.t) (msg : string)
           (p : Project.t) : Project.t :=
  {| Project.id := Project.id p;
     Project.customName := Project.customName p;
     Project.file := Project.file p;
     Project.status := error;
     Project.frames := frames;
     Project.result := Project.result p;
     Project.error := Some msg;
     Project.createdAt := Project.createdAt p |}.

Definition failed_store (projectId : string) (frames : list FrameData.t)
           (msg : string) (projects : list Project.t) : list Project.t :=
  map (fun p => if String.eqb (Project.id p) projectId
                then failed_project frames msg p else p) projects.

End Spec.

(** ** Sample data *)

Module Samples.

Definition frame_at (t : Q) : FrameData.t := FrameData.mk t "" (mkBlob []).

Definition ten_frames : list FrameData.t :=
  map frame_at [0; 1 # 2; 1; 3 # 2; 2; 5 # 2; 3; 7 # 2; 4; 9 # 2]%Q.

Definition raw_event (i : Z) (timestamp : string) : TimelineItem.t :=
  TimelineItem.mk timestamp None "noodles" None None i food.

Definition raw_result : AnalysisResult.t :=
  AnalysisResult.mk "title" "summary"
    [raw_event 999 "00:07"; raw_event (-3) "00:01"; raw_event 4 "00:02"]
    ["#food"%string].

Definition reconciled_result : AnalysisResult.t :=
  AnalysisResult.mk "title" "summary"
    [TimelineItem.mk "00:07" (Some (9 # 2)%Q) "noodles" None None 9 food;
     TimelineItem.mk "00:01" (Some 0%Q) "noodles" None None 0 food]
    ["#food"%string].

Definition always_seeked : nat -> VideoUtils.SeekResult :=
  fun _ => VideoUtils.seeked "" (Some (mkBlob [])).

Definition video_of (duration : Q) : VideoUtils.VideoFile :=
  VideoUtils.mkVideoFile (Some (VideoUtils.mkMetadata duration 1920 1080)) always_seeked.

(** The video of the scenario: 12 seconds. *)
Definition video_12s : VideoUtils.VideoFile := video_of 12.

(** A video whose metadata loads with duration 0. *)
Definition video_0s : VideoUtils.VideoFile := video_of 0.

(** A video of 1.2 seconds: the fourth seek time, 1.5, is past its end. *)
Definition video_1_2s : VideoUtils.VideoFile := video_of (6 # 5).

(** Surroundings in which the remote call answers with no text. *)
Definition silent_world : GeminiService.World :=
  GeminiService.mkWorld (Some "key"%string)
    (fun _ => inr None)
    (fun _ => inl (JS.SyntaxError "Unexpected end of JSON input")).

(** Surroundings in which the remote call answers with a timeline. *)
Definition answering_world : GeminiService.World :=
  GeminiService.mkWorld (Some "key"%string)
    (fun _ => inr (Some "{}"%string))
    (fun _ => inr raw_result).

Definition new_project (id : string) (file : VideoUtils.VideoFile) : Project.t :=
  Project.mk id None file idle [] None None 0.

End Samples.

(** ** services/videoUtils.ts: [formatTime] *)

Module Format.

Import JS.

Local Open Scope Q_scope.

(** [a % b] on finite operands, [b] not zero: the remainder has the sign of
    the dividend. *)
Definition rem (a b : Q) : Q := a - b * inject_Z (Qtruncate (a / b)).

(** [n.toString()] for an integer (below 10^21, where JavaScript switches
    to the exponent notation). *)
Definition toString (z : Z) : string := NilZero.string_of_int (Z.to_int z).

Fixpoint repeat_char (c : ascii) (n : nat) : string :=
  match n with
  | O => EmptyString
  | S n' => String c (repeat_char c n')
  end.

(** [s.padStart(targetLength, c)] for a one-character pad and a string of
    ASCII characters. *)
Definition padStart (targetLength : nat) (c : ascii) (s : string) : string :=
  (repeat_char c (targetLength - String.length s) ++ s)%string.

(** The character of a decimal digit. *)
Definition digit (d : Z) : ascii := ascii_of_nat (48 + Z.to_nat d).

(** [formatTime] (lines 80-84). *)
Definition formatTime (seconds : Q) : string :=
  let m := Qfloor (seconds / 60) in
  let s := Qfloor (rem seconds 60) in
  (toString m ++ ":" ++ padStart 2 "0" (toString s))%string.

End Format.

(** ** App.tsx: what the components compute from the store *)

Module AppView.

Import JS.

(** The two pieces of state of [App]. *)
Record State : Type := mkState {
  projects : list Project.t;
  selectedProjectId : option string
}.

Definition same_selection (selected : option string) (id : string) : bool :=
  match selected with
  | Some s => String.eqb s id
  | None => false
  end.

(** [deleteProject] (lines 77-81). *)
Definition deleteProject (id : string) (st : State) : State :=
  {| projects := filter (fun p => negb (String.eqb (Project.id p) id)) (projects st);
     selectedProjectId :=
       if same_selection (selectedProjectId st) id then None
       else selectedProjectId st |}.

(** [handleRenameProject] (lines 83-85) and [handleUpdateResult]
    (lines 88-90). *)
Definition handleRenameProject (id newName : string)
           (prev : list Project.t) : list Project.t :=
  App.updateProject id (Updates.mk (Some newName) None None None None) prev.

Definition handleUpdateResult (id : string) (newResult : AnalysisResult.t)
           (prev : list Project.t) : list Project.t :=
  App.updateProject id (Updates.mk None None None (Some newResult) None) prev.

(** [projects.find(p => p.id === selectedProjectId)] (line 92). *)
Definition selectedProject (st : State) : option Project.t :=
  find (fun p => same_selection (selectedProjectId st) (Project.id p)) (projects st).

(** The overlay is rendered for [selectedProject && selectedProject.result]
    (line 157); the component then reads [project.result!]. *)
Definition overlay (st : State) : option (Project.t * AnalysisResult.t) :=
  match selectedProject st with
  | Some p =>
      match Project.result p with
      | Some r => Some (p, r)
      | None => None
      end
  | None => None
  end.

(** The click on a card (line 146):
    [project.status === 'done' && setSelectedProjectId(project.id)]. *)
Definition onClick (project : Project.t) (st : State) : State :=
  match Project.status project with
  | done => {| projects := projects st; selectedProjectId := Some (Project.id project) |}
  | _ => st
  end.

(** One uploaded file, with the two values the browser supplies for it:
    [crypto.randomUUID()] and [Date.now()]. *)
Record Upload : Type := mkUpload {
  uuid : string;
  upload_file : VideoUtils.VideoFile;
  now : Z
}.

(** The object literal of lines 33-40. *)
Definition newProject (u : Upload) : Project.t :=
  Project.mk (uuid u) None (upload_file u) idle [] None None (now u).

(** [handleFileChange] (lines 30-49) on the project store: the new projects
    are appended, then [processProject] is started for each.  The stages of
    the pipelines are taken one project after the other. *)
Definition handleFileChange (w : GeminiService.World) (context : bool)
           (files : list Upload) (prev : list Project.t) : list Project.t :=
  let newProjects := map newProject files in
  fold_left (fun ps p => App.processProject w context (Project.id p) (Project.file p) ps)
            newProjects (prev ++ newProjects).

(** [set.add(x)] on the elements of a set in their insertion order. *)
Definition Set_add (seen : list string) (x : string) : list string :=
  if existsb (String.eqb x) seen then seen else seen ++ [x].

(** [Array.from(new Set(xs))] for strings: the elements in the order of
    their first occurrence. *)
Definition Set_from (xs : list string) : list string :=
  fold_left Set_add xs [].

(** [t.location && t.location !== '未知地点'] *)
Definition is_shop (t : TimelineItem.t) : bool :=
  match TimelineItem.location t with
  | Some l => negb (String.eqb l "") && negb (String.eqb l "未知地点")
  | None => false
  end.

(** The locations of the entries kept by a filter; an entry the filter keeps
    has a location. *)
Definition locations_of (ts : list TimelineItem.t) : list string :=
  flat_map (fun t => match TimelineItem.location t with
                     | Some l => [l]
                     | None => []
                     end) ts.

(** [allShops] (lines 357-361). *)
Definition allShops (timeline : list TimelineItem.t) : list string :=
  Set_from (locations_of (filter is_shop timeline)).

(** The first argument of the "food" [StatCard] (line 478):
    [timeline.reduce((acc, i) => acc + (i.foodItems?.length || 0), 0)]. *)
Definition foodCount (timeline : list TimelineItem.t) : nat :=
  fold_left (fun acc i => (acc + match TimelineItem.foodItems i with
                                 | Some items => List.length items
                                 | None => 0
                                 end)%nat)
            timeline 0%nat.

(** A string is the sequence of the UTF-8 bytes of a well-formed text.  The
    number of UTF-16 code units of a character, read off its UTF-8 bytes:
    one per leading byte, two for the leading byte of a four-byte sequence,
    none for a continuation byte. *)
Definition code_units (c : ascii) : nat :=
  let n := nat_of_ascii c in
  if (n <? 128)%nat then 1%nat
  else if (n <? 192)%nat then 0%nat
  else if (n <? 240)%nat then 1%nat
  else 2%nat.

(** [s.length] *)
Fixpoint js_length (s : string) : nat :=
  match s with
  | EmptyString => 0%nat
  | String c r => (code_units c + js_length r)%nat
  end.

(** [s.includes(needle)] *)
Fixpoint includes (needle s : string) : bool :=
  String.prefix needle s
  || match s with
     | EmptyString => false
     | String _ r => includes needle r
     end.

(** The filter of [handleOpenRoute] (line 337):
    [l && l.length > 1 && !l.includes("未知") && !l.includes("Unknown")]. *)
Definition looks_real (l : string) : bool :=
  negb (String.eqb l "")
  && (1 <? js_length l)%nat
  && negb (includes "未知" l)
  && negb (includes "Unknown" l).

Definition is_stop (t : TimelineItem.t) : bool :=
  match TimelineItem.location t with
  | Some l => looks_real l
  | None => false
  end.

(** What a handler asks of the browser. *)
Inductive Effect : Type :=
| alert (message : string)
| window_open (url target : string).

(** The stops of the route (lines 335-339). *)
Definition uniqueLocations (timeline : list TimelineItem.t) : list string :=
  Set_from (locations_of (filter is_stop timeline)).

(** [handleOpenRoute] (lines 333-350); [encodeURIComponent] is the
    browser's. *)
Definition handleOpenRoute (encodeURIComponent : string -> string)
           (timeline : list TimelineItem.t) : Effect :=
  let uniqueLocations := uniqueLocations timeline in
  match uniqueLocations with
  | [] => alert "未找到有效地点"
  | _ =>
      let dirPath := String.concat "/" (map encodeURIComponent uniqueLocations) in
      window_open ("https://www.google.com/maps/dir/" ++ dirPath)%string "_blank"
  end.

(** [s.split(',')] *)
Fixpoint split_comma (s : string) : list string :=
  match s with
  | EmptyString => [EmptyString]
  | String c r =>
      if Ascii.eqb c "," then EmptyString :: split_comma r
      else match split_comma r with
           | x :: xs => String c x :: xs
           | [] => [String c EmptyString]
           end
  end.

Definition utf8 (bytes : list nat) : string :=
  string_of_list_ascii (map ascii_of_nat bytes).

(** The UTF-8 encodings of the characters [trim] removes: the white space
    and line terminator code points U+0009 to U+000D, U+0020, U+00A0,
    U+1680, U+2000 to U+200A, U+2028, U+2029, U+202F, U+205F, U+3000 and
    U+FEFF. *)
Definition white_space : list string :=
  map utf8
      [[9]; [10]; [11]; [12]; [13]; [32]; [194; 160]; [225; 154; 128];
       [226; 128; 128]; [226; 128; 129]; [226; 128; 130]; [226; 128; 131];
       [226; 128; 132]; [226; 128; 133]; [226; 128; 134]; [226; 128; 135];
       [226; 128; 136]; [226; 128; 137]; [226; 128; 138];
       [226; 128; 168]; [226; 128; 169]; [226; 128; 175];
       [226; 129; 159]; [227; 128; 128]; [239; 187; 191]]%nat.

(** [s] without the prefix [p], when it starts with it. *)
Fixpoint strip_prefix (p s : string) : option string :=
  match p with
  | EmptyString => Some s
  | String a p' =>
      match s with
      | String b s' => if Ascii.eqb a b then strip_prefix p' s' else None
      | EmptyString => None
      end
  end.

(** [s] without its first character when that one is among [patterns]. *)
Fixpoint strip_one (patterns : list string) (s : string) : option string :=
  match patterns with
  | [] => None
  | p :: ps =>
      match strip_prefix p s with
      | Some r => Some r
      | None => strip_one ps s
      end
  end.

Fixpoint strip_all (patterns : list string) (fuel : nat) (s : string) : string :=
  match fuel with
  | O => s
  | S fuel' =>
      match strip_one patterns s with
      | Some r => strip_all patterns fuel' r
      | None => s
      end
  end.

Fixpoint reverse (s : string) : string :=
  match s with
  | EmptyString => EmptyString
  | String c r => (reverse r ++ String c EmptyString)%string
  end.

(** [s.trimStart()], [s.trimEnd()] and [s.trim()]. *)
Definition trimStart (s : string) : string :=
  strip_all white_space (String.length s) s.

Definition trimEnd (s : string) : string :=
  reverse (strip_all (map reverse white_space) (String.length s) (reverse s)).

Definition trim (s : string) : string := trimEnd (trimStart s).

(** The value of the food input (line 585): [item.foodItems?.join(', ')]. *)
Definition food_value (item : TimelineItem.t) : option string :=
  option_map (String.concat ", ") (TimelineItem.foodItems item).

(** The list the input's [onChange] stores (line 586):
    [e.target.value.split(',').map(s => s.trim())]. *)
Definition food_items_of (value : string) : list string :=
  map trim (split_comma value).

(** The entry after the food input changed: [{...item, foodItems: ...}]. *)
Definition food_changed (value : string) (item : TimelineItem.t) : TimelineItem.t :=
  {| TimelineItem.timestamp := TimelineItem.timestamp item;
     TimelineItem.timeOffset := TimelineItem.timeOffset item;
     TimelineItem.content := TimelineItem.content item;
     TimelineItem.location := TimelineItem.location item;
     TimelineItem.foodItems := Some (food_items_of value);
     TimelineItem.bestFrameIndex := TimelineItem.bestFrameIndex item;
     TimelineItem.highlightType := TimelineItem.highlightType item |}.

End AppView.

(** ** Predicates for the further properties *)

Module Schedule.

Import JS VideoUtils.

Local Open Scope Q_scope.

(** The time of the k-th seek: k additions of the interval to 0. *)
Fixpoint time_at (i : Q) (k : nat) : Q :=
  match k with
  | O => 0
  | S k' => time_at i k' + i
  end.

(** The frame the k-th seek contributes, if its encoding gave a blob. *)
Definition capture_of (decoder : nat -> SeekResult) (i : Q) (k : nat)
  : list FrameData.t :=
  match decoder k with
  | seeked base64 (Some blob) => [FrameData.mk (time_at i k) base64 blob]
  | _ => []
  end.

(** The frames of the seeks 0 .. k-1. *)
Fixpoint captures (decoder : nat -> SeekResult) (i : Q) (k : nat)
  : list FrameData.t :=
  match k with
  | O => []
  | S k' => captures decoder i k' ++ capture_of decoder i k'
  end.

(** The test of line 34 at the k-th seek of such a run. *)
Definition done_at (decoder : nat -> SeekResult) (m : Metadata)
           (targetFrameCount : nat) (i : Q) (k : nat) : Prop :=
  duration m <= time_at i k
  \/ (targetFrameCount <= List.length (captures decoder i k))%nat.

(** [K] is the first seek at which the test of line 34 holds. *)
Definition stops_at (decoder : nat -> SeekResult) (m : Metadata)
           (targetFrameCount : nat) (i : Q) (K : nat) : Prop :=
  done_at decoder m targetFrameCount i K
  /\ forall k, (k < K)%nat -> ~ done_at decoder m targetFrameCount i k.

(** The sampler waits for the answer to the k-th seek of such a run. *)
Record waiting (decoder : nat -> SeekResult) (m : Metadata)
       (targetFrameCount : nat) (i : Q) (k : nat) (st : State) : Prop := {
  w_video : video st = m;
  w_seeking : seeking st = true;
  w_promise : promise st = Pending;
  w_time : currentTime st = time_at i k;
  w_frames : frames st = captures decoder i k;
  w_interval : targetFrameCount <> 0%nat -> interval st = Fin i;
  w_revoked : revoked st = false
}.

End Schedule.

Module Store.

Import JS.

(** The updates [processProject] applies to the project, in order: the one
    of line 53, then those of lines 57 and 61, or the one of the [catch]
    block. *)
Definition pipeline (w : GeminiService.World) (context : bool)
           (file : VideoUtils.VideoFile) : list Updates.t :=
  Updates.mk None (Some extracting) None None None
  :: match VideoUtils.extractFramesFromVideo context file 120 with
     | VideoUtils.Pending => []
     | VideoUtils.Rejected err =>
         [Updates.mk None (Some error) None None (Some (App.error_message err))]
     | VideoUtils.Resolved frames =>
         Updates.mk None (Some analyzing) (Some frames) None None
         :: match GeminiService.analyzeVideoFrames w frames with
            | inl err =>
                [Updates.mk None (Some error) None None (Some (App.error_message err))]
            | inr result =>
                [Updates.mk None (Some done) None (Some result) None]
            end
     end.

(** The project as [processProject] leaves it. *)
Definition processed (w : GeminiService.World) (context : bool)
           (file : VideoUtils.VideoFile) (p : Project.t) : Project.t :=
  fold_left App.spread (pipeline w context file) p.

(** A store operation that acts on the projects with one id only. *)
Definition on_id (id : string) (f : Project.t -> Project.t)
           (projects : list Project.t) : list Project.t :=
  map (fun p => if String.eqb (Project.id p) id then f p else p) projects.

(** The store keeps a result for every project that is [done]. *)
Definition done_has_result (projects : list Project.t) : Prop :=
  Forall (fun p => Project.status p = done -> Project.result p <> None) projects.

(** The food items of an entry, none when the field is absent. *)
Definition items_of (t : TimelineItem.t) : list string :=
  match TimelineItem.foodItems t with
  | Some items => items
  | None => []
  end.

Definition settled (p : Project.t) : Prop :=
  Project.status p = done \/ Project.status p = error.

End Store.

(** ** Further sample data *)

Module MoreSamples.

Import Samples.

Local Open Scope string_scope.

Definition cafe (location : option string) (foodItems : option (list string))
  : TimelineItem.t :=
  TimelineItem.mk "00:07" None "noodles" location foodItems 0 food.

Definition walk : list TimelineItem.t :=
  [cafe (Some "Cafe A") (Some ["latte"; "cake"]);
   cafe None None;
   cafe (Some "未知地点") (Some []);
   cafe (Some "Cafe B") (Some ["tea"]);
   cafe (Some "Cafe A") None].

(** A video of 3 seconds whose second frame fails to encode. *)
Definition one_null_blob : nat -> VideoUtils.SeekResult :=
  fun k => match k with
           | 1%nat => VideoUtils.seeked "" None
           | _ => VideoUtils.seeked "" (Some (mkBlob []))
           end.

Definition video_3s : VideoUtils.VideoFile :=
  VideoUtils.mkVideoFile (Some (VideoUtils.mkMetadata 3 1920 1080)) one_null_blob.

(** Surroundings without an API key. *)
Definition keyless_world : GeminiService.World :=
  GeminiService.mkWorld None
    (fun _ => inr (Some "{}"))
    (fun _ => inr raw_result).

End MoreSamples.

(** ** services/videoUtils.ts, on doubles and with the media element's own clock

    The second embedding of [extractFramesFromVideo].  It differs from
    [VideoUtils] in what that one idealises:
    - seconds and pixels are doubles, so the duration may be [+Infinity] and
      the sums of the seek times carry their rounding;
    - [video.currentTime] reads what the media element reports after a seek,
      which need not be the time that was assigned (an element clamps the
      time to the duration, and may truncate it): the answer to a seek now
      carries the reported time, and depends on the time asked for;
    - no bound on the number of events is built in: whether the promise
      settles is a property of the file, not of the model. *)

Module VideoUtils64.

Import PrimFloat Binary64.

Local Open Scope float_scope.

Abbreviation Promise := VideoUtils.Promise.
Abbreviation Pending := VideoUtils.Pending.
Abbreviation Resolved := VideoUtils.Resolved.
Abbreviation Rejected := VideoUtils.Rejected.

(** What the media element knows once [loadedmetadata] has fired. *)
Record Metadata : Type := mkMetadata {
  duration : float;
  videoWidth : N;
  videoHeight : N
}.

(** What the browser answers to one seek: the [seeked] event, after which
    [video.currentTime] reads [currentTime] and the canvas encoder yields the
    payload of the data URL and a blob (or [null]); or the media element's
    [error] event. *)
Inductive SeekResult : Type :=
| seeked (currentTime : float) (base64 : string) (blob : option Blob)
| error.

(** A video file as the sampler sees it: whether its metadata loads, and
    what the browser answers to the k-th seek, given the time the sampler
    asked for. *)
Record VideoFile : Type := mkVideoFile {
  loadedmetadata : option Metadata;
  decoder : nat -> float -> SeekResult
}.

(** The variables the closures of [extractFramesFromVideo] share.  [seek]
    is the time of the seek under way, if there is one. *)
Record State : Type := mkState {
  video : Metadata;
  currentTime : float;
  seek : option float;
  canvas_width : Z;
  canvas_height : Z;
  frames : list FrameData.t;
  interval : float;
  promise : Promise;
  revoked : bool
}.

(** [Math.max(0.5, video.duration / targetFrameCount)] (line 65) *)
Definition sampling_interval (m : Metadata) (targetFrameCount : nat) : float :=
  Math_max 0.5 (duration m / of_nat targetFrameCount).

(** The [loadedmetadata] listener (lines 58-68): it sizes the canvas, fixes
    the interval and starts the first seek, to time 0. *)
Definition on_loadedmetadata (targetFrameCount : nat) (m : Metadata) : State :=
  {| video := m;
     currentTime := 0;
     seek := Some 0;
     canvas_width := Canvas.width (videoWidth m);
     canvas_height := Canvas.height (videoWidth m) (videoHeight m);
     frames := [];
     interval := sampling_interval m targetFrameCount;
     promise := Pending;
     revoked := false |}.

(** [video.currentTime += interval] (line 54): the sum is computed from the
    time the element reports; the setter starts a seek to a finite time and
    throws on a non-finite one, which ends the callback with no seek
    started.  Nothing is compared with the duration here. *)
Definition seek_next (st : State) : State :=
  let t := currentTime st + interval st in
  {| video := video st; currentTime := currentTime st;
     seek := if isFinite t then Some t else None;
     canvas_width := canvas_width st; canvas_height := canvas_height st;
     frames := frames st; interval := interval st;
     promise := promise st; revoked := revoked st |}.

(** [frames.push({timeOffset: video.currentTime, base64, blob})] when the
    encoder produced a blob (lines 45-51). *)
Definition push_frame (base64 : string) (blob : option Blob) (st : State) : State :=
  match blob with
  | Some b =>
      {| video := video st; currentTime := currentTime st; seek := seek st;
         canvas_width := canvas_width st; canvas_height := canvas_height st;
         frames := frames st ++ [FrameData.mk (to_Q (currentTime st)) base64 b];
         interval := interval st;
         promise := promise st; revoked := revoked st |}
  | None => st
  end.

(** The test of line 34. *)
Definition finished (targetFrameCount : nat) (st : State) : bool :=
  leb (duration (video st)) (currentTime st)
  || (targetFrameCount <=? List.length (frames st))%nat.

(** [captureFrame] (lines 33-56), together with the [toBlob] callback it
    registers. *)
Definition captureFrame (targetFrameCount : nat)
           (base64 : string) (blob : option Blob) (st : State) : State :=
  if finished targetFrameCount st then
    {| video := video st; currentTime := currentTime st; seek := None;
       canvas_width := canvas_width st; canvas_height := canvas_height st;
       frames := frames st; interval := interval st;
       promise := VideoUtils.settle (promise st) (Resolved (frames st));
       revoked := true |}
  else
    seek_next (push_frame base64 blob st).

(** The [seeked] listener (line 70): the seek is over, the element reports
    the time [t], and [captureFrame] runs. *)
Definition on_seeked (targetFrameCount : nat) (t : float)
           (base64 : string) (blob : option Blob) (st : State) : State :=
  captureFrame targetFrameCount base64 blob
    {| video := video st; currentTime := t; seek := None;
       canvas_width := canvas_width st; canvas_height := canvas_height st;
       frames := frames st; interval := interval st;
       promise := promise st; revoked := revoked st |}.

(** The [error] listener (lines 74-76). *)
Definition on_error (st : State) : State :=
  {| video := video st; currentTime := currentTime st; seek := None;
     canvas_width := canvas_width st; canvas_height := canvas_height st;
     frames := frames st; interval := interval st;
     promise := VideoUtils.settle (promise st)
                  (Rejected (JS.Error "视频加载失败，请检查文件格式"));
     revoked := revoked st |}.

(** The event loop: while a seek is under way the browser answers it, and
    the matching listener runs.  [k] counts the seeks answered so far. *)
Fixpoint run (decoder : nat -> float -> SeekResult) (targetFrameCount : nat)
         (fuel k : nat) (st : State) : State :=
  match fuel with
  | O => st
  | S fuel' =>
      match seek st with
      | Some t =>
          match decoder k t with
          | seeked t' base64 blob =>
              run decoder targetFrameCount fuel' (S k)
                  (on_seeked targetFrameCount t' base64 blob st)
          | error => on_error st
          end
      | None => st
      end
  end.

(** The promise of [extractFramesFromVideo] after [fuel] browser events,
    [context] telling whether [canvas.getContext('2d')] returned a
    context. *)
Definition extractFramesFromVideo (fuel : nat) (context : bool)
           (videoFile : VideoFile) (targetFrameCount : nat) : Promise :=
  if negb context then Rejected (JS.Error "无法创建Canvas上下文")
  else
    match loadedmetadata videoFile with
    | None => Rejected (JS.Error "视频加载失败，请检查文件格式")
    | Some m =>
        promise (run (decoder videoFile) targetFrameCount fuel 0
                     (on_loadedmetadata targetFrameCount m))
    end.

End VideoUtils64.

(** ** The course of a sampling run, seek by seek *)

Module Schedule64.

Import PrimFloat Binary64 VideoUtils64.

Local Open Scope float_scope.

Section Course.

Variables (decoder : nat -> float -> SeekResult) (m : Metadata)
          (targetFrameCount : nat).

(** The time the k-th seek asks for: 0, then the time the element reported
    after the seek before, plus the interval. *)
Fixpoint request (k : nat) : float :=
  match k with
  | O => 0
  | S k' =>
      match decoder k' (request k') with
      | seeked t _ _ => t + sampling_interval m targetFrameCount
      | error => nan
      end
  end.

(** The answer to the k-th seek. *)
Definition answer (k : nat) : SeekResult := decoder k (request k).

(** The frame the k-th seek contributes, if its encoding gave a blob: it
    carries the time the element reported. *)
Definition capture_of (k : nat) : list FrameData.t :=
  match answer k with
  | seeked t base64 (Some blob) => [FrameData.mk (to_Q t) base64 blob]
  | _ => []
  end.

(** The frames of the seeks 0 .. k-1. *)
Fixpoint captures (k : nat) : list FrameData.t :=
  match k with
  | O => []
  | S k' => captures k' ++ capture_of k'
  end.

(** The test of line 34 at the k-th [seeked] event. *)
Definition test_at (k : nat) (t : float) : bool :=
  leb (duration m) t || (targetFrameCount <=? List.length (captures k))%nat.

(** The k-th seek is answered and the test of line 34 holds. *)
Definition done_at (k : nat) : bool :=
  match answer k with
  | seeked t _ _ => test_at k t
  | error => false
  end.

(** The k-th seek is answered, the test fails and the next seek starts. *)
Definition goes_on (k : nat) : bool :=
  match answer k with
  | seeked t _ _ =>
      negb (test_at k t) && isFinite (t + sampling_interval m targetFrameCount)
  | error => false
  end.

(** The k-th seek is answered, the test fails and the next time is not
    finite: the setter throws. *)
Definition stuck_at (k : nat) : bool :=
  match answer k with
  | seeked t _ _ =>
      negb (test_at k t)
      && negb (isFinite (t + sampling_interval m targetFrameCount))
  | error => false
  end.

(** The element's [error] event answers the k-th seek. *)
Definition fails_at (k : nat) : bool :=
  match answer k with
  | seeked _ _ _ => false
  | error => true
  end.

(** The sampler waits for the answer to the k-th seek. *)
Record waiting (k : nat) (st : State) : Prop := {
  w_video : video st = m;
  w_seek : seek st = Some (request k);
  w_promise : promise st = Pending;
  w_frames : frames st = captures k;
  w_interval : interval st = sampling_interval m targetFrameCount;
  w_revoked : revoked st = false
}.

End Course.

(** The time a media element reports after a seek to [t], as the HTML
    standard has it: the time it was asked for, or the duration when that
    time lies at or past the end. *)
Definition clamp (d t : float) : float := if leb d t then d else t.

(** A decoder whose element reports its time in that way. *)
Definition reports_requested (d : float)
           (decoder : nat -> float -> SeekResult) : Prop :=
  forall k t t' base64 blob,
    decoder k t = seeked t' base64 blob -> t' = clamp d t.

(** The time the k-th seek asks of such an element, as long as the seeks
    before it were answered: each sum is a rounded sum of doubles. *)
Fixpoint asked (d i : float) (k : nat) : float :=
  match k with
  | O => 0
  | S k' => clamp d (asked d i k') + i
  end.

End Schedule64.

(** ** The canvas size under rounding

    Line 59-61 with the rounding of the quotient and of the two products
    made explicit: [rnd] takes the exact result of an operation to the
    double that the operation returns. *)

Module Rounded.

Import JS.

Local Open Scope Q_scope.

Definition MAX_WIDTH : Q := 960.

Definition QN (n : N) : Q := inject_Z (Z.of_N n).

Section Rounding.

Variable rnd : Q -> Q.

Definition round (x : JsNumber) : JsNumber :=
  match x with
  | Fin q => Fin (rnd q)
  | _ => x
  end.

(** [Math.min(1, MAX_WIDTH / video.videoWidth)] *)
Definition scale (videoWidth : N) : JsNumber :=
  Math_min 1 (round (div MAX_WIDTH (QN videoWidth))).

(** [canvas.width = video.videoWidth * scale] *)
Definition canvas_width (videoWidth : N) : Z :=
  set_reflected 300 (round (mul (QN videoWidth) (scale videoWidth))).

(** [canvas.height = video.videoHeight * scale] *)
Definition canvas_height (videoWidth videoHeight : N) : Z :=
  set_reflected 150 (round (mul (QN videoHeight) (scale videoWidth))).

End Rounding.

(** The unit roundoff of binary64. *)
Definition u : Q := 1 # (2 ^ 53).

(** What rounding to the nearest double does to a positive real in the
    range of the normal doubles that the canvas sizes stay in: it is
    monotone, it leaves the integers up to 2^53 as they are, and it moves a
    value by at most the fraction [u] of it. *)
Record nearest_double (rnd : Q -> Q) : Prop := {
  rnd_monotone : forall x y, x <= y -> rnd x <= rnd y;
  rnd_integer : forall z : Z, (0 <= z <= 2 ^ 53)%Z -> rnd (inject_Z z) == inject_Z z;
  rnd_error : forall x, 1 # (2 ^ 32) <= x -> x <= inject_Z (2 ^ 64) ->
                        x * (1 - u) <= rnd x /\ rnd x <= x * (1 + u)
}.

End Rounded.

(** ** Rounding to the nearest double, on the rationals

    The rounding of IEEE 754 binary64 (to nearest, ties to even) as a
    function on the rationals: 53 significant bits, gradual underflow at
    2^-1074.  Values beyond the largest double, which round to an infinity,
    are outside its range. *)

Module Nearest.

Local Open Scope Q_scope.

(** Rounding to the nearest integer, a tie going to the even one. *)
Definition round_half_even (y : Q) : Z :=
  let f := Qfloor y in
  match Qcompare (y - inject_Z f) (1 # 2) with
  | Lt => f
  | Gt => (f + 1)%Z
  | Eq => if Z.even f then f else (f + 1)%Z
  end.

(** The exponent of the last place of the doubles around [x], for
    [0 <= x]: 53 significant bits, and no exponent below -1074. *)
Definition last_place (x : Q) : Z :=
  Z.max (-1074) (Z.log2 (Qfloor (x * 2 ^ 1074)) - 1126).

Definition nearest_pos (x : Q) : Q :=
  let e := last_place x in
  inject_Z (round_half_even (x * 2 ^ (- e))) * 2 ^ e.

(** The double nearest to [x], below the largest double. *)
Definition nearest (x : Q) : Q :=
  if Qle_bool 0 x then nearest_pos x else - nearest_pos (- x).

End Nearest.

(** ** Sample files for the sampler on doubles *)

Module Samples64.

Import PrimFloat Binary64 VideoUtils64 Schedule64.

Local Open Scope float_scope.

(** An element of duration [d] that answers every seek and encodes every
    frame but those of the seeks listed in [nulls]. *)
Definition element (d : float) (nulls : list nat) : nat -> float -> SeekResult :=
  fun k t =>
    seeked (clamp d t) ""
           (if existsb (Nat.eqb k) nulls then None else Some (mkBlob [])).

Definition video_of (d : float) (nulls : list nat) : VideoFile :=
  mkVideoFile (Some (mkMetadata d 1920 1080)) (element d nulls).

(** The 12 seconds of the scenario. *)
Definition video_12s : VideoFile := video_of 12 [].

(** 72 seconds, the first frame failing to encode: with a target of 120
    the interval is 72 / 120. *)
Definition video_72s : VideoFile := video_of 72 [0%nat].

(** 6 seconds, the first frame failing to encode. *)
Definition video_6s : VideoFile := video_of 6 [0%nat].

(** 61 seconds. *)
Definition video_61s : VideoFile := video_of 61 [].

(** A stream of unbounded length. *)
Definition live_stream : VideoFile := video_of infinity [].

(** A file whose decoder fails at the second seek. *)
Definition broken_at_1 : VideoFile :=
  mkVideoFile (Some (mkMetadata 12 1920 1080))
              (fun k t => match k with
                          | 1%nat => error
                          | _ => seeked t "" (Some (mkBlob []))
                          end).

End Samples64.

(** * Properties of the reconciliation step *)

Section ArrayMap.

Import JS.

Context {A B : Type} (f : A -> Completion B).

Lemma array_map_Forall2 (R : A -> B -> Prop) (l : list A) :
  Forall (fun x => exists y, f x = inr y /\ R x y) l ->
  exists ys, array_map f l = inr ys /\ Forall2 R l ys.
Proof.
  induction 1 as [|x xs [y [Hy HR]] _ [ys [Hys HF]]]; simpl.
  - exists []. split; [reflexivity | constructor].
  - exists (y :: ys). rewrite Hy; simpl. rewrite Hys; simpl.
    split; [reflexivity | constructor; assumption].
Qed.

Lemma array_map_throws (x : A) (xs : list A) (e : Exception) :
  f x = inl e -> array_map f (x :: xs) = inl e.
Proof. intros H. simpl. rewrite H. reflexivity. Qed.

End ArrayMap.

Module ReconcileFacts.

Import JS GeminiService Spec.

(** On a non-empty array the clamped index is a valid position. *)
Lemma index_in_range {A} (arr : list A) (i : Z) :
  0 <= i <= Z.of_nat (List.length arr) - 1 -> exists a, index arr i = Some a.
Proof.
  intros [Hlo Hhi]. unfold index.
  destruct (Z.ltb_spec i 0) as [Hneg|_]; [lia|].
  destruct (nth_error arr (Z.to_nat i)) as [a|] eqn:E.
  - exists a. reflexivity.
  - apply nth_error_None in E. lia.
Qed.

Lemma index_Some_range {A} (arr : list A) (i : Z) (a : A) :
  index arr i = Some a -> 0 <= i <= Z.of_nat (List.length arr) - 1.
Proof.
  unfold index. destruct (Z.ltb_spec i 0) as [Hneg|Hpos]; [discriminate|].
  intros E.
  assert (Z.to_nat i < List.length arr)%nat
    by (apply nth_error_Some; congruence).
  lia.
Qed.

(** The two orders of clamping agree as soon as the upper bound is not
    negative. *)
Lemma clamp_orders (i hi : Z) :
  0 <= hi -> Z.min (Z.max 0 i) hi = Z.max 0 (Z.min i hi).
Proof. lia. Qed.

Lemma length_pos {A} (l : list A) : l <> [] -> 0 <= Z.of_nat (List.length l) - 1.
Proof. destruct l; [congruence | simpl List.length; lia]. Qed.

Lemma processItem_ok (frames : list FrameData.t) (raw : TimelineItem.t) :
  frames <> [] ->
  exists ev, processItem frames raw = inr ev
             /\ clamped_to frames raw ev /\ passed_through raw ev.
Proof.
  intros Hne. pose proof (length_pos frames Hne) as Hn.
  unfold processItem.
  assert (Hc : safeIndex frames raw
               = Z.max 0 (Z.min (TimelineItem.bestFrameIndex raw)
                                (Z.of_nat (List.length frames) - 1)))
    by (unfold safeIndex; apply clamp_orders; exact Hn).
  assert (Hr : 0 <= safeIndex frames raw <= Z.of_nat (List.length frames) - 1)
    by (unfold safeIndex; lia).
  destruct (index_in_range frames _ Hr) as [frame Hf].
  rewrite Hf. eexists. split; [reflexivity|]. split.
  - unfold clamped_to; simpl. rewrite <- Hc. split; [reflexivity|].
    split; [exact Hr|]. exists frame. split; [exact Hf | reflexivity].
  - unfold passed_through; simpl. repeat split.
Qed.

Lemma Forall2_and {A B} (R S : A -> B -> Prop) (l : list A) (l' : list B) :
  Forall2 (fun a b => R a b /\ S a b) l l' -> Forall2 R l l' /\ Forall2 S l l'.
Proof. induction 1 as [|a b l l' [HR HS] _ [IHR IHS]]; split; constructor; assumption. Qed.

Lemma reconcile_ok (frames : list FrameData.t) (result : AnalysisResult.t) :
  frames <> [] ->
  exists processedTimeline,
    reconcile frames result
    = inr {| AnalysisResult.title := AnalysisResult.title result;
             AnalysisResult.summary := AnalysisResult.summary result;
             AnalysisResult.timeline := processedTimeline;
             AnalysisResult.vibe := AnalysisResult.vibe result |}
    /\ Forall2 (clamped_to frames) (AnalysisResult.timeline result) processedTimeline
    /\ Forall2 passed_through (AnalysisResult.timeline result) processedTimeline.
Proof.
  intros Hne. unfold reconcile.
  destruct (array_map_Forall2 (processItem frames)
              (fun raw ev => clamped_to frames raw ev /\ passed_through raw ev)
              (AnalysisResult.timeline result)) as [tl [Htl HF]].
  - apply Forall_forall. intros raw _. apply processItem_ok. exact Hne.
  - exists tl. rewrite Htl. simpl. split; [reflexivity|].
    apply Forall2_and. exact HF.
Qed.

Lemma processItem_fixpoint (frames : list FrameData.t) (item : TimelineItem.t) :
  already_reconciled frames item -> processItem frames item = inr item.
Proof.
  intros [Hr [frame [Hf Ht]]]. unfold processItem.
  assert (Hs : safeIndex frames item = TimelineItem.bestFrameIndex item)
    by (unfold safeIndex; lia).
  rewrite Hs, Hf. destruct item; simpl in *. rewrite Ht. reflexivity.
Qed.

Lemma array_map_fixpoint (frames : list FrameData.t) (tl : list TimelineItem.t) :
  Forall (already_reconciled frames) tl ->
  array_map (processItem frames) tl = inr tl.
Proof.
  induction 1 as [|item tl Hitem _ IH]; simpl; [reflexivity|].
  rewrite (processItem_fixpoint _ _ Hitem); simpl. rewrite IH. reflexivity.
Qed.

Lemma reconcile_fixpoint (frames : list FrameData.t) (result : AnalysisResult.t) :
  Forall (already_reconciled frames) (AnalysisResult.timeline result) ->
  reconcile frames result = inr result.
Proof.
  intros Hall. unfold reconcile.
  rewrite (array_map_fixpoint _ _ Hall). destruct result; reflexivity.
Qed.

(** What [reconcile] returns needs no further repair. *)
Lemma clamped_is_reconciled (frames : list FrameData.t)
      (raws evs : list TimelineItem.t) :
  Forall2 (clamped_to frames) raws evs -> Forall (already_reconciled frames) evs.
Proof.
  induction 1 as [|raw ev l l' [Hi [Hr [frame [Hf Ht]]]] _ IH]; constructor.
  - unfold already_reconciled. rewrite Hi. split; [exact Hr|].
    exists frame. split; assumption.
  - exact IH.
Qed.

(** Reconciling twice is reconciling once. *)
Lemma reconcile_twice (frames : list FrameData.t) (result out : AnalysisResult.t) :
  frames <> [] -> reconcile frames result = inr out -> reconcile frames out = inr out.
Proof.
  intros Hne E. apply reconcile_fixpoint.
  destruct (reconcile_ok frames result Hne) as [tl [E' [Hc _]]].
  rewrite E' in E. injection E as <-. simpl.
  apply (clamped_is_reconciled frames _ _ Hc).
Qed.

End ReconcileFacts.

Module ReconcileClaims.

Import JS GeminiService Spec ReconcileFacts Samples.

(** C1. Against a non-empty frame sequence of length N the reconciliation
    step returns, and every parsed timeline entry, whatever integer its
    [bestFrameIndex] is, yields at the same position an event whose
    [bestFrameIndex] is max(0, min(raw, N-1)), an index of [0, N-1], and
    whose [timeOffset] is the [timeOffset] of the frame at that index. *)
Theorem reconcile_clamps_index (frames : list FrameData.t) (result : AnalysisResult.t) :
  frames <> [] ->
  exists out,
    reconcile frames result = inr out
    /\ Forall2 (clamped_to frames)
               (AnalysisResult.timeline result) (AnalysisResult.timeline out).
Proof.
  intros Hne. destruct (reconcile_ok frames result Hne) as [tl [E [Hc _]]].
  eexists. split; [exact E | exact Hc].
Qed.

Lemma reconcile_clamps_index_witness :
  ten_frames <> []
  /\ exists out,
      reconcile ten_frames raw_result = inr out
      /\ Forall2 (clamped_to ten_frames)
                 (AnalysisResult.timeline raw_result) (AnalysisResult.timeline out).
Proof.
  split; [discriminate | apply (reconcile_clamps_index ten_frames raw_result); discriminate].
Defined.

(** C2. Against a non-empty frame sequence the reconciled timeline has the
    length and the order of the parsed one, each event keeps the
    [timestamp], [content], [location], [foodItems] and [highlightType] of
    the entry at its position, and [title], [summary] and [vibe] of the
    result are unchanged. *)
Theorem reconcile_passes_through (frames : list FrameData.t) (result : AnalysisResult.t) :
  frames <> [] ->
  exists out,
    reconcile frames result = inr out
    /\ AnalysisResult.title out = AnalysisResult.title result
    /\ AnalysisResult.summary out = AnalysisResult.summary result
    /\ AnalysisResult.vibe out = AnalysisResult.vibe result
    /\ List.length (AnalysisResult.timeline out)
       = List.length (AnalysisResult.timeline result)
    /\ Forall2 passed_through
               (AnalysisResult.timeline result) (AnalysisResult.timeline out).
Proof.
  intros Hne. destruct (reconcile_ok frames result Hne) as [tl [E [_ Hp]]].
  eexists. split; [exact E|]. simpl. repeat split; try reflexivity.
  - symmetry. eapply Forall2_length. exact Hp.
  - exact Hp.
Qed.

Lemma reconcile_passes_through_witness :
  ten_frames <> []
  /\ exists out,
      reconcile ten_frames raw_result = inr out
      /\ AnalysisResult.title out = AnalysisResult.title raw_result
      /\ AnalysisResult.summary out = AnalysisResult.summary raw_result
      /\ AnalysisResult.vibe out = AnalysisResult.vibe raw_result
      /\ List.length (AnalysisResult.timeline out)
         = List.length (AnalysisResult.timeline raw_result)
      /\ Forall2 passed_through
                 (AnalysisResult.timeline raw_result) (AnalysisResult.timeline out).
Proof.
  split; [discriminate | apply (reconcile_passes_through ten_frames raw_result); discriminate].
Defined.

(** The scenarios of the specification: index 999 against ten frames
    becomes 9 with the time of frame 9 and the display timestamp kept;
    index -3 becomes 0. *)
Example scenario_999 :
  processItem ten_frames (raw_event 999 "00:07")
  = inr (TimelineItem.mk "00:07" (Some (9 # 2)%Q) "noodles" None None 9 food).
Proof. reflexivity. Qed.

Example scenario_minus_3 :
  processItem ten_frames (raw_event (-3) "00:01")
  = inr (TimelineItem.mk "00:01" (Some 0%Q) "noodles" None None 0 food).
Proof. reflexivity. Qed.

(** C3. Reconciliation is idempotent: a result whose entries already carry
    an index of [0, N-1] and the [timeOffset] of the frame at that index is
    returned unchanged. *)
Theorem reconcile_idempotent (frames : list FrameData.t) (result : AnalysisResult.t) :
  frames <> [] ->
  Forall (already_reconciled frames) (AnalysisResult.timeline result) ->
  reconcile frames result = inr result.
Proof. intros _ Hall. apply reconcile_fixpoint. exact Hall. Qed.

Lemma reconcile_idempotent_witness :
  ten_frames <> []
  /\ Forall (already_reconciled ten_frames) (AnalysisResult.timeline reconciled_result)
  /\ reconcile ten_frames reconciled_result = inr reconciled_result.
Proof.
  assert (Hall : Forall (already_reconciled ten_frames)
                        (AnalysisResult.timeline reconciled_result)).
  { unfold reconciled_result; simpl.
    repeat constructor; simpl; try lia; try discriminate;
      eexists; (split; [reflexivity | reflexivity]). }
  split; [discriminate|]. split; [exact Hall|].
  apply (reconcile_idempotent ten_frames reconciled_result); [discriminate | exact Hall].
Defined.

End ReconcileClaims.

(** * Properties of the sampler *)

Module SamplerFacts.

Import JS VideoUtils Spec.

Local Open Scope Q_scope.

Lemma Qnat_S (j : nat) : Qnat (S j) == Qnat j + 1.
Proof.
  unfold Qnat. rewrite Nat2Z.inj_succ. unfold Z.succ.
  rewrite inject_Z_plus. reflexivity.
Qed.

Lemma Qnat_nonzero (n : nat) : n <> 0%nat -> Qeq_bool (Qnat n) 0 = false.
Proof.
  intros Hn. destruct (Qeq_bool (Qnat n) 0) eqn:E; [|reflexivity].
  apply Qeq_bool_iff in E. unfold Qnat, Qeq in E. simpl in E. lia.
Qed.

Lemma sampling_interval_finite (m : Metadata) (n : nat) :
  n <> 0%nat ->
  sampling_interval m n = Fin (Qmax (1 # 2) (duration m / Qnat n)).
Proof.
  intros Hn. unfold sampling_interval, div.
  rewrite (Qnat_nonzero n Hn). reflexivity.
Qed.

Lemma Qle_bool_false (a b : Q) : Qle_bool a b = false -> b < a.
Proof.
  intros E. apply Qnot_le_lt. intros H. apply Qle_bool_iff in H. congruence.
Qed.

(** A media element that clamps the seek time to the duration answers the
    test of line 34 as one that stores the time as assigned. *)
Lemma clamped_seek_same_test (d t : Q) :
  Qle_bool d (Qmin t d) = Qle_bool d t.
Proof.
  destruct (Qle_bool d t) eqn:E.
  - apply Qle_bool_iff in E. apply Qle_bool_iff.
    apply Q.min_glb; [exact E | apply Qle_refl].
  - apply Qle_bool_false in E.
    destruct (Qle_bool d (Qmin t d)) eqn:E'; [|reflexivity].
    apply Qle_bool_iff in E'. pose proof (Q.le_min_l t d). lra.
Qed.

Lemma sorted_snoc (ts : list Q) (t : Q) :
  StronglySorted Qlt ts -> Forall (fun u => u < t) ts ->
  StronglySorted Qlt (ts ++ [t]).
Proof.
  induction 1 as [|u ts Hs IH Hu]; intros Hall; simpl.
  - repeat constructor.
  - inversion Hall as [|? ? Hut Hrest]; subst. constructor.
    + apply IH. exact Hrest.
    + apply Forall_app. split; [exact Hu | repeat constructor; exact Hut].
Qed.

Lemma timeOffsets_snoc (fs : list FrameData.t) (f : FrameData.t) :
  timeOffsets (fs ++ [f]) = timeOffsets fs ++ [FrameData.timeOffset f].
Proof. unfold timeOffsets. rewrite map_app. reflexivity. Qed.

Section Steps.

Variables (m : Metadata) (targetFrameCount : nat) (i : Q).

Abbreviation sampling := (Spec.sampling m targetFrameCount i).

Lemma finished_target_zero (st : State) :
  targetFrameCount = 0%nat -> finished targetFrameCount st = true.
Proof. intros ->. unfold finished. simpl. apply orb_true_r. Qed.

Lemma not_finished (st : State) :
  sampling st -> finished targetFrameCount st = false ->
  interval st = Fin i /\ 1 # 2 <= i
  /\ currentTime st < duration m
  /\ (List.length (frames st) < targetFrameCount)%nat.
Proof.
  intros I Hf.
  destruct (finite_interval _ _ _ _ I) as [H0 | [Hi Hhalf]].
  - rewrite (finished_target_zero st H0) in Hf. discriminate.
  - unfold finished in Hf. apply orb_false_iff in Hf as [Ht Hn].
    rewrite (same_video _ _ _ _ I) in Ht.
    repeat split; try assumption.
    + apply Qle_bool_false. exact Ht.
    + apply Nat.leb_gt. exact Hn.
Qed.

Lemma loadedmetadata_sampling :
  i = Qmax (1 # 2) (duration m / Qnat targetFrameCount) ->
  sampling (on_loadedmetadata targetFrameCount m).
Proof.
  intros Hi. constructor; simpl.
  - reflexivity.
  - destruct (Nat.eq_dec targetFrameCount 0) as [H0|Hn]; [left; exact H0|right].
    split.
    + rewrite sampling_interval_finite by exact Hn. rewrite Hi. reflexivity.
    + rewrite Hi. apply Q.le_max_l.
  - split; reflexivity.
  - discriminate.
  - constructor.
  - constructor.
  - constructor.
  - lia.
  - exists 0%nat. unfold Qnat. change (inject_Z (Z.of_nat 0)) with 0. ring.
  - constructor.
  - unfold Qnat. change (inject_Z (Z.of_nat 0)) with 0. lra.
  - left. reflexivity.
Qed.

Lemma push_sampling (st : State) (base64 : string) (blob : option Blob) :
  sampling st -> finished targetFrameCount st = false ->
  seeking st = true ->
  let st' := seek_next (push_frame base64 blob st) in
  sampling st'
  /\ seeking st' = true
  /\ currentTime st' = currentTime st + i.
Proof.
  intros I Hf Hseek.
  destruct (not_finished st I Hf) as [Hi [Hhalf [Hlt Hlen]]].
  pose proof (proj1 (pending_iff_seeking _ _ _ _ I) Hseek) as Hpend.
  destruct (seek_on_grid _ _ _ _ I) as [j Hj].
  assert (Hgrid : exists j' : nat, currentTime st + i == Qnat j' * i).
  { exists (S j). rewrite Qnat_S, Hj. ring. }
  pose proof (count_le_time _ _ _ _ I) as Hcount.
  destruct blob as [b|]; simpl; unfold seek_next; simpl; rewrite Hi; simpl.
  - split; [|split; reflexivity].
    constructor; simpl.
    + apply (same_video _ _ _ _ I).
    + right. split; [reflexivity | exact Hhalf].
    + split; [intros _; exact Hpend | reflexivity].
    + intros fs E. rewrite Hpend in E. discriminate.
    + rewrite timeOffsets_snoc. simpl. apply sorted_snoc.
      * apply (increasing _ _ _ _ I).
      * apply (before_seek _ _ _ _ I).
    + rewrite timeOffsets_snoc. simpl. apply Forall_app. split.
      * eapply Forall_impl; [|apply (before_seek _ _ _ _ I)].
        simpl. intros t Ht. lra.
      * repeat constructor. lra.
    + rewrite timeOffsets_snoc. simpl. apply Forall_app. split.
      * apply (before_end _ _ _ _ I).
      * repeat constructor. exact Hlt.
    + rewrite length_app. simpl. lia.
    + exact Hgrid.
    + rewrite timeOffsets_snoc. simpl. apply Forall_app. split.
      * apply (frames_on_grid _ _ _ _ I).
      * repeat constructor. exists j. exact Hj.
    + rewrite length_app, Nat.add_1_r, Qnat_S. lra.
    + right. rewrite length_app, Nat.add_1_r, Qnat_S. lra.
  - split; [|split; reflexivity].
    constructor; simpl.
    + apply (same_video _ _ _ _ I).
    + right. split; [reflexivity | exact Hhalf].
    + split; [intros _; exact Hpend | reflexivity].
    + intros fs E. rewrite Hpend in E. discriminate.
    + apply (increasing _ _ _ _ I).
    + eapply Forall_impl; [|apply (before_seek _ _ _ _ I)].
      simpl. intros t Ht. lra.
    + apply (before_end _ _ _ _ I).
    + lia.
    + exact Hgrid.
    + apply (frames_on_grid _ _ _ _ I).
    + lra.
    + apply (count_bound _ _ _ _ I).
Qed.

Lemma resolve_sampling (st : State) (base64 : string) (blob : option Blob) :
  sampling st -> finished targetFrameCount st = true ->
  seeking st = true ->
  let st' := captureFrame targetFrameCount base64 blob st in
  sampling st'
  /\ seeking st' = false
  /\ frames st' = frames st
  /\ currentTime st' = currentTime st
  /\ promise st' = Resolved (frames st).
Proof.
  intros I Hf Hseek. unfold captureFrame. rewrite Hf. simpl.
  pose proof (proj1 (pending_iff_seeking _ _ _ _ I) Hseek) as Hpend.
  rewrite Hpend. simpl. split; [|repeat split; reflexivity].
  destruct I. constructor; simpl; try assumption.
  - split; discriminate.
  - intros fs E. injection E as <-. reflexivity.
Qed.

Lemma error_sampling (st : State) :
  sampling st -> seeking st = true ->
  sampling (on_error st)
  /\ seeking (on_error st) = false
  /\ promise (on_error st) = Rejected (Error "视频加载失败，请检查文件格式").
Proof.
  intros I Hseek.
  pose proof (proj1 (pending_iff_seeking _ _ _ _ I) Hseek) as Hpend.
  unfold on_error. simpl. rewrite Hpend. simpl. split; [|split; reflexivity].
  destruct I. constructor; simpl; try assumption.
  - split; discriminate.
  - discriminate.
Qed.

Lemma captureFrame_sampling (st : State) (base64 : string) (blob : option Blob) :
  sampling st -> seeking st = true ->
  sampling (captureFrame targetFrameCount base64 blob st).
Proof.
  intros I Hseek. destruct (finished targetFrameCount st) eqn:Hf.
  - apply (resolve_sampling st base64 blob I Hf Hseek).
  - unfold captureFrame. rewrite Hf.
    apply (push_sampling st base64 blob I Hf Hseek).
Qed.

Variable decoder : nat -> SeekResult.

Lemma run_sampling (fuel : nat) :
  forall (k : nat) (st : State),
    sampling st -> sampling (run decoder targetFrameCount fuel k st).
Proof.
  induction fuel as [|fuel IH]; intros k st I; simpl; [exact I|].
  destruct (seeking st) eqn:Hseek; [|exact I].
  destruct (decoder k) as [base64 blob|].
  - apply IH. apply captureFrame_sampling; assumption.
  - apply (error_sampling st I Hseek).
Qed.

Lemma run_S (fuel k : nat) (st : State) :
  run decoder targetFrameCount (S fuel) k st
  = if seeking st then
      match decoder k with
      | seeked base64 blob =>
          run decoder targetFrameCount fuel (S k)
              (captureFrame targetFrameCount base64 blob st)
      | error => on_error st
      end
    else st.
Proof. reflexivity. Qed.

(** Once no seek is under way, further events change nothing. *)
Lemma run_at_rest (fuel k : nat) (st : State) :
  seeking st = false -> run decoder targetFrameCount fuel k st = st.
Proof. intros H. destruct fuel; simpl; [|rewrite H]; reflexivity. Qed.

Lemma run_stable (fuel : nat) :
  forall (k : nat) (st : State) (more : nat),
    seeking (run decoder targetFrameCount fuel k st) = false ->
    run decoder targetFrameCount (fuel + more) k st
    = run decoder targetFrameCount fuel k st.
Proof.
  induction fuel as [|fuel IH]; intros k st more; simpl.
  - intros H. apply run_at_rest. exact H.
  - destruct (seeking st) eqn:Hseek; [|reflexivity].
    destruct (decoder k) as [base64 blob|]; [apply IH | reflexivity].
Qed.

(** Every seek advances the time by at least half a second: the loop
    comes to rest within 2 * (duration - currentTime) + 1 events. *)
Lemma run_rests (fuel : nat) :
  forall (k : nat) (st : State),
    sampling st ->
    duration m - currentTime st <= Qnat fuel * (1 # 2) ->
    seeking (run decoder targetFrameCount (S fuel) k st) = false.
Proof.
  induction fuel as [|fuel IH]; intros k st I Hd;
    rewrite run_S; destruct (seeking st) eqn:Hseek; try assumption;
    destruct (decoder k) as [base64 blob|];
    try apply (error_sampling st I Hseek).
  - assert (Hf : finished targetFrameCount st = true).
    { unfold finished. rewrite (same_video _ _ _ _ I).
      apply orb_true_iff. left. apply Qle_bool_iff.
      unfold Qnat in Hd. change (inject_Z (Z.of_nat 0)) with 0 in Hd. lra. }
    simpl. apply (resolve_sampling st base64 blob I Hf Hseek).
  - destruct (finished targetFrameCount st) eqn:Hf.
    + rewrite run_at_rest; apply (resolve_sampling st base64 blob I Hf Hseek).
    + destruct (push_sampling st base64 blob I Hf Hseek) as [I' [_ Ht]].
      destruct (not_finished st I Hf) as [_ [Hhalf _]].
      unfold captureFrame. rewrite Hf. apply IH; [exact I'|].
      rewrite Ht. rewrite Qnat_S in Hd. lra.
Qed.

(** Without an [error] event the promise is never rejected. *)
Lemma run_not_rejected (fuel : nat) :
  (forall k, decoder k <> error) ->
  forall (k : nat) (st : State),
    sampling st ->
    (forall e, promise st <> Rejected e) ->
    forall e, promise (run decoder targetFrameCount fuel k st) <> Rejected e.
Proof.
  intros Hdec. induction fuel as [|fuel IH]; intros k st I Hp; simpl; [exact Hp|].
  destruct (seeking st) eqn:Hseek; [|exact Hp].
  destruct (decoder k) as [base64 blob|] eqn:Ek; [|elim (Hdec k Ek)].
  apply IH; [apply captureFrame_sampling; assumption|].
  intros e. destruct (finished targetFrameCount st) eqn:Hf.
  - destruct (resolve_sampling st base64 blob I Hf Hseek) as [_ [_ [_ [_ E]]]].
    rewrite E. discriminate.
  - destruct (push_sampling st base64 blob I Hf Hseek) as [I' [Hs' _]].
    unfold captureFrame. rewrite Hf.
    rewrite (proj1 (pending_iff_seeking _ _ _ _ I') Hs'). discriminate.
Qed.

End Steps.

Lemma enough_covers (d : Q) :
  d - 0 <= Qnat (Z.to_nat (Qceiling (2 * d))) * (1 # 2).
Proof.
  pose proof (Qle_ceiling (2 * d)) as Hc.
  assert (Hz : (Qceiling (2 * d) <= Z.of_nat (Z.to_nat (Qceiling (2 * d))))%Z) by lia.
  rewrite Zle_Qle in Hz. unfold Qnat. lra.
Qed.

Lemma extractFramesFromVideo_unfold
      (context : bool) (videoFile : VideoFile) (targetFrameCount : nat) :
  extractFramesFromVideo context videoFile targetFrameCount
  = extractFramesFromVideo_steps (enough videoFile) context videoFile targetFrameCount.
Proof. reflexivity. Qed.

Section Outcome.

Variables (videoFile : VideoFile) (m : Metadata) (targetFrameCount : nat).
Hypothesis loaded : loadedmetadata videoFile = Some m.

Abbreviation i := (Qmax (1 # 2) (duration m / Qnat targetFrameCount)).

Lemma steps_unfold (fuel : nat) :
  extractFramesFromVideo_steps fuel true videoFile targetFrameCount
  = promise (run (decoder videoFile) targetFrameCount fuel 0
                 (on_loadedmetadata targetFrameCount m)).
Proof. unfold extractFramesFromVideo_steps. rewrite loaded. reflexivity. Qed.

Lemma steps_sampling (fuel : nat) :
  Spec.sampling m targetFrameCount i
    (run (decoder videoFile) targetFrameCount fuel 0
         (on_loadedmetadata targetFrameCount m)).
Proof. apply run_sampling. apply loadedmetadata_sampling. reflexivity. Qed.

Lemma steps_resolved (fuel : nat) (context : bool) (fs : list FrameData.t) :
  extractFramesFromVideo_steps fuel context videoFile targetFrameCount = Resolved fs ->
  exists st, Spec.sampling m targetFrameCount i st /\ frames st = fs.
Proof.
  destruct context; [|discriminate]. rewrite steps_unfold. intros E.
  eexists. split; [apply (steps_sampling fuel)|].
  symmetry. apply (resolved_with_frames _ _ _ _ (steps_sampling fuel)). exact E.
Qed.

Lemma enough_rests :
  seeking (run (decoder videoFile) targetFrameCount (enough videoFile) 0
               (on_loadedmetadata targetFrameCount m)) = false.
Proof.
  unfold enough. rewrite loaded, Nat.add_1_r.
  apply (run_rests m targetFrameCount i).
  - apply loadedmetadata_sampling. reflexivity.
  - simpl currentTime. apply enough_covers.
Qed.

(** With [enough] events the promise is settled, and more events do not
    change it. *)
Lemma steps_enough (more : nat) :
  extractFramesFromVideo_steps (enough videoFile + more) true videoFile targetFrameCount
  = extractFramesFromVideo true videoFile targetFrameCount.
Proof.
  unfold extractFramesFromVideo. rewrite !steps_unfold.
  rewrite run_stable; [reflexivity | apply enough_rests].
Qed.

Lemma sampler_settles :
  extractFramesFromVideo true videoFile targetFrameCount <> Pending.
Proof.
  unfold extractFramesFromVideo. rewrite steps_unfold. intros E.
  apply (pending_iff_seeking _ _ _ _ (steps_sampling (enough videoFile))) in E.
  rewrite enough_rests in E. discriminate.
Qed.

Lemma sampler_resolves :
  (forall k, decoder videoFile k <> error) ->
  exists fs, extractFramesFromVideo true videoFile targetFrameCount = Resolved fs.
Proof.
  intros Hdec. pose proof sampler_settles as Hs.
  unfold extractFramesFromVideo in *. rewrite steps_unfold in *.
  pose proof (run_not_rejected m targetFrameCount i (decoder videoFile)
                (enough videoFile) Hdec 0%nat
                (on_loadedmetadata targetFrameCount m)
                (loadedmetadata_sampling m targetFrameCount i eq_refl)) as Hr.
  destruct (promise _) as [|fs|e].
  - congruence.
  - exists fs. reflexivity.
  - exfalso. apply (Hr ltac:(simpl; discriminate) e). reflexivity.
Qed.

End Outcome.

End SamplerFacts.

Module SamplerClaims.

Import JS VideoUtils Spec SamplerFacts Samples.

Local Open Scope Q_scope.

Lemma sorted_weaken (ts : list Q) : StronglySorted Qlt ts -> StronglySorted Qle ts.
Proof.
  induction 1 as [|t ts _ IH Hall]; constructor; [exact IH|].
  eapply Forall_impl; [|exact Hall]. intros u. apply Qlt_le_weak.
Qed.

Lemma last_In {A} (l : list A) (d : A) : l <> [] -> In (last l d) l.
Proof.
  induction l as [|a [|b l] IH]; intros Hne; [congruence | left; reflexivity|].
  right. apply IH. discriminate.
Qed.

(** C5. In every frame sequence the sampler resolves with, the
    [timeOffset] values increase strictly from one frame to the next (so
    they are non-decreasing), and every one of them, the last included, is
    at most the duration of the video. *)
Theorem sampler_frames_increasing
        (fuel : nat) (context : bool) (videoFile : VideoFile) (m : Metadata)
        (targetFrameCount : nat) (fs : list FrameData.t) :
  loadedmetadata videoFile = Some m ->
  extractFramesFromVideo_steps fuel context videoFile targetFrameCount = Resolved fs ->
  StronglySorted Qlt (timeOffsets fs)
  /\ StronglySorted Qle (timeOffsets fs)
  /\ Forall (fun t => t <= duration m) (timeOffsets fs)
  /\ (forall d, fs <> [] -> FrameData.timeOffset (last fs d) <= duration m).
Proof.
  intros Hload E.
  destruct (steps_resolved videoFile m targetFrameCount Hload _ _ _ E) as [st [I <-]].
  pose proof (increasing _ _ _ _ I) as Hs.
  assert (Hle : Forall (fun t => t <= duration m) (timeOffsets (frames st))).
  { eapply Forall_impl; [|apply (before_end _ _ _ _ I)]. intros t. apply Qlt_le_weak. }
  repeat split; [exact Hs | apply sorted_weaken; exact Hs | exact Hle |].
  intros d Hne. rewrite Forall_forall in Hle. apply Hle.
  unfold timeOffsets. apply in_map. apply last_In. exact Hne.
Qed.

Lemma sampler_frames_increasing_witness :
  exists fs,
    extractFramesFromVideo true video_12s 120 = Resolved fs
    /\ StronglySorted Qlt (timeOffsets fs)
    /\ Forall (fun t => t <= 12) (timeOffsets fs).
Proof.
  destruct (sampler_resolves video_12s (mkMetadata 12 1920 1080) 120 eq_refl)
    as [fs E]; [intros k; discriminate|].
  exists fs. split; [exact E|].
  rewrite extractFramesFromVideo_unfold in E.
  destruct (sampler_frames_increasing (enough video_12s) true video_12s
              (mkMetadata 12 1920 1080) 120 fs eq_refl E) as [Hs [_ [Hle _]]].
  split; [exact Hs | exact Hle].
Defined.


End SamplerClaims.

(** * Properties of the analysis service and of the orchestrator *)

Module AppFacts.

Import JS GeminiService VideoUtils App Spec.

Lemma error_message_nonempty (e : Exception) : error_message e <> EmptyString.
Proof. unfold error_message. destruct (message e); discriminate. Qed.

(** The three updates of a failed analysis, seen on the store. *)
Lemma fail_after_analyzing (projectId : string) (e : Exception)
      (fs : list FrameData.t) (projects : list Project.t) :
  fail projectId e
       (updateProject projectId
          (Updates.mk None (Some analyzing) (Some fs) None None)
          (updateProjectStatus projectId extracting projects))
  = failed_store projectId fs (error_message e) projects.
Proof.
  unfold fail, updateProjectStatus, updateProject, failed_store.
  rewrite !map_map. apply map_ext. intros p.
  destruct (String.eqb (Project.id p) projectId) eqn:E; simpl; rewrite ?E; simpl;
    rewrite ?E; reflexivity.
Qed.

Lemma processProject_analysis_fails
      (w : World) (context : bool) (projectId : string) (file : VideoFile)
      (projects : list Project.t) (fs : list FrameData.t) (e : Exception) :
  extractFramesFromVideo context file 120 = Resolved fs ->
  analyzeVideoFrames w fs = inl e ->
  processProject w context projectId file projects
  = failed_store projectId fs (error_message e) projects.
Proof.
  intros Hs Ha. unfold processProject. rewrite Hs, Ha.
  apply fail_after_analyzing.
Qed.

Lemma analyze_with_payload (w : World) (frames : list FrameData.t)
      (payload : string) (result : AnalysisResult.t) :
  falsy (API_KEY w) = false ->
  generateContent w (contentParts frames) = inr (Some payload) ->
  payload <> EmptyString ->
  JSON_parse w payload = inr result ->
  analyzeVideoFrames w frames = reconcile frames result.
Proof.
  intros Hkey Hcall Hne Hparse. unfold analyzeVideoFrames, getClient.
  rewrite Hkey. simpl. rewrite Hcall. simpl.
  destruct payload; [congruence|]. rewrite Hparse. reflexivity.
Qed.

End AppFacts.

Module AppClaims.

Import JS GeminiService VideoUtils App Spec AppFacts Samples.

(** C8. When the remote call returns no text, or an empty one,
    [analyzeVideoFrames] throws and returns no result; with an API key set
    the exception is the Error "AI 未返回结果".  [processProject] then puts
    the project in the [error] state with a non-empty message, the frames
    already captured, and the result it had before: nothing of the
    analysis is stored. *)
Theorem empty_response_fails
        (w : World) (frames : list FrameData.t) (response_text : option string) :
  generateContent w (contentParts frames) = inr response_text ->
  falsy response_text = true ->
  (exists e, analyzeVideoFrames w frames = inl e)
  /\ (falsy (API_KEY w) = false ->
      analyzeVideoFrames w frames = inl (Error "AI 未返回结果"))
  /\ (forall (context : bool) (projectId : string) (file : VideoFile)
             (projects : list Project.t),
        extractFramesFromVideo context file 120 = Resolved frames ->
        exists msg,
          msg <> EmptyString
          /\ processProject w context projectId file projects
             = failed_store projectId frames msg projects).
Proof.
  intros Hcall Hfalsy.
  assert (Hkey : falsy (API_KEY w) = false ->
                 analyzeVideoFrames w frames = inl (Error "AI 未返回结果")).
  { intros Hk. unfold analyzeVideoFrames, getClient. rewrite Hk. simpl.
    rewrite Hcall. simpl. destruct response_text as [[|c t]|];
      [reflexivity | discriminate | reflexivity]. }
  assert (Hthrows : exists e, analyzeVideoFrames w frames = inl e).
  { destruct (falsy (API_KEY w)) eqn:Hk.
    - eexists. unfold analyzeVideoFrames, getClient. rewrite Hk. reflexivity.
    - eexists. apply Hkey. reflexivity. }
  split; [exact Hthrows|]. split; [exact Hkey|].
  intros context projectId file projects Hs. destruct Hthrows as [e He].
  exists (error_message e). split; [apply error_message_nonempty|].
  apply processProject_analysis_fails; assumption.
Qed.

Lemma empty_response_fails_witness :
  falsy None = true
  /\ analyzeVideoFrames silent_world ten_frames = inl (Error "AI 未返回结果").
Proof.
  split; [reflexivity|].
  apply (empty_response_fails silent_world ten_frames None eq_refl eq_refl).
  reflexivity.
Defined.

(** C10. With an empty frame sequence and a non-empty parsed timeline,
    the clamp of the first entry evaluates to -1, [frames[-1]] is
    undefined, and reading its [timeOffset] throws: [reconcile] and
    [analyzeVideoFrames] fail with that TypeError instead of returning a
    result.  [processProject] passes the empty sequence of the sampler to
    the analysis unchecked, and the project ends in the [error] state with
    the TypeError's message. *)
Theorem empty_frames_break_reconcile
        (w : World) (context : bool) (projectId : string) (file : VideoFile)
        (projects : list Project.t) (payload : string)
        (result : AnalysisResult.t) (item : TimelineItem.t)
        (rest : list TimelineItem.t) :
  extractFramesFromVideo context file 120 = Resolved [] ->
  falsy (API_KEY w) = false ->
  generateContent w (contentParts []) = inr (Some payload) ->
  payload <> EmptyString ->
  JSON_parse w payload = inr result ->
  AnalysisResult.timeline result = item :: rest ->
  safeIndex [] item = -1
  /\ index (@nil FrameData.t) (-1) = None
  /\ reconcile [] result = inl (read_of_undefined "timeOffset")
  /\ analyzeVideoFrames w [] = inl (read_of_undefined "timeOffset")
  /\ processProject w context projectId file projects
     = failed_store projectId []
         "Cannot read properties of undefined (reading 'timeOffset')" projects.
Proof.
  intros Hs Hkey Hcall Hne Hparse Htl.
  assert (Hi : safeIndex [] item = -1) by (unfold safeIndex; simpl; lia).
  assert (Hr : reconcile [] result = inl (read_of_undefined "timeOffset")).
  { unfold reconcile. rewrite Htl.
    rewrite (array_map_throws (processItem []) item rest (read_of_undefined "timeOffset")).
    - reflexivity.
    - unfold processItem. rewrite Hi. reflexivity. }
  assert (Ha : analyzeVideoFrames w [] = inl (read_of_undefined "timeOffset"))
    by (rewrite (analyze_with_payload w [] payload result); assumption).
  repeat split; try assumption.
  rewrite (processProject_analysis_fails w context projectId file projects [] _ Hs Ha).
  reflexivity.
Qed.

Lemma empty_frames_break_reconcile_witness :
  extractFramesFromVideo true video_0s 120 = Resolved []
  /\ processProject answering_world true "p1" video_0s [new_project "p1" video_0s]
     = [failed_project []
          "Cannot read properties of undefined (reading 'timeOffset')"
          (new_project "p1" video_0s)].
Proof.
  assert (E : extractFramesFromVideo true video_0s 120 = Resolved [])
    by (vm_compute; reflexivity).
  split; [exact E|].
  destruct (empty_frames_break_reconcile answering_world true "p1" video_0s
              [new_project "p1" video_0s] "{}" raw_result
              (raw_event 999 "00:07")
              [raw_event (-3) "00:01"; raw_event 4 "00:02"]
              E eq_refl eq_refl ltac:(discriminate) eq_refl eq_refl)
    as [_ [_ [_ [_ H]]]].
  rewrite H. reflexivity.
Defined.

End AppClaims.


(** * Further properties of the reconciliation step *)

Module ReconcileExtras.

Import JS GeminiService Spec ReconcileFacts Samples.

Lemma processItem_inr (frames : list FrameData.t) (raw ev : TimelineItem.t) :
  processItem frames raw = inr ev -> already_reconciled frames ev.
Proof.
  unfold processItem. destruct (index frames (safeIndex frames raw)) as [frame|] eqn:E;
    [|discriminate].
  intros H. injection H as <-. unfold already_reconciled. simpl. split.
  - apply (index_Some_range frames _ frame E).
  - exists frame. split; [exact E | reflexivity].
Qed.

Lemma array_map_inr (frames : list FrameData.t) :
  forall (raws evs : list TimelineItem.t),
    array_map (processItem frames) raws = inr evs ->
    Forall (already_reconciled frames) evs /\ List.length evs = List.length raws.
Proof.
  induction raws as [|raw raws IH]; intros evs; simpl.
  - intros H. injection H as <-. split; [constructor | reflexivity].
  - destruct (processItem frames raw) as [e|ev] eqn:E; [discriminate|]. simpl.
    destruct (array_map (processItem frames) raws) as [e|evs'] eqn:E'; [discriminate|].
    simpl. intros H. injection H as <-.
    destruct (IH evs' eq_refl) as [Hall Hlen]. split.
    + constructor; [apply (processItem_inr frames raw ev E) | exact Hall].
    + simpl. rewrite Hlen. reflexivity.
Qed.

Lemma processItem_empty (raw : TimelineItem.t) :
  processItem [] raw = inl (read_of_undefined "timeOffset").
Proof.
  unfold processItem.
  assert (Hs : safeIndex [] raw = -1) by (unfold safeIndex; simpl; lia).
  rewrite Hs. reflexivity.
Qed.

Lemma reconcile_inr_resolved
      (frames : list FrameData.t) (result out : AnalysisResult.t) :
  reconcile frames result = inr out ->
  Forall (already_reconciled frames) (AnalysisResult.timeline out).
Proof.
  unfold reconcile.
  destruct (array_map (processItem frames) (AnalysisResult.timeline result))
    as [e|tl] eqn:E; [discriminate|].
  simpl. intros H. injection H as <-. simpl. apply (array_map_inr frames _ _ E).
Qed.

(** X2. Whatever the frame sequence, a result the reconciliation step
    returns has as many events as the parsed timeline, every event refers to
    an existing frame and carries its time, and reconciling that result
    again returns it unchanged. *)
Theorem reconcile_output_resolved
        (frames : list FrameData.t) (result out : AnalysisResult.t) :
  reconcile frames result = inr out ->
  Forall (already_reconciled frames) (AnalysisResult.timeline out)
  /\ List.length (AnalysisResult.timeline out)
     = List.length (AnalysisResult.timeline result)
  /\ reconcile frames out = inr out.
Proof.
  unfold reconcile at 1.
  destruct (array_map (processItem frames) (AnalysisResult.timeline result))
    as [e|tl] eqn:E; [discriminate|].
  simpl. intros H. injection H as <-. simpl.
  destruct (array_map_inr frames _ _ E) as [Hall Hlen].
  split; [exact Hall|]. split; [exact Hlen|].
  apply reconcile_fixpoint. exact Hall.
Qed.

Lemma reconcile_output_resolved_witness :
  exists out,
    reconcile ten_frames raw_result = inr out
    /\ reconcile ten_frames out = inr out.
Proof.
  destruct (reconcile_ok ten_frames raw_result ltac:(discriminate)) as [tl [E _]].
  eexists. split; [exact E|].
  apply (reconcile_output_resolved ten_frames raw_result _ E).
Defined.

(** X3. The clamp is the nearest valid index: on a non-empty frame sequence
    [safeIndex] is a valid index, it is the raw index when that one is
    valid, no valid index is closer to the raw index, and a larger raw index
    never gives a smaller clamped one. *)
Theorem safeIndex_nearest (frames : list FrameData.t) (item : TimelineItem.t) :
  frames <> [] ->
  let n := Z.of_nat (List.length frames) in
  let raw := TimelineItem.bestFrameIndex item in
  0 <= safeIndex frames item <= n - 1
  /\ (0 <= raw <= n - 1 -> safeIndex frames item = raw)
  /\ (forall k, 0 <= k <= n - 1 ->
                Z.abs (safeIndex frames item - raw) <= Z.abs (k - raw))
  /\ (forall item', raw <= TimelineItem.bestFrameIndex item' ->
                    safeIndex frames item <= safeIndex frames item').
Proof.
  intros Hne n raw. pose proof (length_pos frames Hne) as Hn. fold n in Hn.
  unfold safeIndex. fold n. fold raw.
  repeat split; lia.
Qed.

Lemma safeIndex_nearest_witness :
  ten_frames <> []
  /\ 0 <= safeIndex ten_frames (raw_event 999 "00:07") <= 9.
Proof.
  split; [discriminate|].
  apply (safeIndex_nearest ten_frames (raw_event 999 "00:07")). discriminate.
Defined.

End ReconcileExtras.

(** * Further properties of the analysis service *)

Module ServiceExtras.

Import JS GeminiService Spec Samples MoreSamples.

Lemma falsy_Some (payload : string) :
  falsy (Some payload) = false <-> payload <> EmptyString.
Proof. destruct payload; simpl; split; congruence. Qed.

Lemma analyze_inr_reconciled
      (w : World) (frames : list FrameData.t) (out : AnalysisResult.t) :
  analyzeVideoFrames w frames = inr out ->
  exists parsed, reconcile frames parsed = inr out.
Proof.
  unfold analyzeVideoFrames, getClient.
  destruct (falsy (API_KEY w)); [discriminate|]. simpl.
  destruct (generateContent w (contentParts frames)) as [e|[payload|]];
    simpl; try discriminate.
  destruct payload as [|c t]; [discriminate|].
  destruct (JSON_parse w (String c t)) as [e|parsed]; simpl; [discriminate|].
  intros H. exists parsed. exact H.
Qed.

(** X4. [analyzeVideoFrames] returns a result exactly when every stage
    succeeds: an API key is set, the remote call returns a non-empty text,
    the text parses, and the reconciliation of the parsed result against the
    frames returns; the result is then the reconciled one. *)
Theorem analyze_returns_iff
        (w : World) (frames : list FrameData.t) (out : AnalysisResult.t) :
  analyzeVideoFrames w frames = inr out
  <-> falsy (API_KEY w) = false
      /\ exists payload result,
          generateContent w (contentParts frames) = inr (Some payload)
          /\ payload <> EmptyString
          /\ JSON_parse w payload = inr result
          /\ reconcile frames result = inr out.
Proof.
  unfold analyzeVideoFrames, getClient. split.
  - destruct (falsy (API_KEY w)); [discriminate|]. simpl.
    destruct (generateContent w (contentParts frames)) as [e|[payload|]];
      simpl; try discriminate.
    destruct payload as [|c t]; [discriminate|].
    destruct (JSON_parse w (String c t)) as [e|result] eqn:Hparse;
      simpl; [discriminate|].
    intros Hr. split; [reflexivity|].
    exists (String c t), result. repeat split; try assumption. discriminate.
  - intros [Hkey [payload [result [Hcall [Hne [Hparse Hr]]]]]].
    rewrite Hkey. simpl. rewrite Hcall. simpl.
    destruct payload; [congruence|]. rewrite Hparse. exact Hr.
Qed.

(** X5. [analyzeVideoFrames] throws in five cases only, and each time the
    exception of the first failing stage: the Error of the missing API key;
    the exception of the remote call, unchanged; the Error "AI 未返回结果"
    for an absent or empty text; the exception of [JSON.parse], unchanged;
    the TypeError of the reconciliation step. *)
Theorem analyze_throws_iff
        (w : World) (frames : list FrameData.t) (e : Exception) :
  analyzeVideoFrames w frames = inl e
  <-> (falsy (API_KEY w) = true /\ e = Error "环境变量中未找到 API Key")
      \/ (falsy (API_KEY w) = false
          /\ (generateContent w (contentParts frames) = inl e
              \/ (exists response_text,
                     generateContent w (contentParts frames) = inr response_text
                     /\ falsy response_text = true
                     /\ e = Error "AI 未返回结果")
              \/ (exists payload,
                     generateContent w (contentParts frames) = inr (Some payload)
                     /\ payload <> EmptyString
                     /\ (JSON_parse w payload = inl e
                         \/ exists result,
                             JSON_parse w payload = inr result
                             /\ reconcile frames result = inl e)))).
Proof.
  unfold analyzeVideoFrames, getClient. split.
  - destruct (falsy (API_KEY w)); simpl.
    { intros H. injection H as <-. left. split; reflexivity. }
    intros H. right. split; [reflexivity|].
    destruct (generateContent w (contentParts frames)) as [e'|[payload|]] eqn:Hcall;
      simpl in H.
    + left. injection H as <-. reflexivity.
    + destruct payload as [|c t].
      * injection H as <-. right. left. exists (Some EmptyString).
        repeat split; reflexivity.
      * right. right. exists (String c t). split; [reflexivity|].
        split; [discriminate|].
        destruct (JSON_parse w (String c t)) as [e'|result]; simpl in H.
        -- left. injection H as <-. reflexivity.
        -- right. exists result. split; [reflexivity | exact H].
    + injection H as <-. right. left. exists None. repeat split; reflexivity.
  - intros [[Hkey ->]|[Hkey [Hcall|[[t [Hcall [Hf ->]]]|[payload [Hcall [Hne Hrest]]]]]]];
      rewrite Hkey; simpl; try reflexivity; rewrite Hcall; simpl; try reflexivity.
    + destruct t as [[|c t]|]; [reflexivity | discriminate | reflexivity].
    + destruct payload as [|c t]; [congruence|].
      destruct Hrest as [Hparse|[result [Hparse Hr]]]; rewrite Hparse; simpl;
        [reflexivity | exact Hr].
Qed.

(** X6. The request holds the instruction text followed by one JPEG part
    per frame, in the order of the frames: part k+1 carries the [base64] of
    frame k, the position that [bestFrameIndex] refers to.  Nothing else of
    a frame is sent: two frame sequences with the same [base64] payloads
    give the same request. *)
Theorem contentParts_order (frames : list FrameData.t) :
  List.length (contentParts frames) = S (List.length frames)
  /\ nth_error (contentParts frames) 0 = Some (text instruction)
  /\ (forall k,
        nth_error (contentParts frames) (S k)
        = option_map (fun frame => inlineData "image/jpeg" (FrameData.base64 frame))
                     (nth_error frames k))
  /\ (forall frames',
        map FrameData.base64 frames' = map FrameData.base64 frames ->
        contentParts frames' = contentParts frames).
Proof.
  unfold contentParts. split; [simpl; rewrite length_map; reflexivity|].
  split; [reflexivity|]. split.
  - intros k. simpl. apply nth_error_map.
  - intros frames' H. f_equal.
    rewrite <- (map_map FrameData.base64 (inlineData "image/jpeg") frames').
    rewrite <- (map_map FrameData.base64 (inlineData "image/jpeg") frames).
    rewrite H. reflexivity.
Qed.

End ServiceExtras.

(** * Further properties of the project store *)

Module StoreFacts.

Import JS GeminiService VideoUtils App AppView Spec Store.

Lemma spread_id (p : Project.t) (u : Updates.t) :
  Project.id (spread p u) = Project.id p.
Proof. reflexivity. Qed.

Lemma spread_all_id (us : list Updates.t) :
  forall p, Project.id (fold_left spread us p) = Project.id p.
Proof.
  induction us as [|u us IH]; intros p; simpl; [reflexivity|].
  rewrite IH. apply spread_id.
Qed.

Lemma updateProject_on_id (id : string) (u : Updates.t) (ps : list Project.t) :
  updateProject id u ps = on_id id (fun p => spread p u) ps.
Proof. reflexivity. Qed.

Lemma on_id_compose (id : string) (f g : Project.t -> Project.t) (ps : list Project.t) :
  (forall p, Project.id (f p) = Project.id p) ->
  on_id id g (on_id id f ps) = on_id id (fun p => g (f p)) ps.
Proof.
  intros Hf. unfold on_id. rewrite map_map. apply map_ext. intros p.
  destruct (String.eqb (Project.id p) id) eqn:E.
  - rewrite Hf, E. reflexivity.
  - rewrite E. reflexivity.
Qed.

Lemma updates_on_id (id : string) (us : list Updates.t) :
  forall ps,
    fold_left (fun ps u => updateProject id u ps) us ps
    = on_id id (fold_left spread us) ps.
Proof.
  induction us as [|u us IH]; intros ps; simpl.
  - unfold on_id. rewrite <- (map_id ps) at 1. apply map_ext. intros p.
    destruct (String.eqb (Project.id p) id); reflexivity.
  - rewrite IH, updateProject_on_id, on_id_compose; [reflexivity|].
    intros p. apply spread_id.
Qed.

(** [processProject] acts on the projects with the given id only, and on
    each of them in the same way. *)
Lemma processProject_on_id (w : World) (context : bool) (projectId : string)
      (file : VideoFile) (projects : list Project.t) :
  processProject w context projectId file projects
  = on_id projectId (processed w context file) projects.
Proof.
  unfold processed. rewrite <- updates_on_id.
  unfold processProject, pipeline, fail, updateProjectStatus.
  destruct (extractFramesFromVideo context file 120) as [|frames|err]; simpl;
    try reflexivity.
  destruct (analyzeVideoFrames w frames); reflexivity.
Qed.

Lemma processed_id (w : World) (context : bool) (file : VideoFile) (p : Project.t) :
  Project.id (processed w context file p) = Project.id p.
Proof. apply spread_all_id. Qed.

Lemma on_id_ids (id : string) (f : Project.t -> Project.t) (ps : list Project.t) :
  (forall p, Project.id (f p) = Project.id p) ->
  map Project.id (on_id id f ps) = map Project.id ps.
Proof.
  intros Hf. unfold on_id. rewrite map_map. apply map_ext. intros p.
  destruct (String.eqb (Project.id p) id); [apply Hf | reflexivity].
Qed.

Lemma on_id_absent (id : string) (f : Project.t -> Project.t) (ps : list Project.t) :
  ~ In id (map Project.id ps) -> on_id id f ps = ps.
Proof.
  intros Hnot. unfold on_id. rewrite <- (map_id ps) at 2. apply map_ext_in.
  intros p Hp. destruct (String.eqb_spec (Project.id p) id) as [E|_]; [|reflexivity].
  elim Hnot. rewrite <- E. apply in_map. exact Hp.
Qed.

Lemma on_id_commute (id1 id2 : string) (f g : Project.t -> Project.t)
      (ps : list Project.t) :
  id1 <> id2 ->
  (forall p, Project.id (f p) = Project.id p) ->
  (forall p, Project.id (g p) = Project.id p) ->
  on_id id1 f (on_id id2 g ps) = on_id id2 g (on_id id1 f ps).
Proof.
  intros Hne Hf Hg. unfold on_id. rewrite !map_map. apply map_ext. intros p.
  destruct (String.eqb_spec (Project.id p) id1) as [E1|N1];
    destruct (String.eqb_spec (Project.id p) id2) as [E2|N2].
  - congruence.
  - rewrite Hf. destruct (String.eqb_spec (Project.id p) id2); [congruence|].
    destruct (String.eqb_spec (Project.id p) id1); [reflexivity | congruence].
  - rewrite Hg. destruct (String.eqb_spec (Project.id p) id1); [congruence|].
    destruct (String.eqb_spec (Project.id p) id2); [reflexivity | congruence].
  - destruct (String.eqb_spec (Project.id p) id1); [congruence|].
    destruct (String.eqb_spec (Project.id p) id2); [congruence | reflexivity].
Qed.

(** The sampler's promise is settled, whatever the file. *)
Lemma sampler_never_pending (context : bool) (file : VideoFile) (n : nat) :
  extractFramesFromVideo context file n <> Pending.
Proof.
  destruct context.
  - destruct (loadedmetadata file) as [m|] eqn:Hload.
    + apply (SamplerFacts.sampler_settles file m n Hload).
    + unfold extractFramesFromVideo, extractFramesFromVideo_steps.
      rewrite Hload. discriminate.
  - discriminate.
Qed.

End StoreFacts.

Module StoreExtras.

Import JS GeminiService App AppView Spec Store StoreFacts Samples MoreSamples.

(** X7. [processProject] keeps the number, the order and the ids of the
    projects, and leaves every project with another id exactly as it was:
    the failure or success of one project never changes another one. *)
Theorem processProject_touches_one_id
        (w : World) (context : bool) (projectId : string) (file : VideoUtils.VideoFile)
        (projects : list Project.t) :
  let after := processProject w context projectId file projects in
  map Project.id after = map Project.id projects
  /\ List.length after = List.length projects
  /\ (forall k p, nth_error projects k = Some p -> Project.id p <> projectId ->
                  nth_error after k = Some p).
Proof.
  intros after. unfold after. rewrite processProject_on_id.
  split; [apply on_id_ids; apply processed_id|].
  split; [unfold on_id; apply length_map|].
  intros k p Hk Hne. unfold on_id. rewrite nth_error_map, Hk. simpl.
  destruct (String.eqb_spec (Project.id p) projectId); [congruence | reflexivity].
Qed.

(** X8. The pipelines of two projects with different ids commute: the store
    is the same whichever of them is run first. *)
Theorem processProject_commute
        (w1 w2 : World) (c1 c2 : bool) (id1 id2 : string) (f1 f2 : VideoUtils.VideoFile)
        (projects : list Project.t) :
  id1 <> id2 ->
  processProject w1 c1 id1 f1 (processProject w2 c2 id2 f2 projects)
  = processProject w2 c2 id2 f2 (processProject w1 c1 id1 f1 projects).
Proof.
  intros Hne. rewrite !processProject_on_id.
  apply on_id_commute; [exact Hne | apply processed_id | apply processed_id].
Qed.

Lemma processProject_commute_witness :
  "p1"%string <> "p2"%string
  /\ processProject silent_world true "p1" video_0s
       (processProject answering_world true "p2" video_0s
          [new_project "p1" video_0s; new_project "p2" video_0s])
     = processProject answering_world true "p2" video_0s
         (processProject silent_world true "p1" video_0s
            [new_project "p1" video_0s; new_project "p2" video_0s]).
Proof.
  split; [discriminate|].
  apply (processProject_commute silent_world answering_world true true "p1" "p2").
  discriminate.
Defined.

(** The three ways [processProject] leaves a project. *)
Lemma processed_cases (w : World) (context : bool) (file : VideoUtils.VideoFile) (p : Project.t) :
  (exists err,
      VideoUtils.extractFramesFromVideo context file 120 = VideoUtils.Rejected err
      /\ processed w context file p
         = spread p (Updates.mk None (Some error) None None (Some (error_message err))))
  \/ (exists frames err,
         VideoUtils.extractFramesFromVideo context file 120 = VideoUtils.Resolved frames
         /\ analyzeVideoFrames w frames = inl err
         /\ processed w context file p = failed_project frames (error_message err) p)
  \/ (exists frames result,
         VideoUtils.extractFramesFromVideo context file 120 = VideoUtils.Resolved frames
         /\ analyzeVideoFrames w frames = inr result
         /\ processed w context file p
            = spread p (Updates.mk None (Some done) (Some frames) (Some result) None)).
Proof.
  unfold processed, pipeline.
  destruct (VideoUtils.extractFramesFromVideo context file 120) as [|frames|err] eqn:Hs.
  - elim (sampler_never_pending context file 120 Hs).
  - right. destruct (analyzeVideoFrames w frames) as [err|result] eqn:Ha.
    + left. exists frames, err. split; [reflexivity | split; [exact Ha | reflexivity]].
    + right. exists frames, result.
      split; [reflexivity | split; [exact Ha | reflexivity]].
  - left. exists err. split; reflexivity.
Qed.

Lemma processed_settled (w : World) (context : bool) (file : VideoUtils.VideoFile) (p : Project.t) :
  settled (processed w context file p)
  /\ (Project.status (processed w context file p) = done ->
      Project.result (processed w context file p) <> None).
Proof.
  destruct (processed_cases w context file p)
    as [[err [_ ->]]|[[frames [err [_ [_ ->]]]]|[frames [result [_ [_ ->]]]]]];
    unfold settled; simpl; split; auto; discriminate.
Qed.


Lemma deleteProject_keeps (id : string) (st : State) (p : Project.t) :
  In p (projects (deleteProject id st))
  <-> In p (projects st) /\ Project.id p <> id.
Proof.
  unfold deleteProject. simpl. rewrite filter_In.
  destruct (String.eqb_spec (Project.id p) id); simpl; split; intros [H1 H2];
    split; congruence.
Qed.

Lemma deleted_id_absent (id : string) (st : State) :
  ~ In id (map Project.id (projects (deleteProject id st))).
Proof.
  intros H. apply in_map_iff in H. destruct H as [p [E Hp]].
  apply deleteProject_keeps in Hp. destruct Hp as [_ Hne]. congruence.
Qed.

Lemma filter_idem {A} (f : A -> bool) (l : list A) :
  filter f (filter f l) = filter f l.
Proof.
  induction l as [|a l IH]; simpl; [reflexivity|].
  destruct (f a) eqn:E; simpl; [rewrite E, IH; reflexivity | exact IH].
Qed.

Lemma find_some_pred {A} (f : A -> bool) (l : list A) (a : A) :
  find f l = Some a -> In a l /\ f a = true.
Proof. apply find_some. Qed.

(** X10. [deleteProject] removes every project with the given id and keeps
    the others, in their order; it clears the selection exactly when the
    deleted project was selected; after it the overlay never shows a project
    with that id; and every later step of that project's pipeline leaves the
    store unchanged. *)
Theorem deleteProject_cancels (id : string) (st : State) :
  let st' := deleteProject id st in
  (forall p, In p (projects st') <-> In p (projects st) /\ Project.id p <> id)
  /\ projects st' = filter (fun p => negb (String.eqb (Project.id p) id)) (projects st)
  /\ (selectedProjectId st = Some id -> selectedProjectId st' = None)
  /\ (selectedProjectId st <> Some id -> selectedProjectId st' = selectedProjectId st)
  /\ (forall p r, overlay st' = Some (p, r) -> Project.id p <> id)
  /\ (forall u, updateProject id u (projects st') = projects st')
  /\ (forall w context file,
         processProject w context id file (projects st') = projects st')
  /\ deleteProject id st' = st'.
Proof.
  intros st'.
  assert (Hsel : selectedProjectId st <> Some id ->
                 selectedProjectId st' = selectedProjectId st).
  { intros Hne. unfold st', deleteProject. simpl.
    destruct (selectedProjectId st) as [s|]; simpl; [|reflexivity].
    destruct (String.eqb_spec s id); [congruence | reflexivity]. }
  assert (Habs : forall f, on_id id f (projects st') = projects st')
    by (intros f; apply on_id_absent; apply deleted_id_absent).
  split; [intros p; apply deleteProject_keeps|].
  split; [reflexivity|].
  split; [intros E; unfold st', deleteProject; simpl; rewrite E; simpl;
          rewrite String.eqb_refl; reflexivity|].
  split; [exact Hsel|].
  split; [|split; [|split]].
  - intros p r Ho. unfold overlay, selectedProject in Ho.
    destruct (find _ (projects st')) as [q|] eqn:Ef; [|discriminate].
    destruct (Project.result q); [|discriminate]. injection Ho as <- _.
    apply find_some_pred in Ef. destruct Ef as [Hin _].
    apply deleteProject_keeps in Hin. apply Hin.
  - intros u. rewrite updateProject_on_id. apply Habs.
  - intros w context file. rewrite processProject_on_id. apply Habs.
  - unfold st', deleteProject. simpl. f_equal.
    + apply filter_idem.
    + destruct (same_selection (selectedProjectId st) id) eqn:E; simpl;
        [reflexivity | rewrite E; reflexivity].
Qed.

Lemma on_id_done_has_result (id : string) (f : Project.t -> Project.t)
      (ps : list Project.t) :
  (forall p, (Project.status p = done -> Project.result p <> None) ->
             Project.status (f p) = done -> Project.result (f p) <> None) ->
  done_has_result ps -> done_has_result (on_id id f ps).
Proof.
  intros Hf Hps. unfold done_has_result, on_id in *. apply Forall_map.
  eapply Forall_impl; [|exact Hps]. intros p Hp. simpl.
  destruct (String.eqb (Project.id p) id); [apply Hf; exact Hp | exact Hp].
Qed.

(** What the pipelines started by one upload do to a project. *)
Lemma uploads_on_store (w : World) (context : bool) (news : list Project.t) :
  exists G : Project.t -> Project.t,
    (forall ps,
        fold_left (fun ps p => processProject w context (Project.id p) (Project.file p) ps)
                  news ps
        = map G ps)
    /\ (forall p, Project.id (G p) = Project.id p)
    /\ (forall p, ~ In (Project.id p) (map Project.id news) -> G p = p)
    /\ (forall p, In (Project.id p) (map Project.id news) -> settled (G p))
    /\ (forall p, (Project.status p = done -> Project.result p <> None) ->
                  Project.status (G p) = done -> Project.result (G p) <> None).
Proof.
  induction news as [|n news [G [Hfold [Hid [Hout [Hin Hinv]]]]]].
  - exists (fun p => p). simpl. repeat split; try tauto.
    intros ps. symmetry. apply map_id.
  - set (g := fun p => if String.eqb (Project.id p) (Project.id n)
                       then processed w context (Project.file n) p else p).
    assert (Hg : forall p, Project.id (g p) = Project.id p).
    { intros p. unfold g. destruct (String.eqb (Project.id p) (Project.id n));
        [apply processed_id | reflexivity]. }
    exists (fun p => G (g p)). split; [|split; [|split; [|split]]].
    + intros ps. simpl. rewrite Hfold, processProject_on_id. unfold on_id.
      rewrite map_map. reflexivity.
    + intros p. rewrite Hid. apply Hg.
    + intros p Hnot. simpl in Hnot.
      assert (Egp : g p = p).
      { unfold g. destruct (String.eqb_spec (Project.id p) (Project.id n)) as [E|_];
          [|reflexivity]. elim Hnot. left. symmetry. exact E. }
      rewrite Egp. apply Hout. tauto.
    + intros p Hp. simpl in Hp.
      destruct (in_dec string_dec (Project.id p) (map Project.id news)) as [Hr|Hr].
      * apply Hin. rewrite Hg. exact Hr.
      * rewrite Hout by (rewrite Hg; exact Hr).
        destruct Hp as [E|Hp]; [|contradiction].
        unfold g. rewrite <- E, String.eqb_refl. apply processed_settled.
    + intros p Hp. apply Hinv. unfold g.
      destruct (String.eqb (Project.id p) (Project.id n)); [|exact Hp].
      apply processed_settled.
Qed.

Lemma processed_started (w : World) (context : bool) (file : VideoUtils.VideoFile)
      (p : Project.t) :
  Project.status (processed w context file p) <> idle.
Proof.
  unfold processed, pipeline.
  destruct (VideoUtils.extractFramesFromVideo context file 120) as [|frames|err];
    [simpl; discriminate | | simpl; discriminate].
  destruct (analyzeVideoFrames w frames); simpl; discriminate.
Qed.

(** What the pipelines started by one upload do to the status of a
    project. *)
Lemma uploads_started (w : World) (context : bool) (news : list Project.t) :
  exists G : Project.t -> Project.t,
    (forall ps,
        fold_left (fun ps p => processProject w context (Project.id p) (Project.file p) ps)
                  news ps
        = map G ps)
    /\ (forall p, Project.id (G p) = Project.id p)
    /\ (forall p, ~ In (Project.id p) (map Project.id news) -> G p = p)
    /\ (forall p, In (Project.id p) (map Project.id news) -> Project.status (G p) <> idle).
Proof.
  induction news as [|n news [G [Hfold [Hid [Hout Hin]]]]].
  - exists (fun p => p). simpl. repeat split; try tauto.
    intros ps. symmetry. apply map_id.
  - set (g := fun p => if String.eqb (Project.id p) (Project.id n)
                       then processed w context (Project.file n) p else p).
    assert (Hg : forall p, Project.id (g p) = Project.id p).
    { intros p. unfold g. destruct (String.eqb (Project.id p) (Project.id n));
        [apply processed_id | reflexivity]. }
    exists (fun p => G (g p)). split; [|split; [|split]].
    + intros ps. simpl. rewrite Hfold, processProject_on_id. unfold on_id.
      rewrite map_map. reflexivity.
    + intros p. rewrite Hid. apply Hg.
    + intros p Hnot. simpl in Hnot.
      assert (Egp : g p = p).
      { unfold g. destruct (String.eqb_spec (Project.id p) (Project.id n)) as [E|_];
          [|reflexivity]. elim Hnot. left. symmetry. exact E. }
      rewrite Egp. apply Hout. tauto.
    + intros p Hp. simpl in Hp.
      destruct (in_dec string_dec (Project.id p) (map Project.id news)) as [Hr|Hr].
      * apply Hin. rewrite Hg. exact Hr.
      * rewrite Hout by (rewrite Hg; exact Hr).
        destruct Hp as [E|Hp]; [|contradiction].
        unfold g. rewrite <- E, String.eqb_refl. apply processed_started.
Qed.

(** X11. [handleFileChange] appends one project per uploaded file, with the
    ids the browser supplied, in the order of the files; when these ids are
    not those of existing projects, the existing projects are left exactly
    as they were; and no new project is left [idle]: the pipeline of each
    has been started. *)
Theorem handleFileChange_appends
        (w : World) (context : bool) (files : list Upload) (prev : list Project.t) :
  let after := handleFileChange w context files prev in
  map Project.id after = (map Project.id prev ++ map uuid files)%list
  /\ ((forall u, In u files -> ~ In (uuid u) (map Project.id prev)) ->
      firstn (List.length prev) after = prev)
  /\ (forall q, In q (skipn (List.length prev) after) -> Project.status q <> idle).
Proof.
  intros after. unfold after, handleFileChange.
  destruct (uploads_started w context (map newProject files))
    as [G [Hfold [Hid [Hout Hin]]]].
  rewrite Hfold, map_app.
  assert (Hids : map Project.id (map newProject files) = map uuid files)
    by (rewrite map_map; reflexivity).
  assert (Hlen : List.length (map G prev) = List.length prev) by apply length_map.
  split; [|split].
  - rewrite map_app, !map_map. f_equal.
    + apply map_ext. intros p. apply Hid.
    + apply map_ext. intros u. rewrite Hid. reflexivity.
  - intros Hfresh. rewrite <- Hlen, firstn_app, firstn_all, Nat.sub_diag. simpl.
    rewrite app_nil_r. rewrite <- (map_id prev) at 2. apply map_ext_in.
    intros p Hp. apply Hout. rewrite Hids. intros Hu.
    apply in_map_iff in Hu. destruct Hu as [u [E Hu]].
    apply (Hfresh u Hu). rewrite E. apply in_map. exact Hp.
  - rewrite <- Hlen, skipn_app, skipn_all, Nat.sub_diag. simpl.
    intros q Hq. apply in_map_iff in Hq. destruct Hq as [p [<- Hp]].
    apply Hin. apply in_map. exact Hp.
Qed.

Lemma find_unique (ps : list Project.t) (p : Project.t) :
  NoDup (map Project.id ps) -> In p ps ->
  find (fun q => String.eqb (Project.id p) (Project.id q)) ps = Some p.
Proof.
  induction ps as [|a ps IH]; intros Hnd Hin; [contradiction|].
  simpl in *. inversion Hnd as [|? ? Hnot Hnd']; subst.
  destruct Hin as [->|Hin]; [rewrite String.eqb_refl; reflexivity|].
  destruct (String.eqb_spec (Project.id p) (Project.id a)) as [E|_].
  - elim Hnot. rewrite <- E. apply in_map. exact Hin.
  - apply IH; assumption.
Qed.

(** X12. The store keeps a result for every [done] project: this holds of
    the store after [processProject], [deleteProject], a rename, a saved
    edit and an upload when it held before.  With it, and ids that are all
    different, the click on the card of a [done] project always opens the
    overlay on that project and its result. *)
Theorem done_projects_have_results (projects : list Project.t) :
  done_has_result projects ->
  (forall w context projectId file,
      done_has_result (processProject w context projectId file projects))
  /\ (forall id selected,
         done_has_result (AppView.projects (deleteProject id (mkState projects selected))))
  /\ (forall id newName, done_has_result (handleRenameProject id newName projects))
  /\ (forall id newResult, done_has_result (handleUpdateResult id newResult projects))
  /\ (forall w context files, done_has_result (handleFileChange w context files projects))
  /\ (forall selected p,
         NoDup (map Project.id projects) -> In p projects -> Project.status p = done ->
         exists r, Project.result p = Some r
                   /\ overlay (onClick p (mkState projects selected)) = Some (p, r)).
Proof.
  intros Hinv. split; [|split; [|split; [|split; [|split]]]].
  - intros w context projectId file. rewrite processProject_on_id.
    apply on_id_done_has_result; [|exact Hinv].
    intros p _. apply processed_settled.
  - intros id selected. unfold done_has_result in *. simpl.
    apply Forall_forall. intros p Hp. apply filter_In in Hp.
    rewrite Forall_forall in Hinv. apply Hinv. apply Hp.
  - intros id newName. unfold handleRenameProject. rewrite updateProject_on_id.
    apply on_id_done_has_result; [|exact Hinv]. intros p Hp. exact Hp.
  - intros id newResult. unfold handleUpdateResult. rewrite updateProject_on_id.
    apply on_id_done_has_result; [|exact Hinv]. intros p _ _. discriminate.
  - intros w context files. unfold handleFileChange.
    destruct (uploads_on_store w context (map newProject files))
      as [G [Hfold [_ [_ [_ HG]]]]].
    rewrite Hfold. unfold done_has_result in *. apply Forall_map.
    apply Forall_app. split.
    + eapply Forall_impl; [|exact Hinv]. intros p Hp. apply HG. exact Hp.
    + apply Forall_map. apply Forall_forall. intros u _. apply HG.
      simpl. discriminate.
  - intros selected p Hnd Hin Hdone.
    unfold done_has_result in Hinv. rewrite Forall_forall in Hinv.
    destruct (Project.result p) as [r|] eqn:Er; [|elim (Hinv p Hin Hdone Er)].
    exists r. split; [reflexivity|].
    unfold onClick. rewrite Hdone. unfold overlay, selectedProject. simpl.
    rewrite (find_unique projects p Hnd Hin), Er. reflexivity.
Qed.

Lemma done_projects_have_results_witness :
  done_has_result [new_project "p1" video_0s]
  /\ done_has_result
       (processProject answering_world true "p1" video_0s [new_project "p1" video_0s]).
Proof.
  assert (H : done_has_result [new_project "p1" video_0s])
    by (repeat constructor; discriminate).
  split; [exact H|].
  apply (done_projects_have_results [new_project "p1" video_0s] H).
Defined.

End StoreExtras.

(** * Further properties of what the overlay computes *)

Module ViewFacts.

Import JS AppView.

Lemma existsb_eqb (x : string) (seen : list string) :
  existsb (String.eqb x) seen = true <-> In x seen.
Proof.
  rewrite existsb_exists. split.
  - intros [y [Hy E]]. apply String.eqb_eq in E. subst. exact Hy.
  - intros H. exists x. split; [exact H | apply String.eqb_refl].
Qed.

Lemma fold_step_In (xs : list string) :
  forall seen y, In y (fold_left Set_add xs seen) <-> In y seen \/ In y xs.
Proof.
  induction xs as [|x xs IH]; intros seen y; simpl; [tauto|].
  rewrite IH. unfold Set_add. destruct (existsb (String.eqb x) seen) eqn:E.
  - apply existsb_eqb in E. split; [tauto|]. intros [H|[<-|H]]; tauto.
  - rewrite in_app_iff. simpl. tauto.
Qed.

Lemma fold_step_NoDup (xs : list string) :
  forall seen, NoDup seen -> NoDup (fold_left Set_add xs seen).
Proof.
  induction xs as [|x xs IH]; intros seen Hnd; simpl; [exact Hnd|].
  apply IH. unfold Set_add. destruct (existsb (String.eqb x) seen) eqn:E; [exact Hnd|].
  apply NoDup_app; [exact Hnd | repeat constructor; simpl; tauto|].
  intros y Hy [<-|[]]. apply existsb_eqb in Hy. congruence.
Qed.

Lemma fold_step_length (xs : list string) :
  forall seen,
    (List.length (fold_left Set_add xs seen) <= List.length seen + List.length xs)%nat.
Proof.
  induction xs as [|x xs IH]; intros seen; simpl; [lia|].
  specialize (IH (Set_add seen x)). unfold Set_add in *.
  destruct (existsb (String.eqb x) seen); [lia|].
  rewrite length_app in IH. simpl in IH. lia.
Qed.

Lemma Set_from_In (xs : list string) (y : string) : In y (Set_from xs) <-> In y xs.
Proof. unfold Set_from. rewrite (fold_step_In xs [] y). simpl. tauto. Qed.

Lemma Set_from_NoDup (xs : list string) : NoDup (Set_from xs).
Proof. apply fold_step_NoDup. constructor. Qed.

Lemma Set_from_length (xs : list string) :
  (List.length (Set_from xs) <= List.length xs)%nat.
Proof. apply (fold_step_length xs []). Qed.

Lemma Set_from_snoc (xs : list string) (x : string) :
  Set_from (xs ++ [x])
  = if existsb (String.eqb x) (Set_from xs) then Set_from xs
    else (Set_from xs ++ [x])%list.
Proof. unfold Set_from. rewrite fold_left_app. reflexivity. Qed.

Lemma locations_of_In (p : TimelineItem.t -> bool) (ts : list TimelineItem.t) (l : string) :
  In l (locations_of (filter p ts))
  <-> exists t, In t ts /\ p t = true /\ TimelineItem.location t = Some l.
Proof.
  unfold locations_of. rewrite in_flat_map. split.
  - intros [t [Ht Hl]]. apply filter_In in Ht. destruct Ht as [Ht Hp].
    exists t. destruct (TimelineItem.location t) as [l'|]; [|contradiction].
    destruct Hl as [->|[]]. repeat split; assumption.
  - intros [t [Ht [Hp El]]]. exists t. split; [apply filter_In; split; assumption|].
    rewrite El. left. reflexivity.
Qed.

Lemma locations_of_app (ts1 ts2 : list TimelineItem.t) :
  locations_of (ts1 ++ ts2) = (locations_of ts1 ++ locations_of ts2)%list.
Proof. unfold locations_of. apply flat_map_app. Qed.

Lemma locations_of_length (ts : list TimelineItem.t) :
  (List.length (locations_of ts) <= List.length ts)%nat.
Proof.
  induction ts as [|t ts IH]; simpl; [lia|].
  rewrite length_app. destruct (TimelineItem.location t); simpl; lia.
Qed.

Lemma filter_length_le {A} (f : A -> bool) (l : list A) :
  (List.length (filter f l) <= List.length l)%nat.
Proof. induction l as [|a l IH]; simpl; [lia|]. destruct (f a); simpl; lia. Qed.

Lemma prefix_iff (needle s : string) :
  String.prefix needle s = true <-> exists post, s = (needle ++ post)%string.
Proof.
  revert s. induction needle as [|c needle IH]; intros s.
  - split; [intros _; exists s; reflexivity | intros _; destruct s; reflexivity].
  - destruct s as [|d s]; simpl;
      [split; [discriminate | intros [post H]; discriminate]|].
    destruct (Ascii.ascii_dec c d) as [->|Hne].
    + rewrite IH. split; intros [post H]; exists post; congruence.
    + split; [discriminate | intros [post H]; congruence].
Qed.

(** [includes] is the test of a contiguous occurrence. *)
Lemma includes_iff (needle s : string) :
  includes needle s = true
  <-> exists pre post, s = (pre ++ needle ++ post)%string.
Proof.
  induction s as [|c s IH].
  - destruct needle as [|d needle]; simpl.
    + split; [intros _; exists EmptyString, EmptyString; reflexivity | reflexivity].
    + split; [discriminate|]. intros [pre [post H]]. destruct pre; discriminate.
  - cbn [includes]. rewrite orb_true_iff, prefix_iff, IH. split.
    + intros [[post H]|[pre [post H]]].
      * exists EmptyString, post. exact H.
      * exists (String c pre), post. simpl. rewrite H. reflexivity.
    + intros [pre [post H]]. destruct pre as [|d pre].
      * left. exists post. exact H.
      * right. simpl in H. injection H as _ H. exists pre, post. exact H.
Qed.

End ViewFacts.

Module ViewExtras.

Import JS AppView ViewFacts MoreSamples.

(** X13. [allShops] lists each place once: a location is listed exactly
    when some entry of the timeline has it and it is neither empty nor the
    placeholder "未知地点"; there are at most as many shops as entries.  The
    order is that of first appearance: an entry added at the end of the
    timeline adds its location at the end of the list when it is a shop not
    listed yet, and changes nothing otherwise. *)
Theorem allShops_unique (timeline : list TimelineItem.t) :
  NoDup (allShops timeline)
  /\ (forall l,
        In l (allShops timeline)
        <-> l <> EmptyString /\ l <> "未知地点"%string
            /\ exists t, In t timeline /\ TimelineItem.location t = Some l)
  /\ (List.length (allShops timeline) <= List.length timeline)%nat
  /\ (forall t,
        allShops (timeline ++ [t])
        = match TimelineItem.location t with
          | Some l =>
              if is_shop t && negb (existsb (String.eqb l) (allShops timeline))
              then (allShops timeline ++ [l])%list
              else allShops timeline
          | None => allShops timeline
          end).
Proof.
  unfold allShops. split; [apply Set_from_NoDup|]. split; [|split].
  - intros l. rewrite Set_from_In, locations_of_In. split.
    + intros [t [Ht [Hp El]]]. unfold is_shop in Hp. rewrite El in Hp.
      apply andb_true_iff in Hp. destruct Hp as [H1 H2].
      apply negb_true_iff in H1, H2. apply String.eqb_neq in H1, H2.
      repeat split; try assumption. exists t. split; assumption.
    + intros [H1 [H2 [t [Ht El]]]]. exists t. repeat split; try assumption.
      unfold is_shop. rewrite El.
      apply String.eqb_neq in H1, H2. rewrite H1, H2. reflexivity.
  - etransitivity; [apply Set_from_length|].
    etransitivity; [apply locations_of_length | apply filter_length_le].
  - intros t. rewrite filter_app, locations_of_app. simpl filter.
    destruct (TimelineItem.location t) as [l|] eqn:El.
    + destruct (is_shop t) eqn:Es; simpl.
      * unfold locations_of at 2. simpl. rewrite El. simpl.
        rewrite Set_from_snoc. destruct (existsb (String.eqb l) _); reflexivity.
      * rewrite app_nil_r. reflexivity.
    + assert (Es : is_shop t = false) by (unfold is_shop; rewrite El; reflexivity).
      rewrite Es. simpl. rewrite app_nil_r. reflexivity.
Qed.

Lemma foodCount_from (timeline : list TimelineItem.t) :
  forall acc,
    fold_left (fun acc i => (acc + match TimelineItem.foodItems i with
                                   | Some items => List.length items
                                   | None => 0
                                   end)%nat) timeline acc
    = (acc + List.length (flat_map Store.items_of timeline))%nat.
Proof.
  induction timeline as [|t timeline IH]; intros acc; simpl; [lia|].
  rewrite IH, length_app. unfold Store.items_of at 2.
  destruct (TimelineItem.foodItems t); simpl; lia.
Qed.

(** X14. The food statistic is the number of food items of the whole
    timeline, an entry without the field counting for none: it is additive
    over a timeline made of two parts, and it is 0 exactly when no entry
    lists an item. *)
Theorem foodCount_total (timeline : list TimelineItem.t) :
  foodCount timeline = List.length (flat_map Store.items_of timeline)
  /\ (forall more, foodCount (timeline ++ more) = (foodCount timeline + foodCount more)%nat)
  /\ (foodCount timeline = 0%nat
      <-> forall t, In t timeline -> Store.items_of t = []).
Proof.
  assert (H : forall tl, foodCount tl = List.length (flat_map Store.items_of tl))
    by (intros tl; unfold foodCount; rewrite foodCount_from; reflexivity).
  split; [apply H|]. split.
  - intros more. rewrite !H, flat_map_app, length_app. reflexivity.
  - rewrite H. split.
    + intros H0 t Ht. apply length_zero_iff_nil in H0.
      destruct (Store.items_of t) as [|x xs] eqn:E; [reflexivity|].
      assert (Hx : In x (flat_map Store.items_of timeline)).
      { apply in_flat_map. exists t. split; [exact Ht|]. rewrite E. left. reflexivity. }
      rewrite H0 in Hx. contradiction.
    + intros Hall. apply length_zero_iff_nil.
      induction timeline as [|t timeline IH]; simpl; [reflexivity|].
      rewrite (Hall t (or_introl eq_refl)). simpl.
      apply IH. intros t' Ht'. apply Hall. right. exact Ht'.
Qed.

Lemma looks_real_shop (t : TimelineItem.t) : is_stop t = true -> is_shop t = true.
Proof.
  unfold is_stop, is_shop, looks_real.
  destruct (TimelineItem.location t) as [l|]; [|discriminate].
  intros H. apply andb_true_iff in H. destruct H as [H H4].
  apply andb_true_iff in H. destruct H as [H H3].
  apply andb_true_iff in H. destruct H as [H1 H2].
  rewrite H1. simpl. apply negb_true_iff.
  destruct (String.eqb_spec l "未知地点") as [->|_]; [|reflexivity].
  vm_compute in H3. discriminate.
Qed.

(** X15. The stops of the route are the locations that pass the filter of
    [handleOpenRoute], each once: a stop has more than one UTF-16 code unit,
    contains neither "未知" nor "Unknown", and is one of the shops of the
    same timeline.  The handler raises the alert "未找到有效地点" exactly when
    no entry passes the filter, and otherwise opens, in a new tab, the
    directions URL made of the encoded stops joined by "/". *)
Theorem route_stops (encodeURIComponent : string -> string)
        (timeline : list TimelineItem.t) :
  let stops := uniqueLocations timeline in
  NoDup stops
  /\ (forall l,
        In l stops
        <-> looks_real l = true
            /\ exists t, In t timeline /\ TimelineItem.location t = Some l)
  /\ (forall l,
        In l stops ->
        (1 < js_length l)%nat
        /\ (forall pre post, l <> (pre ++ "未知" ++ post)%string)
        /\ (forall pre post, l <> (pre ++ "Unknown" ++ post)%string)
        /\ In l (allShops timeline))
  /\ (handleOpenRoute encodeURIComponent timeline = alert "未找到有效地点"
      <-> forall t, In t timeline -> is_stop t = false)
  /\ (stops <> [] ->
      handleOpenRoute encodeURIComponent timeline
      = window_open ("https://www.google.com/maps/dir/"
                       ++ String.concat "/" (map encodeURIComponent stops))%string
                    "_blank").
Proof.
  intros stops.
  assert (Hin : forall l,
             In l stops
             <-> looks_real l = true
                 /\ exists t, In t timeline /\ TimelineItem.location t = Some l).
  { intros l. unfold stops, uniqueLocations. rewrite Set_from_In, locations_of_In. split.
    - intros [t [Ht [Hp El]]]. unfold is_stop in Hp. rewrite El in Hp.
      split; [exact Hp|]. exists t. split; assumption.
    - intros [Hp [t [Ht El]]]. exists t. repeat split; try assumption.
      unfold is_stop. rewrite El. exact Hp. }
  split; [apply Set_from_NoDup|]. split; [exact Hin|]. split; [|split].
  - intros l Hl. apply Hin in Hl. destruct Hl as [Hp [t [Ht El]]].
    assert (Hshop : In l (allShops timeline)).
    { unfold allShops. rewrite Set_from_In, locations_of_In. exists t.
      repeat split; try assumption. apply looks_real_shop.
      unfold is_stop. rewrite El. exact Hp. }
    unfold looks_real in Hp.
    apply andb_true_iff in Hp. destruct Hp as [Hp H4].
    apply andb_true_iff in Hp. destruct Hp as [Hp H3].
    apply andb_true_iff in Hp. destruct Hp as [H1 H2].
    split; [apply Nat.ltb_lt; exact H2|].
    split; [|split; [|exact Hshop]].
    + intros pre post E. apply negb_true_iff in H3.
      assert (includes "未知" l = true) by (apply includes_iff; exists pre, post; exact E).
      congruence.
    + intros pre post E. apply negb_true_iff in H4.
      assert (includes "Unknown" l = true) by (apply includes_iff; exists pre, post; exact E).
      congruence.
  - unfold handleOpenRoute. fold stops. split.
    + intros H t Ht. destruct (is_stop t) eqn:Es; [|reflexivity].
      destruct stops as [|l ls] eqn:E; [|discriminate].
      unfold is_stop in Es. destruct (TimelineItem.location t) as [l|] eqn:El;
        [|discriminate].
      assert (Hl : In l []) by (apply Hin; split; [exact Es|]; exists t; split; assumption).
      contradiction.
    + intros Hnone. destruct stops as [|l ls] eqn:E; [reflexivity|].
      assert (Hl : In l (l :: ls)) by (left; reflexivity).
      apply Hin in Hl. destruct Hl as [Hp [t [Ht El]]].
      specialize (Hnone t Ht). unfold is_stop in Hnone. rewrite El in Hnone. congruence.
  - intros Hne. unfold handleOpenRoute. fold stops.
    destruct stops; [congruence | reflexivity].
Qed.

Lemma route_stops_witness :
  uniqueLocations walk <> []
  /\ handleOpenRoute (fun l => l) walk
     = window_open "https://www.google.com/maps/dir/Cafe A/Cafe B" "_blank".
Proof.
  assert (Hne : uniqueLocations walk <> []) by (vm_compute; discriminate).
  split; [exact Hne|].
  destruct (route_stops (fun l => l) walk) as [_ [_ [_ [_ H]]]].
  rewrite (H Hne). vm_compute. reflexivity.
Defined.

End ViewExtras.

(** * Properties of [formatTime] *)

Module FormatExtras.

Import JS Format.

Local Open Scope Q_scope.

Lemma Qfloor_unique (x : Q) (z : Z) :
  inject_Z z <= x -> x < inject_Z (z + 1) -> Qfloor x = z.
Proof.
  intros Hlo Hhi.
  pose proof (Qfloor_le x) as H1. pose proof (Qlt_floor x) as H2.
  assert (Ha : inject_Z (Qfloor x) < inject_Z (z + 1)) by lra.
  assert (Hb : inject_Z z < inject_Z (Qfloor x + 1)) by lra.
  rewrite <- Zlt_Qlt in Ha, Hb. lia.
Qed.

Lemma two_digits_upto (n : nat) :
  forallb (fun k => String.eqb (padStart 2 "0" (toString (Z.of_nat k)))
                      (String (digit (Z.of_nat k / 10))
                              (String (digit (Z.of_nat k mod 10)) EmptyString)))
          (seq 0 n) = true ->
  forall s, (0 <= s < Z.of_nat n)%Z ->
    padStart 2 "0" (toString s)
    = String (digit (s / 10)) (String (digit (s mod 10)) EmptyString).
Proof.
  intros Hall s Hs. rewrite forallb_forall in Hall.
  specialize (Hall (Z.to_nat s)). rewrite Z2Nat.id in Hall by lia.
  apply String.eqb_eq. apply Hall. apply in_seq. lia.
Qed.

Lemma two_digits (s : Z) :
  (0 <= s <= 59)%Z ->
  padStart 2 "0" (toString s)
  = String (digit (s / 10)) (String (digit (s mod 10)) EmptyString).
Proof.
  intros Hs. apply (two_digits_upto 60); [vm_compute; reflexivity | lia].
Qed.

(** X16. For a time that is not negative, [formatTime] shows the whole
    minutes, a colon, and the seconds on exactly two digits: the minutes are
    not negative, the seconds lie between 0 and 59, and 60 * minutes +
    seconds is the number of whole seconds of the time. *)
Theorem formatTime_minutes_seconds (seconds : Q) :
  0 <= seconds ->
  let m := Qfloor (seconds / 60) in
  let s := Qfloor (rem seconds 60) in
  (0 <= m)%Z
  /\ (0 <= s <= 59)%Z
  /\ (60 * m + s = Qfloor seconds)%Z
  /\ formatTime seconds
     = (toString m ++ ":"
        ++ String (digit (s / 10)) (String (digit (s mod 10)) EmptyString))%string.
Proof.
  intros Hpos m s.
  assert (Hdiv : 0 <= seconds / 60)
    by (apply Qle_shift_div_l; [reflexivity | lra]).
  assert (Hm0 : (0 <= m)%Z).
  { unfold m. change 0%Z with (Qfloor (inject_Z 0)). apply Qfloor_resp_le. exact Hdiv. }
  assert (Htrunc : Qtruncate (seconds / 60) = m).
  { unfold Qtruncate. apply Qle_bool_iff in Hdiv. rewrite Hdiv. reflexivity. }
  pose proof (Qfloor_le (seconds / 60)) as Hlo. fold m in Hlo.
  pose proof (Qlt_floor (seconds / 60)) as Hhi. fold m in Hhi.
  rewrite inject_Z_plus in Hhi. change (inject_Z 1) with 1 in Hhi.
  assert (Hsec : seconds == 60 * (seconds / 60)) by (field).
  assert (H60 : inject_Z (60 * m) == 60 * inject_Z m)
    by (rewrite inject_Z_mult; reflexivity).
  assert (Hs : s = (Qfloor seconds - 60 * m)%Z).
  { assert (Hsub : inject_Z (Qfloor seconds - 60 * m)
                   == inject_Z (Qfloor seconds) - 60 * inject_Z m).
    { unfold Z.sub. rewrite inject_Z_plus, inject_Z_opp, H60. reflexivity. }
    unfold s, rem. rewrite Htrunc. apply Qfloor_unique.
    - rewrite Hsub. pose proof (Qfloor_le seconds). lra.
    - rewrite inject_Z_plus, Hsub. change (inject_Z 1) with 1.
      pose proof (Qlt_floor seconds) as H. rewrite inject_Z_plus in H.
      change (inject_Z 1) with 1 in H. lra. }
  assert (Hfl : (60 * m <= Qfloor seconds < 60 * m + 60)%Z).
  { split.
    - rewrite <- (Qfloor_Z (60 * m)). apply Qfloor_resp_le. rewrite H60. lra.
    - assert (Hlt : inject_Z (Qfloor seconds) < inject_Z (60 * m + 60)).
      { pose proof (Qfloor_le seconds). rewrite inject_Z_plus, H60.
        change (inject_Z 60) with 60. lra. }
      rewrite <- Zlt_Qlt in Hlt. exact Hlt. }
  assert (Hs59 : (0 <= s <= 59)%Z) by lia.
  split; [exact Hm0|]. split; [exact Hs59|]. split; [lia|].
  unfold formatTime. fold m. fold s. rewrite (two_digits s Hs59). reflexivity.
Qed.

Lemma formatTime_minutes_seconds_witness :
  0 <= 125 # 2 /\ formatTime (125 # 2) = "1:02"%string.
Proof.
  split; [discriminate|].
  destruct (formatTime_minutes_seconds (125 # 2) ltac:(discriminate)) as [_ [_ [_ H]]].
  rewrite H. vm_compute. reflexivity.
Defined.

(** Before time 0 the two fields are rounded apart: one second before 0 is
    shown as minus one minute and minus one second. *)
Example formatTime_negative : formatTime (-1) = "-1:-1"%string.
Proof. vm_compute. reflexivity. Qed.

End FormatExtras.

(** * Further properties of the sampler: the schedule of the captures *)

Module ScheduleFacts.

Import JS VideoUtils Spec SamplerFacts Schedule.

Local Open Scope Q_scope.

Lemma time_at_grid (i : Q) (k : nat) : time_at i k == Qnat k * i.
Proof.
  induction k as [|k IH].
  - unfold Qnat. change (inject_Z (Z.of_nat 0)) with 0. simpl. ring.
  - simpl time_at. rewrite IH, Qnat_S. ring.
Qed.

Lemma captures_prefix (decoder : nat -> SeekResult) (i : Q) (k n : nat) :
  exists rest, captures decoder i (k + n) = (captures decoder i k ++ rest)%list.
Proof.
  induction n as [|n [rest IH]].
  - exists []. rewrite Nat.add_0_r, app_nil_r. reflexivity.
  - exists (rest ++ capture_of decoder i (k + n))%list.
    rewrite Nat.add_succ_r. simpl. rewrite IH, app_assoc. reflexivity.
Qed.

Section Run.

Variables (decoder : nat -> SeekResult) (m : Metadata) (targetFrameCount : nat).

Abbreviation i := (Qmax (1 # 2) (duration m / Qnat targetFrameCount)).
Abbreviation done_at := (Schedule.done_at decoder m targetFrameCount i).

Abbreviation waiting := (Schedule.waiting decoder m targetFrameCount i).

Lemma waiting_start : waiting 0 (on_loadedmetadata targetFrameCount m).
Proof.
  constructor; try reflexivity.
  intros Hn. apply sampling_interval_finite. exact Hn.
Qed.

Lemma finished_done_at (k : nat) (st : State) :
  waiting k st -> (finished targetFrameCount st = true <-> done_at k).
Proof.
  intros W. unfold finished, Schedule.done_at.
  rewrite (w_video _ _ _ _ _ _ W), (w_time _ _ _ _ _ _ W), (w_frames _ _ _ _ _ _ W).
  rewrite orb_true_iff, Qle_bool_iff, Nat.leb_le. reflexivity.
Qed.

Lemma not_done_target (k : nat) : ~ done_at k -> targetFrameCount <> 0%nat.
Proof. intros H ->. apply H. right. lia. Qed.

Lemma waiting_step (k : nat) (st : State) (base64 : string) (blob : option Blob) :
  waiting k st -> decoder k = seeked base64 blob -> ~ done_at k ->
  waiting (S k) (captureFrame targetFrameCount base64 blob st).
Proof.
  intros W Hk Hnot.
  assert (Hf : finished targetFrameCount st = false).
  { destruct (finished targetFrameCount st) eqn:E; [|reflexivity].
    elim Hnot. apply (finished_done_at k st W). exact E. }
  pose proof (w_interval _ _ _ _ _ _ W (not_done_target k Hnot)) as Hi.
  unfold captureFrame. rewrite Hf.
  assert (Hcap : captures decoder i (S k)
                 = frames (push_frame base64 blob st)).
  { simpl. unfold capture_of. rewrite Hk.
    destruct blob as [b|]; simpl.
    - rewrite (w_frames _ _ _ _ _ _ W), (w_time _ _ _ _ _ _ W). reflexivity.
    - rewrite (w_frames _ _ _ _ _ _ W), app_nil_r. reflexivity. }
  unfold seek_next.
  assert (Hint : interval (push_frame base64 blob st) = Fin i)
    by (destruct blob; exact Hi).
  assert (Hct : currentTime (push_frame base64 blob st) = time_at i k)
    by (destruct blob; apply (w_time _ _ _ _ _ _ W)).
  rewrite Hint, Hct. simpl.
  constructor; simpl.
  - destruct blob; apply (w_video _ _ _ _ _ _ W).
  - reflexivity.
  - destruct blob; apply (w_promise _ _ _ _ _ _ W).
  - reflexivity.
  - symmetry. exact Hcap.
  - intros _. reflexivity.
  - destruct blob; apply (w_revoked _ _ _ _ _ _ W).
Qed.

Lemma waiting_resolve (k : nat) (st : State) (base64 : string) (blob : option Blob) :
  waiting k st -> done_at k ->
  let st' := captureFrame targetFrameCount base64 blob st in
  seeking st' = false
  /\ promise st' = Resolved (captures decoder i k)
  /\ revoked st' = true.
Proof.
  intros W Hd. apply (finished_done_at k st W) in Hd.
  unfold captureFrame. rewrite Hd. simpl.
  rewrite (w_promise _ _ _ _ _ _ W), (w_frames _ _ _ _ _ _ W). repeat split.
Qed.

(** How a run that waits for the k-th answer goes on. *)
Lemma run_schedule (fuel : nat) :
  forall (k : nat) (st : State),
    waiting k st ->
    let st' := run decoder targetFrameCount fuel k st in
    seeking st' = true
    \/ (exists K, (k <= K)%nat
                  /\ promise st' = Resolved (captures decoder i K)
                  /\ revoked st' = true
                  /\ done_at K
                  /\ (forall j, (k <= j < K)%nat -> ~ done_at j)
                  /\ (forall j, (k <= j <= K)%nat -> decoder j <> error))
    \/ (exists E, (k <= E)%nat
                  /\ promise st' = Rejected (Error "视频加载失败，请检查文件格式")
                  /\ revoked st' = false
                  /\ decoder E = error
                  /\ (forall j, (k <= j < E)%nat -> ~ done_at j /\ decoder j <> error)).
Proof.
  induction fuel as [|fuel IH]; intros k st W; simpl.
  - left. apply (w_seeking _ _ _ _ _ _ W).
  - rewrite (w_seeking _ _ _ _ _ _ W).
    destruct (decoder k) as [base64 blob|] eqn:Hk.
    + destruct (finished targetFrameCount st) eqn:Hf.
      * apply (finished_done_at k st W) in Hf.
        destruct (waiting_resolve k st base64 blob W Hf) as [Hs [Hp Hr]].
        rewrite run_at_rest by exact Hs.
        right. left. exists k. split; [lia|]. split; [exact Hp|].
        split; [exact Hr|]. split; [exact Hf|]. split.
        -- intros j Hj. lia.
        -- intros j Hj. assert (j = k) by lia. subst. congruence.
      * assert (Hnot : ~ done_at k).
        { intros Hd. apply (finished_done_at k st W) in Hd. congruence. }
        pose proof (waiting_step k st base64 blob W Hk Hnot) as W'.
        destruct (IH (S k) _ W')
          as [Hs|[[K [HK [Hp [Hr [Hd [Hbefore Hnoerr]]]]]]|[E [HE [Hp [Hr [Hd Hbefore]]]]]]].
        -- left. exact Hs.
        -- right. left. exists K. split; [lia|]. split; [exact Hp|].
           split; [exact Hr|]. split; [exact Hd|]. split.
           ++ intros j Hj. destruct (Nat.eq_dec j k) as [->|Hne];
                [exact Hnot | apply Hbefore; lia].
           ++ intros j Hj. destruct (Nat.eq_dec j k) as [->|Hne];
                [congruence | apply Hnoerr; lia].
        -- right. right. exists E. split; [lia|]. split; [exact Hp|].
           split; [exact Hr|]. split; [exact Hd|].
           intros j Hj. destruct (Nat.eq_dec j k) as [->|Hne];
             [split; [exact Hnot | congruence] | apply Hbefore; lia].
    + right. right. exists k. split; [lia|]. unfold on_error. simpl.
      rewrite (w_promise _ _ _ _ _ _ W), (w_revoked _ _ _ _ _ _ W). simpl.
      split; [reflexivity|]. split; [reflexivity|]. split; [exact Hk|].
      intros j Hj. lia.
Qed.

End Run.

(** The two ways the sampler settles once the metadata has loaded. *)
Lemma sampler_settles_as (videoFile : VideoFile) (m : Metadata) (targetFrameCount : nat) :
  loadedmetadata videoFile = Some m ->
  let i := Qmax (1 # 2) (duration m / Qnat targetFrameCount) in
  let dec := decoder videoFile in
  let st := run dec targetFrameCount (enough videoFile) 0
                (on_loadedmetadata targetFrameCount m) in
  extractFramesFromVideo true videoFile targetFrameCount = promise st
  /\ ((exists K,
          promise st = Resolved (captures dec i K)
          /\ revoked st = true
          /\ Schedule.done_at dec m targetFrameCount i K
          /\ (forall j, (j < K)%nat -> ~ Schedule.done_at dec m targetFrameCount i j)
          /\ (forall j, (j <= K)%nat -> dec j <> error))
      \/ (exists E,
             promise st = Rejected (Error "视频加载失败，请检查文件格式")
             /\ revoked st = false
             /\ dec E = error
             /\ (forall j, (j < E)%nat ->
                           ~ Schedule.done_at dec m targetFrameCount i j
                           /\ dec j <> error))).
Proof.
  intros Hload i dec st.
  split; [rewrite extractFramesFromVideo_unfold; apply (steps_unfold videoFile m _ Hload)|].
  pose proof (enough_rests videoFile m targetFrameCount Hload) as Hrest.
  destruct (run_schedule dec m targetFrameCount (enough videoFile) 0 _
              (waiting_start dec m targetFrameCount))
    as [Hs|[[K [_ [Hp [Hr [Hd [Hb Hn]]]]]]|[E [_ [Hp [Hr [Hd Hb]]]]]]].
  - cbv zeta in Hs. unfold dec in Hs. rewrite Hrest in Hs. discriminate.
  - left. exists K. split; [exact Hp|]. split; [exact Hr|]. split; [exact Hd|].
    split; intros j Hj; [apply Hb | apply Hn]; lia.
  - right. exists E. split; [exact Hp|]. split; [exact Hr|]. split; [exact Hd|].
    intros j Hj. apply Hb. lia.
Qed.

End ScheduleFacts.

Module ScheduleExtras.

Import JS VideoUtils Spec SamplerFacts Schedule ScheduleFacts Samples MoreSamples.

Local Open Scope Q_scope.



(** X20. The first frame is the one of time 0: for a video of positive
    duration and a positive target count whose first capture gives a blob,
    every frame sequence the sampler resolves with starts with that capture,
    at time 0. *)
Theorem sampler_first_frame
        (videoFile : VideoFile) (m : Metadata) (targetFrameCount : nat)
        (base64 : string) (blob : Blob) (fs : list FrameData.t) :
  loadedmetadata videoFile = Some m ->
  0 < duration m ->
  targetFrameCount <> 0%nat ->
  decoder videoFile 0 = seeked base64 (Some blob) ->
  extractFramesFromVideo true videoFile targetFrameCount = Resolved fs ->
  hd_error fs = Some (FrameData.mk 0 base64 blob).
Proof.
  intros Hload Hd Hn H0 Hres.
  destruct (sampler_settles_as videoFile m targetFrameCount Hload)
    as [E [[K [Hp [_ [Hdone _]]]]|[Err [Hp _]]]]; rewrite E, Hp in Hres;
    [|discriminate].
  injection Hres as <-.
  destruct K as [|K].
  - exfalso. unfold done_at in Hdone. simpl in Hdone.
    destruct Hdone as [H|H]; [lra | lia].
  - destruct (captures_prefix (decoder videoFile)
                (Qmax (1 # 2) (duration m / Qnat targetFrameCount)) 1 K) as [rest Hrest].
    simpl Nat.add in Hrest. rewrite Hrest. simpl. unfold capture_of. rewrite H0.
    reflexivity.
Qed.

Lemma sampler_first_frame_witness :
  exists fs,
    extractFramesFromVideo true video_12s 120 = Resolved fs
    /\ hd_error fs = Some (FrameData.mk 0 "" (mkBlob [])).
Proof.
  destruct (sampler_resolves video_12s (mkMetadata 12 1920 1080) 120 eq_refl)
    as [fs E]; [intros k; discriminate|].
  exists fs. split; [exact E|].
  apply (sampler_first_frame video_12s (mkMetadata 12 1920 1080) 120 "" (mkBlob []) fs
           eq_refl eq_refl ltac:(discriminate) eq_refl E).
Defined.



End ScheduleExtras.

(** * The food input: what is shown and what is stored *)

Module FoodExtras.

Import JS AppView ViewFacts MoreSamples.

Lemma split_comma_nonempty (s : string) : split_comma s <> [].
Proof.
  induction s as [|c s IH]; simpl; [discriminate|].
  destruct (Ascii.eqb c ","); [discriminate|].
  destruct (split_comma s); discriminate.
Qed.

Lemma no_comma_cons (c : ascii) (x : string) :
  includes "," (String c x) = false ->
  Ascii.eqb c "," = false /\ includes "," x = false.
Proof.
  cbn [includes]. intros H. apply orb_false_iff in H. destruct H as [Hp Hx].
  split; [|exact Hx]. destruct (Ascii.eqb_spec c ",") as [->|_]; [|reflexivity].
  simpl in Hp. destruct x; discriminate.
Qed.

Lemma no_comma_app (x y : string) :
  includes "," x = false -> includes "," y = false ->
  includes "," (x ++ y) = false.
Proof.
  intros Hx Hy. destruct (includes "," (x ++ y)) eqn:E; [|reflexivity].
  apply includes_iff in E. destruct E as [pre [post E]].
  revert pre E Hx. induction x as [|c x IH]; intros pre E Hx.
  - simpl in E. assert (includes "," y = true)
      by (apply includes_iff; exists pre, post; exact E). congruence.
  - apply no_comma_cons in Hx. destruct Hx as [Hc Hx].
    destruct pre as [|d pre]; simpl in E; injection E as Ec E.
    + subst c. discriminate.
    + apply (IH pre E Hx).
Qed.

Lemma split_comma_app (x r : string) :
  includes "," x = false ->
  split_comma (x ++ r)
  = match split_comma r with
    | y :: ys => (x ++ y)%string :: ys
    | [] => [x]
    end.
Proof.
  induction x as [|c x IH]; intros Hx; simpl.
  - destruct (split_comma r) eqn:E; [elim (split_comma_nonempty r E) | reflexivity].
  - apply no_comma_cons in Hx. destruct Hx as [Hc Hx]. rewrite Hc, (IH Hx).
    destruct (split_comma r) eqn:E; [elim (split_comma_nonempty r E) | reflexivity].
Qed.

Lemma append_nil_r (s : string) : (s ++ "")%string = s.
Proof. induction s as [|c s IH]; simpl; [reflexivity | rewrite IH; reflexivity]. Qed.

Lemma append_assoc (a b c : string) : ((a ++ b) ++ c)%string = (a ++ (b ++ c))%string.
Proof. induction a as [|x a IH]; simpl; [reflexivity | rewrite IH; reflexivity]. Qed.

Lemma split_comma_plain (x : string) : includes "," x = false -> split_comma x = [x].
Proof.
  intros Hx. rewrite <- (append_nil_r x) at 1. rewrite (split_comma_app x "" Hx).
  simpl. rewrite append_nil_r. reflexivity.
Qed.

(** The pieces of a joined list: the first item, then each other item after
    a space. *)
Lemma split_comma_join (items : list string) :
  Forall (fun x => includes "," x = false) items ->
  forall pre y,
    includes "," pre = false -> includes "," y = false ->
    split_comma (pre ++ String.concat ", " (y :: items))
    = (pre ++ y)%string :: map (String " ") items.
Proof.
  induction 1 as [|z items Hz _ IH]; intros pre y Hpre Hy.
  - simpl. apply split_comma_plain. apply no_comma_app; assumption.
  - change (String.concat ", " (y :: z :: items))
      with (y ++ ", " ++ String.concat ", " (z :: items))%string.
    rewrite <- append_assoc.
    rewrite (split_comma_app (pre ++ y)) by (apply no_comma_app; assumption).
    change (", " ++ String.concat ", " (z :: items))%string
      with (String "," (" " ++ String.concat ", " (z :: items)))%string.
    cbn [split_comma]. simpl Ascii.eqb. cbv iota.
    rewrite (IH " "%string z) by (reflexivity || exact Hz).
    rewrite append_nil_r. reflexivity.
Qed.

Lemma trim_after_space (z : string) : trim (String " " z) = trim z.
Proof. reflexivity. Qed.

(** X22. What the food input stores.  The stored list is never empty:
    clearing the input stores one empty item.  For a list that is not empty,
    whose items contain no comma and no white space at either end, showing
    the list in the input and storing the unchanged text gives the list
    back. *)
Theorem food_input_round_trip :
  (forall value, food_items_of value <> [])
  /\ food_items_of "" = [EmptyString]
  /\ (forall items,
        items <> [] ->
        Forall (fun x => trim x = x /\ includes "," x = false) items ->
        food_items_of (String.concat ", " items) = items)
  /\ (forall item items,
        TimelineItem.foodItems item = Some items ->
        items <> [] ->
        Forall (fun x => trim x = x /\ includes "," x = false) items ->
        exists value, food_value item = Some value /\ food_changed value item = item).
Proof.
  assert (Hround : forall items,
             items <> [] ->
             Forall (fun x => trim x = x /\ includes "," x = false) items ->
             food_items_of (String.concat ", " items) = items).
  { intros [|y items] Hne Hall; [congruence|].
    inversion Hall as [|? ? [Hty Hcy] Hrest]; subst.
    unfold food_items_of.
    assert (Hsplit : split_comma (String.concat ", " (y :: items))
                     = y :: map (String " ") items).
    { apply (split_comma_join items) with (pre := EmptyString).
      - eapply Forall_impl; [|exact Hrest]. intros x Hx. apply Hx.
      - reflexivity.
      - exact Hcy. }
    rewrite Hsplit. simpl. rewrite Hty. f_equal.
    rewrite map_map. rewrite <- (map_id items) at 2. apply map_ext_in.
    intros z Hz. rewrite trim_after_space.
    rewrite Forall_forall in Hrest. apply (Hrest z Hz). }
  split; [|split; [|split]].
  - intros value. unfold food_items_of.
    destruct (split_comma value) eqn:E; [elim (split_comma_nonempty value E)|].
    discriminate.
  - reflexivity.
  - exact Hround.
  - intros item items Hitems Hne Hall. exists (String.concat ", " items).
    unfold food_value. rewrite Hitems. split; [reflexivity|].
    unfold food_changed. rewrite (Hround items Hne Hall), <- Hitems.
    destruct item; reflexivity.
Qed.

Lemma food_input_round_trip_witness :
  food_items_of (String.concat ", " ["latte"%string; "cake"%string])
  = ["latte"%string; "cake"%string].
Proof.
  destruct food_input_round_trip as [_ [_ [H _]]].
  apply H; [discriminate|].
  repeat constructor.
Defined.

End FoodExtras.

(** * The sampler and the analysis together *)

Module PipelineExtras.

Import JS GeminiService Spec SamplerFacts ReconcileFacts Samples.

Local Open Scope Q_scope.

Lemma index_In {A} (arr : list A) (i : Z) (a : A) : index arr i = Some a -> In a arr.
Proof.
  unfold index. destruct (i <? 0)%Z; [discriminate|]. apply nth_error_In.
Qed.

(** X23. The sampler and the analysis compose safely.  When
    [extractFramesFromVideo], asked for 120 frames as [processProject] does,
    resolves and [analyzeVideoFrames] returns a result on these frames,
    there are at most 120 frames, hence at most 121 parts in the request,
    and every event of the result has a valid frame index below 120 and a
    time offset that is not negative and lies before the end of the
    video. *)
Theorem analysis_within_video
        (w : World) (context : bool) (file : VideoUtils.VideoFile)
        (m : VideoUtils.Metadata) (fs : list FrameData.t) (result : AnalysisResult.t) :
  VideoUtils.loadedmetadata file = Some m ->
  VideoUtils.extractFramesFromVideo context file 120 = VideoUtils.Resolved fs ->
  analyzeVideoFrames w fs = inr result ->
  (List.length fs <= 120)%nat
  /\ (List.length (contentParts fs) <= 121)%nat
  /\ Forall (fun ev =>
               (0 <= TimelineItem.bestFrameIndex ev < 120)%Z
               /\ (TimelineItem.bestFrameIndex ev < Z.of_nat (List.length fs))%Z
               /\ exists t, TimelineItem.timeOffset ev = Some t
                            /\ 0 <= t /\ t < VideoUtils.duration m)
            (AnalysisResult.timeline result).
Proof.
  intros Hload Hs Ha.
  rewrite extractFramesFromVideo_unfold in Hs.
  destruct (steps_resolved file m 120 Hload _ _ _ Hs) as [st [I <-]].
  pose proof (at_most_target _ _ _ _ I) as Hlen.
  split; [exact Hlen|].
  split; [unfold contentParts; simpl; rewrite length_map; lia|].
  destruct (ServiceExtras.analyze_inr_reconciled w _ result Ha) as [parsed Hr].
  pose proof (ReconcileExtras.reconcile_inr_resolved _ _ _ Hr) as Hall.
  eapply Forall_impl; [|exact Hall].
  intros ev [Hrange [frame [Hf Ht]]]. split; [lia|]. split; [lia|].
  exists (FrameData.timeOffset frame). split; [exact Ht|].
  assert (Hin : In (FrameData.timeOffset frame)
                   (VideoUtils.timeOffsets (VideoUtils.frames st)))
    by (unfold VideoUtils.timeOffsets; apply in_map; apply (index_In _ _ _ Hf)).
  split.
  - pose proof (frames_on_grid _ _ _ _ I) as Hgrid.
    rewrite Forall_forall in Hgrid. destruct (Hgrid _ Hin) as [j Hj]. rewrite Hj.
    apply Qmult_le_0_compat.
    + unfold VideoUtils.Qnat, Qle. simpl. lia.
    + pose proof (Q.le_max_l (1 # 2) (VideoUtils.duration m / VideoUtils.Qnat 120)). lra.
  - pose proof (before_end _ _ _ _ I) as Hend.
    rewrite Forall_forall in Hend. apply (Hend _ Hin).
Qed.

Lemma analysis_within_video_witness :
  exists fs result,
    VideoUtils.extractFramesFromVideo true video_12s 120 = VideoUtils.Resolved fs
    /\ analyzeVideoFrames answering_world fs = inr result
    /\ (List.length fs <= 120)%nat.
Proof.
  destruct (sampler_resolves video_12s (VideoUtils.mkMetadata 12 1920 1080) 120 eq_refl)
    as [fs E]; [intros k; discriminate|].
  assert (Hne : fs <> []) by (intros ->; revert E; vm_compute; discriminate).
  destruct (reconcile_ok fs raw_result Hne) as [tl [Hr _]].
  destruct (reconcile fs raw_result) as [e|out] eqn:Hout; [discriminate|].
  assert (Ha : analyzeVideoFrames answering_world fs = inr out)
    by (unfold analyzeVideoFrames; simpl; exact Hout).
  exists fs, out. split; [exact E|]. split; [exact Ha|].
  apply (analysis_within_video answering_world true video_12s
           (VideoUtils.mkMetadata 12 1920 1080) fs out eq_refl E Ha).
Defined.

End PipelineExtras.

(** * When the sampler rejects *)

Module ErrorClaims.

Import JS VideoUtils Spec SamplerFacts Schedule ScheduleFacts Samples MoreSamples.

Local Open Scope Q_scope.



End ErrorClaims.

(** * The sampler on doubles: the course of a run *)

Module Sampler64Facts.

Import PrimFloat Binary64 VideoUtils64 Schedule64.

Local Open Scope float_scope.

Lemma run64_S (decoder : nat -> float -> SeekResult) (targetFrameCount fuel k : nat)
      (st : State) :
  run decoder targetFrameCount (S fuel) k st
  = match seek st with
    | Some t =>
        match decoder k t with
        | seeked t' base64 blob =>
            run decoder targetFrameCount fuel (S k)
                (on_seeked targetFrameCount t' base64 blob st)
        | error => on_error st
        end
    | None => st
    end.
Proof. reflexivity. Qed.

(** Once no seek is under way, further events change nothing. *)
Lemma run64_at_rest (decoder : nat -> float -> SeekResult) (targetFrameCount fuel k : nat)
      (st : State) :
  seek st = None -> run decoder targetFrameCount fuel k st = st.
Proof. intros H. destruct fuel; simpl; [|rewrite H]; reflexivity. Qed.

Section Course.

Variables (decoder : nat -> float -> SeekResult) (m : Metadata)
          (targetFrameCount : nat).

Abbreviation i := (sampling_interval m targetFrameCount).
Abbreviation request := (Schedule64.request decoder m targetFrameCount).
Abbreviation answer := (Schedule64.answer decoder m targetFrameCount).
Abbreviation captures := (Schedule64.captures decoder m targetFrameCount).
Abbreviation capture_of := (Schedule64.capture_of decoder m targetFrameCount).
Abbreviation test_at := (Schedule64.test_at decoder m targetFrameCount).
Abbreviation done_at := (Schedule64.done_at decoder m targetFrameCount).
Abbreviation goes_on := (Schedule64.goes_on decoder m targetFrameCount).
Abbreviation stuck_at := (Schedule64.stuck_at decoder m targetFrameCount).
Abbreviation fails_at := (Schedule64.fails_at decoder m targetFrameCount).
Abbreviation waiting := (Schedule64.waiting decoder m targetFrameCount).

Lemma waiting64_start : waiting 0 (on_loadedmetadata targetFrameCount m).
Proof. constructor; reflexivity. Qed.

Lemma captures64_length (k : nat) : (List.length (captures k) <= k)%nat.
Proof.
  induction k as [|k IH]; simpl; [lia|].
  rewrite length_app. unfold Schedule64.capture_of.
  destruct (Schedule64.answer decoder m targetFrameCount k) as [t base64 [b|]|];
    simpl; lia.
Qed.

(** What the [seeked] listener does to a sampler that waits for the k-th
    answer, [t] being the time the element reports. *)
Lemma on_seeked_waiting (k : nat) (st : State) (t : float)
      (base64 : string) (blob : option Blob) :
  waiting k st ->
  let st' := on_seeked targetFrameCount t base64 blob st in
  video st' = m /\ interval st' = i
  /\ if test_at k t
     then promise st' = Resolved (captures k) /\ seek st' = None
          /\ frames st' = captures k /\ revoked st' = true
     else promise st' = Pending
          /\ frames st'
             = captures k ++ match blob with
                             | Some b => [FrameData.mk (to_Q t) base64 b]
                             | None => []
                             end
          /\ seek st' = (if isFinite (t + i) then Some (t + i) else None)
          /\ revoked st' = false.
Proof.
  intros W. destruct W as [Hv Hs Hp Hf Hi Hr].
  destruct st as [v ct sk cw ch fs iv p r]. simpl in Hv, Hs, Hp, Hf, Hi, Hr. subst.
  unfold on_seeked, captureFrame, finished, Schedule64.test_at. simpl.
  destruct (leb (duration m) t || (targetFrameCount <=? List.length (captures k))%nat).
  - simpl. repeat split.
  - destruct blob as [b|]; simpl; repeat split.
    rewrite app_nil_r. reflexivity.
Qed.

Lemma captures64_S (k : nat) (t : float) (base64 : string) (blob : option Blob) :
  answer k = seeked t base64 blob ->
  captures (S k)
  = captures k ++ match blob with
                  | Some b => [FrameData.mk (to_Q t) base64 b]
                  | None => []
                  end.
Proof.
  intros Hk. simpl. unfold Schedule64.capture_of. rewrite Hk.
  destruct blob; reflexivity.
Qed.

Lemma request64_S (k : nat) (t : float) (base64 : string) (blob : option Blob) :
  answer k = seeked t base64 blob -> request (S k) = t + i.
Proof. intros Hk. simpl. unfold Schedule64.answer in Hk. rewrite Hk. reflexivity. Qed.

(** At each seek exactly one of four things happens. *)
Lemma course_cases (k : nat) :
  (goes_on k = true /\ done_at k = false /\ fails_at k = false /\ stuck_at k = false)
  \/ (goes_on k = false /\ done_at k = true /\ fails_at k = false /\ stuck_at k = false)
  \/ (goes_on k = false /\ done_at k = false /\ fails_at k = true /\ stuck_at k = false)
  \/ (goes_on k = false /\ done_at k = false /\ fails_at k = false /\ stuck_at k = true).
Proof.
  unfold Schedule64.goes_on, Schedule64.done_at, Schedule64.fails_at, Schedule64.stuck_at.
  destruct (Schedule64.answer decoder m targetFrameCount k) as [t base64 blob|].
  - destruct (Schedule64.test_at decoder m targetFrameCount k t);
      destruct (isFinite (t + i)); simpl; tauto.
  - tauto.
Qed.

Lemma waiting64_step (k : nat) (st : State) (t : float)
      (base64 : string) (blob : option Blob) :
  waiting k st -> answer k = seeked t base64 blob -> goes_on k = true ->
  waiting (S k) (on_seeked targetFrameCount t base64 blob st).
Proof.
  intros W Hk Hgo. unfold Schedule64.goes_on in Hgo. rewrite Hk in Hgo.
  apply andb_true_iff in Hgo as [Ht Hfin]. apply negb_true_iff in Ht.
  destruct (on_seeked_waiting k st t base64 blob W) as [Hv [Hi H]].
  rewrite Ht in H. destruct H as [Hp [Hf [Hs Hr]]]. rewrite Hfin in Hs.
  constructor; try assumption.
  - rewrite Hs, (request64_S k t base64 blob Hk). reflexivity.
  - rewrite Hf. symmetry. apply (captures64_S k t base64 blob Hk).
Qed.

(** How a run that waits for the k-th answer goes on: after [fuel] events
    it waits for a later answer, or it has resolved at a seek [K], or it has
    been rejected at a seek [K], or it has come to a halt at a seek [K]
    with the promise pending. *)
Lemma run64_course (fuel : nat) :
  forall (k : nat) (st : State),
    waiting k st ->
    let st' := run decoder targetFrameCount fuel k st in
    (waiting (k + fuel) st'
     /\ forall j, (k <= j < k + fuel)%nat -> goes_on j = true)
    \/ exists K, (k <= K < k + fuel)%nat
                 /\ (forall j, (k <= j < K)%nat -> goes_on j = true)
                 /\ seek st' = None
                 /\ ((done_at K = true
                      /\ promise st' = Resolved (captures K)
                      /\ frames st' = captures K
                      /\ revoked st' = true)
                     \/ (fails_at K = true
                         /\ promise st' = Rejected (JS.Error "视频加载失败，请检查文件格式")
                         /\ frames st' = captures K
                         /\ revoked st' = false)
                     \/ (stuck_at K = true
                         /\ promise st' = Pending
                         /\ frames st' = captures (S K)
                         /\ revoked st' = false)).
Proof.
  induction fuel as [|fuel IH]; intros k st W.
  - left. simpl. rewrite Nat.add_0_r. split; [exact W | intros j Hj; lia].
  - cbv zeta. rewrite run64_S, (w_seek _ _ _ _ _ W).
    fold (answer k).
    destruct (answer k) as [t base64 blob|] eqn:Hk.
    + destruct (on_seeked_waiting k st t base64 blob W) as [Hv [Hi H]].
      destruct (test_at k t) eqn:Ht.
      * destruct H as [Hp [Hs [Hf Hr]]].
        rewrite run64_at_rest by exact Hs.
        right. exists k. split; [lia|]. split; [intros j Hj; lia|].
        split; [exact Hs|]. left.
        unfold Schedule64.done_at. rewrite Hk, Ht. repeat split; assumption.
      * destruct H as [Hp [Hf [Hs Hr]]].
        destruct (isFinite (t + i)) eqn:Hfin.
        -- assert (Hgo : goes_on k = true)
             by (unfold Schedule64.goes_on; rewrite Hk, Ht, Hfin; reflexivity).
           pose proof (waiting64_step k st t base64 blob W Hk Hgo) as W'.
           destruct (IH (S k) _ W') as [[W'' Hall]|[K [HK [Hall [Hs' Hout]]]]].
           ++ left. rewrite Nat.add_succ_r. split; [exact W''|].
              intros j Hj. destruct (Nat.eq_dec j k) as [->|Hne];
                [exact Hgo | apply Hall; lia].
           ++ right. exists K. split; [lia|]. split.
              ** intros j Hj. destruct (Nat.eq_dec j k) as [->|Hne];
                   [exact Hgo | apply Hall; lia].
              ** split; assumption.
        -- rewrite run64_at_rest by exact Hs.
           right. exists k. split; [lia|]. split; [intros j Hj; lia|].
           split; [exact Hs|]. right. right.
           unfold Schedule64.stuck_at. rewrite Hk, Ht, Hfin.
           rewrite (captures64_S k t base64 blob Hk). repeat split; assumption.
    + right. exists k. split; [lia|]. split; [intros j Hj; lia|].
      unfold on_error. simpl.
      rewrite (w_promise _ _ _ _ _ W), (w_revoked _ _ _ _ _ W), (w_frames _ _ _ _ _ W).
      split; [reflexivity|]. right. left.
      unfold Schedule64.fails_at. rewrite Hk. repeat split.
Qed.

(** The seek at which a run leaves the loop is determined by the file. *)
Lemma first_stop_unique (K K' : nat) :
  (forall j, (j < K)%nat -> goes_on j = true) -> goes_on K = false ->
  (forall j, (j < K')%nat -> goes_on j = true) -> goes_on K' = false ->
  K = K'.
Proof.
  intros H1 H2 H3 H4. destruct (Nat.lt_trichotomy K K') as [Hlt|[Heq|Hgt]];
    [|exact Heq|].
  - rewrite (H3 K Hlt) in H2. discriminate.
  - rewrite (H1 K' Hgt) in H4. discriminate.
Qed.

(** No frame is captured at a seek whose reported time has reached the
    duration. *)
Lemma captures64_before_end (K : nat) :
  (forall j, (j < K)%nat -> done_at j = false) ->
  Forall (fun f => exists k t,
              (k < K)%nat
              /\ answer k = seeked t (FrameData.base64 f) (Some (FrameData.blob f))
              /\ FrameData.timeOffset f = to_Q t
              /\ leb (duration m) t = false)
         (captures K).
Proof.
  induction K as [|K IH]; intros Hnot; simpl; [constructor|].
  apply Forall_app. split.
  - eapply Forall_impl; [|apply IH; intros j Hj; apply Hnot; lia].
    intros f [k [t [Hk H]]]. exists k, t. split; [lia | exact H].
  - unfold Schedule64.capture_of.
    destruct (answer K) as [t base64 [b|]|] eqn:HK; constructor; [|constructor].
    exists K, t. simpl. split; [lia|]. split; [exact HK|]. split; [reflexivity|].
    specialize (Hnot K (Nat.lt_succ_diag_r K)).
    unfold Schedule64.done_at in Hnot. rewrite HK in Hnot.
    unfold Schedule64.test_at in Hnot. apply orb_false_iff in Hnot. apply Hnot.
Qed.

(** The count of line 34 holds the frames at the target. *)
Lemma captures64_at_most (K : nat) :
  (forall j, (j < K)%nat -> done_at j = false) ->
  (forall j, (j < K)%nat -> fails_at j = false) ->
  (List.length (captures K) <= targetFrameCount)%nat.
Proof.
  destruct K as [|K]; intros Hnot Hans; simpl; [lia|].
  specialize (Hnot K (Nat.lt_succ_diag_r K)).
  specialize (Hans K (Nat.lt_succ_diag_r K)).
  unfold Schedule64.done_at, Schedule64.fails_at in Hnot, Hans.
  rewrite length_app. unfold Schedule64.capture_of.
  destruct (answer K) as [t base64 blob|]; [|discriminate].
  unfold Schedule64.test_at in Hnot. apply orb_false_iff in Hnot as [_ Hn].
  apply Nat.leb_gt in Hn. destruct blob; simpl; lia.
Qed.

Lemma goes_on_not_done (k : nat) : goes_on k = true -> done_at k = false /\ fails_at k = false.
Proof. destruct (course_cases k) as [H|[H|[H|H]]]; intros E; split; try tauto; destruct H as [H _]; congruence. Qed.

End Course.

Section Outcome64.

Variables (videoFile : VideoFile) (m : Metadata) (targetFrameCount : nat).
Hypothesis loaded : loadedmetadata videoFile = Some m.

Abbreviation dec := (decoder videoFile).
Abbreviation extract fuel :=
  (extractFramesFromVideo fuel true videoFile targetFrameCount).

Lemma extract64_unfold (fuel : nat) :
  extract fuel
  = promise (run dec targetFrameCount fuel 0 (on_loadedmetadata targetFrameCount m)).
Proof. unfold extractFramesFromVideo. rewrite loaded. reflexivity. Qed.

Lemma run64_from_start (fuel : nat) :
  let st := run dec targetFrameCount fuel 0 (on_loadedmetadata targetFrameCount m) in
  (Schedule64.waiting dec m targetFrameCount fuel st
   /\ forall j, (j < fuel)%nat -> Schedule64.goes_on dec m targetFrameCount j = true)
  \/ exists K, (K < fuel)%nat
               /\ (forall j, (j < K)%nat -> Schedule64.goes_on dec m targetFrameCount j = true)
               /\ seek st = None
               /\ ((Schedule64.done_at dec m targetFrameCount K = true
                    /\ promise st = Resolved (Schedule64.captures dec m targetFrameCount K)
                    /\ frames st = Schedule64.captures dec m targetFrameCount K
                    /\ revoked st = true)
                   \/ (Schedule64.fails_at dec m targetFrameCount K = true
                       /\ promise st = Rejected (JS.Error "视频加载失败，请检查文件格式")
                       /\ frames st = Schedule64.captures dec m targetFrameCount K
                       /\ revoked st = false)
                   \/ (Schedule64.stuck_at dec m targetFrameCount K = true
                       /\ promise st = Pending
                       /\ frames st = Schedule64.captures dec m targetFrameCount (S K)
                       /\ revoked st = false)).
Proof.
  destruct (run64_course dec m targetFrameCount fuel 0 _
              (waiting64_start dec m targetFrameCount))
    as [[W Hall]|[K [HK [Hall H]]]].
  - left. split; [exact W | intros j Hj; apply Hall; lia].
  - right. exists K. split; [lia|]. split; [intros j Hj; apply Hall; lia | exact H].
Qed.

(** The outcome at the first seek that does not go on. *)
Lemma extract64_at (K more : nat) :
  (forall k, (k < K)%nat -> Schedule64.goes_on dec m targetFrameCount k = true) ->
  Schedule64.goes_on dec m targetFrameCount K = false ->
  let st := run dec targetFrameCount (S K + more)%nat 0 (on_loadedmetadata targetFrameCount m) in
  seek st = None
  /\ ((Schedule64.done_at dec m targetFrameCount K = true
       /\ promise st = Resolved (Schedule64.captures dec m targetFrameCount K)
       /\ frames st = Schedule64.captures dec m targetFrameCount K
       /\ revoked st = true)
      \/ (Schedule64.fails_at dec m targetFrameCount K = true
          /\ promise st = Rejected (JS.Error "视频加载失败，请检查文件格式")
          /\ frames st = Schedule64.captures dec m targetFrameCount K
          /\ revoked st = false)
      \/ (Schedule64.stuck_at dec m targetFrameCount K = true
          /\ promise st = Pending
          /\ frames st = Schedule64.captures dec m targetFrameCount (S K)
          /\ revoked st = false)).
Proof.
  intros Hgo Hstop.
  destruct (run64_from_start (S K + more)%nat) as [[_ Hall]|[K' [HK' [Hall H]]]].
  - rewrite (Hall K) in Hstop by lia. discriminate.
  - assert (Hstop' : Schedule64.goes_on dec m targetFrameCount K' = false).
    { destruct (course_cases dec m targetFrameCount K') as [C|[C|[C|C]]];
        destruct H as [_ [[D _]|[[D _]|[D _]]]]; intuition congruence. }
    assert (K' = K)
      by (apply (first_stop_unique dec m targetFrameCount K' K); assumption).
    subst K'. exact H.
Qed.

Lemma extract64_done (K more : nat) :
  (forall k, (k < K)%nat -> Schedule64.goes_on dec m targetFrameCount k = true) ->
  Schedule64.done_at dec m targetFrameCount K = true ->
  extract (S K + more)%nat = Resolved (Schedule64.captures dec m targetFrameCount K).
Proof.
  intros Hgo Hd. rewrite extract64_unfold.
  destruct (course_cases dec m targetFrameCount K) as [C|[C|[C|C]]];
    try (destruct C as [_ [C _]]; congruence).
  destruct C as [Hstop _].
  destruct (extract64_at K more Hgo Hstop) as [_ [[_ [Hp _]]|[[D _]|[D _]]]].
  - exact Hp.
  - destruct (course_cases dec m targetFrameCount K) as [C|[C|[C|C]]]; intuition congruence.
  - destruct (course_cases dec m targetFrameCount K) as [C|[C|[C|C]]]; intuition congruence.
Qed.

Lemma extract64_resolved (fuel : nat) (fs : list FrameData.t) :
  extract fuel = Resolved fs ->
  exists K, (K < fuel)%nat
            /\ fs = Schedule64.captures dec m targetFrameCount K
            /\ Schedule64.done_at dec m targetFrameCount K = true
            /\ forall k, (k < K)%nat -> Schedule64.goes_on dec m targetFrameCount k = true.
Proof.
  rewrite extract64_unfold. intros E.
  destruct (run64_from_start fuel) as [[W _]|[K [HK [Hall [_ H]]]]].
  - rewrite (w_promise _ _ _ _ _ W) in E. discriminate.
  - destruct H as [[Hd [Hp _]]|[[_ [Hp _]]|[_ [Hp _]]]]; rewrite Hp in E;
      try discriminate.
    injection E as <-. exists K. repeat split; assumption.
Qed.

End Outcome64.

(** The seeks asked of an element that reports the times it is asked
    for. *)
Lemma request_asked (decoder : nat -> float -> SeekResult) (m : Metadata)
      (targetFrameCount : nat) :
  reports_requested (duration m) decoder ->
  forall k,
    (forall j, (j < k)%nat -> Schedule64.fails_at decoder m targetFrameCount j = false) ->
    Schedule64.request decoder m targetFrameCount k
    = asked (duration m) (sampling_interval m targetFrameCount) k.
Proof.
  intros Hrep. induction k as [|k IH]; intros Hans; [reflexivity|].
  simpl. rewrite <- IH by (intros j Hj; apply Hans; lia).
  specialize (Hans k (Nat.lt_succ_diag_r k)). unfold Schedule64.fails_at, Schedule64.answer in Hans.
  destruct (decoder k (Schedule64.request decoder m targetFrameCount k))
    as [t base64 blob|] eqn:Hk; [|discriminate].
  rewrite (Hrep _ _ _ _ _ Hk). reflexivity.
Qed.

End Sampler64Facts.

(** * The sampler on doubles: interval, count and the end of the video *)

Module Sampler64Claims.

Import PrimFloat Binary64 VideoUtils64 Schedule64 Sampler64Facts Samples64.

Local Open Scope float_scope.

Lemma interval_12_120 (w h : N) : sampling_interval (mkMetadata 12 w h) 120 = 0.5.
Proof. vm_compute. reflexivity. Qed.

(** The 25 seeks of the scenario, asked of an element that reports the
    times it is asked for: the first 24 lie before the end and the next one
    is finite, the 25th is at the end. *)
Lemma asked_12 :
  forallb (fun j => negb (leb 12 (clamp 12 (asked 12 0.5 j)))
                    && isFinite (clamp 12 (asked 12 0.5 j) + 0.5))
          (seq 0 24) = true
  /\ leb 12 (clamp 12 (asked 12 0.5 24)) = true
  /\ map (fun j => to_Q (clamp 12 (asked 12 0.5 j))) (seq 0 24)
     = map (fun j => Qred (Z.of_nat j # 2)) (seq 0 24).
Proof. repeat split; vm_compute; reflexivity. Qed.

Lemma captures64_all (decoder : nat -> float -> SeekResult) (m : Metadata)
      (targetFrameCount : nat) :
  reports_requested (duration m) decoder ->
  (forall k t, exists t' base64 blob, decoder k t = seeked t' base64 (Some blob)) ->
  forall K,
    VideoUtils.timeOffsets (captures decoder m targetFrameCount K)
    = map (fun j => to_Q (clamp (duration m)
                                (asked (duration m) (sampling_interval m targetFrameCount) j)))
          (seq 0 K)
    /\ List.length (captures decoder m targetFrameCount K) = K.
Proof.
  intros Hrep Hall.
  assert (Hans : forall j, fails_at decoder m targetFrameCount j = false).
  { intros j. unfold fails_at, answer.
    destruct (Hall j (request decoder m targetFrameCount j)) as [t' [b [blob ->]]].
    reflexivity. }
  induction K as [|K [IHt IHl]]; [split; reflexivity|].
  simpl captures. unfold capture_of, answer.
  destruct (Hall K (request decoder m targetFrameCount K)) as [t' [b [blob HK]]].
  rewrite HK. unfold VideoUtils.timeOffsets in *.
  rewrite map_app, length_app, IHt, IHl, seq_S, map_app. simpl.
  rewrite (Hrep _ _ _ _ _ HK).
  rewrite (request_asked decoder m targetFrameCount Hrep K) by (intros j _; apply Hans).
  split; [reflexivity | lia].
Qed.

(** C4. On doubles, the media element reporting its own time.  The
    interval fixed on [loadedmetadata] is Math.max(0.5, duration /
    targetCount), no frame is held and the first seek asks for time 0.  At
    every [seeked] event, [t] being the time the element reports: when
    t >= duration or the frames have reached the target count, the promise
    resolves with the frames gathered so far; otherwise the frame of that
    seek, stamped with [t], is appended when its encoding gave a blob, and
    the next seek asks for t + interval.  So a run resolves exactly at the
    first seek K at which the test holds, with the frames of the seeks
    before K, and these are at most targetCount.  For 12 seconds and a
    target of 120 the interval is 0.5; with an element that reports the
    times it is asked for, at most 24 frames are captured, and they are the
    24 frames at 0, 0.5, ..., 11.5 when every encoding gives a blob. *)
Theorem sampler_interval_and_count
        (videoFile : VideoFile) (m : Metadata) (targetFrameCount : nat) :
  loadedmetadata videoFile = Some m ->
  let i := Math_max 0.5 (duration m / of_nat targetFrameCount) in
  let dec := decoder videoFile in
  let start := on_loadedmetadata targetFrameCount m in
  (interval start = i /\ seek start = Some 0 /\ frames start = []
   /\ promise start = Pending)
  /\ (forall (fuel : nat) (t : float) (base64 : string) (blob : option Blob),
        let st := run dec targetFrameCount fuel 0 start in
        seek st <> None ->
        let st' := on_seeked targetFrameCount t base64 blob st in
        if leb (duration m) t || (targetFrameCount <=? List.length (frames st))%nat
        then promise st' = Resolved (frames st) /\ seek st' = None
        else promise st' = Pending
             /\ frames st'
                = frames st ++ match blob with
                               | Some b => [FrameData.mk (to_Q t) base64 b]
                               | None => []
                               end
             /\ seek st' = (if isFinite (t + i) then Some (t + i) else None))
  /\ (forall (fuel : nat) (fs : list FrameData.t),
        extractFramesFromVideo fuel true videoFile targetFrameCount = Resolved fs ->
        (List.length fs <= targetFrameCount)%nat
        /\ exists K, (K < fuel)%nat
                     /\ fs = captures dec m targetFrameCount K
                     /\ done_at dec m targetFrameCount K = true
                     /\ forall k, (k < K)%nat -> goes_on dec m targetFrameCount k = true)
  /\ (forall K more : nat,
        (forall k, (k < K)%nat -> goes_on dec m targetFrameCount k = true) ->
        done_at dec m targetFrameCount K = true ->
        extractFramesFromVideo (S K + more) true videoFile targetFrameCount
        = Resolved (captures dec m targetFrameCount K))
  /\ (duration m = 12 -> targetFrameCount = 120%nat ->
      i = 0.5
      /\ (reports_requested 12 dec ->
          (forall (fuel : nat) (fs : list FrameData.t),
              extractFramesFromVideo fuel true videoFile targetFrameCount = Resolved fs ->
              (List.length fs <= 24)%nat)
          /\ ((forall k t, exists t' base64 blob, dec k t = seeked t' base64 (Some blob)) ->
              exists fs,
                extractFramesFromVideo 25 true videoFile targetFrameCount = Resolved fs
                /\ VideoUtils.timeOffsets fs
                   = map (fun j => Qred (Z.of_nat j # 2)) (seq 0 24)))).
Proof.
  intros Hload i dec start. subst i dec start.
  split; [repeat split|]. split; [|split; [|split]].
  - intros fuel t base64 blob st Hseek st'. subst st' st.
    destruct (run64_from_start videoFile m targetFrameCount fuel)
      as [[W _]|[K [_ [_ [Hs _]]]]]; [|elim Hseek; exact Hs].
    destruct (on_seeked_waiting (decoder videoFile) m targetFrameCount fuel _
                                t base64 blob W) as [_ [_ H]].
    unfold test_at in H. rewrite (w_frames _ _ _ _ _ W).
    destruct (leb (duration m) t
              || (targetFrameCount
                  <=? List.length (captures (decoder videoFile) m targetFrameCount fuel))%nat).
    + destruct H as [Hp [Hs _]]. split; assumption.
    + destruct H as [Hp [Hf [Hs _]]]. repeat split; assumption.
  - intros fuel fs E.
    destruct (extract64_resolved videoFile m targetFrameCount Hload fuel fs E)
      as [K [HK [-> [Hd Hgo]]]].
    split.
    + apply captures64_at_most; intros j Hj;
        apply (goes_on_not_done (decoder videoFile) m targetFrameCount j (Hgo j Hj)).
    + exists K. repeat split; assumption.
  - intros K more Hgo Hd.
    apply (extract64_done videoFile m targetFrameCount Hload K more Hgo Hd).
  - intros H12 H120.
    destruct m as [d w h]. simpl in H12. subst d targetFrameCount.
    split; [apply (interval_12_120 w h)|]. intros Hrep.
    set (m := mkMetadata 12 w h) in *. set (dec := decoder videoFile) in *.
    assert (Hreq : forall k,
               (forall j, (j < k)%nat -> fails_at dec m 120 j = false) ->
               request dec m 120 k = asked 12 0.5 k).
    { intros k Hans. rewrite (request_asked dec m 120 Hrep k Hans).
      unfold m at 2. rewrite interval_12_120. reflexivity. }
    destruct asked_12 as [Hbefore [Hend Htimes]].
    split.
    + intros fuel fs E.
      destruct (extract64_resolved videoFile m 120 Hload fuel fs E)
        as [K [HK [-> [Hd Hgo]]]]. fold dec in Hd, Hgo |- *.
      assert (HK24 : (K <= 24)%nat).
      { destruct (Nat.le_gt_cases K 24) as [Hle|Hgt]; [exact Hle|exfalso].
        pose proof (Hgo 24%nat Hgt) as Hgo24.
        assert (Hr : request dec m 120 24 = asked 12 0.5 24).
        { apply Hreq. intros j Hj.
          apply (goes_on_not_done dec m 120 j). apply Hgo. lia. }
        unfold goes_on, answer in Hgo24. rewrite Hr in Hgo24.
        destruct (dec 24%nat (asked 12 0.5 24)) as [t' b blob|] eqn:H24; [|discriminate].
        rewrite (Hrep _ _ _ _ _ H24) in Hgo24.
        unfold test_at in Hgo24. simpl duration in Hgo24.
        rewrite Hend in Hgo24. discriminate. }
      pose proof (captures64_length dec m 120 K). lia.
    + intros Hall.
      assert (Hans : forall j, fails_at dec m 120 j = false).
      { intros j. unfold fails_at, answer.
        destruct (Hall j (request dec m 120 j)) as [t' [b [blob ->]]]. reflexivity. }
      assert (Hanswer : forall j, exists b blob,
                 answer dec m 120 j = seeked (clamp 12 (asked 12 0.5 j)) b (Some blob)).
      { intros j. unfold answer. rewrite (Hreq j) by (intros; apply Hans).
        destruct (Hall j (asked 12 0.5 j)) as [t' [b [blob Hj]]].
        exists b, blob. rewrite Hj, (Hrep _ _ _ _ _ Hj). reflexivity. }
      exists (captures dec m 120 24). split.
      * apply (extract64_done videoFile m 120 Hload 24 0).
        -- intros k Hk. fold dec. unfold goes_on.
           destruct (Hanswer k) as [b [blob ->]].
           rewrite forallb_forall in Hbefore.
           specialize (Hbefore k ltac:(apply in_seq; lia)).
           apply andb_true_iff in Hbefore as [Hlt Hfin].
           unfold m at 2. rewrite interval_12_120, Hfin, andb_true_r.
           unfold test_at. simpl duration. apply negb_true_iff in Hlt. rewrite Hlt, orb_false_l.
           apply negb_true_iff. apply Nat.leb_gt.
           pose proof (captures64_length dec m 120 k). lia.
        -- fold dec. unfold done_at. destruct (Hanswer 24%nat) as [b [blob ->]].
           unfold test_at. simpl duration. rewrite Hend. reflexivity.
      * destruct (captures64_all dec m 120 Hrep Hall 24) as [Ht _].
        rewrite Ht. change (duration m) with 12.
        change (sampling_interval m 120) with (sampling_interval (mkMetadata 12 w h) 120).
        rewrite interval_12_120. exact Htimes.
Qed.

Lemma sampler_interval_and_count_witness :
  exists fs,
    extractFramesFromVideo 25 true video_12s 120 = Resolved fs
    /\ (List.length fs <= 24)%nat
    /\ VideoUtils.timeOffsets fs = map (fun j => Qred (Z.of_nat j # 2)) (seq 0 24).
Proof.
  pose proof (sampler_interval_and_count video_12s (mkMetadata 12 1920 1080) 120 eq_refl)
    as H.
  cbv zeta in H. destruct H as [_ [_ [_ [_ H]]]].
  destruct (H eq_refl eq_refl) as [_ Hs].
  assert (Hrep : reports_requested 12 (decoder video_12s)).
  { intros k t t' base64 blob E. injection E as <- _ _. reflexivity. }
  destruct (Hs Hrep) as [H24 Hex].
  destruct Hex as [fs [E Ht]].
  - intros k t. exists (clamp 12 t), EmptyString, (mkBlob []). reflexivity.
  - exists fs. split; [exact E|]. split; [apply (H24 25%nat fs E) | exact Ht].
Defined.

(** C7, as the claim states it, fails.  For 72 seconds and a target of 120
    the interval is the double nearest to 0.6, and 120 additions of it give
    a time just above 72, where the exact sum is 72.  The 121st seek asks
    for that time as computed; the element reports the duration, the test of
    line 34 holds and the sampler resolves with the 119 frames it has (the
    first encoding gave no blob, so the target count is not reached): no
    frame is captured at that seek, and none within half a second of the
    end. *)
Lemma drift_is_not_clamped :
  let m := mkMetadata 72 1920 1080 in
  let before := run (decoder video_72s) 120 120 0 (on_loadedmetadata 120 m) in
  (exists t, seek before = Some t /\ ltb 72 t = true
             /\ (to_Q t < 72 + (1 # 1000000000))%Q)
  /\ List.length (frames before) = 119%nat
  /\ extractFramesFromVideo 121 true video_72s 120 = Resolved (frames before)
  /\ Forall (fun f => (FrameData.timeOffset f < 72 - (1 # 2))%Q) (frames before).
Proof.
  intros m before. split; [|split; [|split]].
  - eexists. split; [vm_compute; reflexivity|]. split; vm_compute; reflexivity.
  - vm_compute. reflexivity.
  - vm_compute. reflexivity.
  - assert (Hb : forallb (fun f => negb (Qle_bool (72 - (1 # 2)) (FrameData.timeOffset f)))
                         (frames before) = true) by (vm_compute; reflexivity).
    rewrite forallb_forall in Hb. apply Forall_forall. intros f Hf.
    apply SamplerFacts.Qle_bool_false. apply negb_true_iff. apply Hb. exact Hf.
Qed.

(** C7, amended.  The sampler never clamps a seek: after a [seeked] event
    at reported time [t] the only seek it starts asks for t + interval, as
    the doubles give it; and at a [seeked] event whose reported time has
    reached the duration it captures nothing and resolves with the frames
    gathered so far.  Every frame it holds was captured at a seek whose
    reported time was below the duration. *)
Theorem overshoot_seek_is_skipped
        (videoFile : VideoFile) (m : Metadata) (targetFrameCount fuel : nat) :
  loadedmetadata videoFile = Some m ->
  let i := sampling_interval m targetFrameCount in
  let dec := decoder videoFile in
  let st := run dec targetFrameCount fuel 0 (on_loadedmetadata targetFrameCount m) in
  (forall (t : float) (base64 : string) (blob : option Blob),
      seek st <> None ->
      let st' := on_seeked targetFrameCount t base64 blob st in
      (leb (duration m) t = true ->
       frames st' = frames st /\ promise st' = Resolved (frames st) /\ seek st' = None)
      /\ (seek st' = None \/ seek st' = Some (t + i)))
  /\ Forall (fun f => exists k t,
                 (k < fuel)%nat
                 /\ answer dec m targetFrameCount k
                    = seeked t (FrameData.base64 f) (Some (FrameData.blob f))
                 /\ FrameData.timeOffset f = to_Q t
                 /\ leb (duration m) t = false)
            (frames st).
Proof.
  intros Hload i dec st. subst i dec st. split.
  - intros t base64 blob Hseek st'. subst st'.
    destruct (run64_from_start videoFile m targetFrameCount fuel)
      as [[W _]|[K [_ [_ [Hs _]]]]]; [|elim Hseek; exact Hs].
    destruct (on_seeked_waiting (decoder videoFile) m targetFrameCount fuel _
                                t base64 blob W) as [_ [_ H]].
    unfold test_at in H. rewrite (w_frames _ _ _ _ _ W). split.
    + intros Hend. rewrite Hend in H. simpl in H.
      destruct H as [Hp [Hs [Hf _]]]. repeat split; assumption.
    + destruct (leb (duration m) t
                || (targetFrameCount
                    <=? List.length (captures (decoder videoFile) m targetFrameCount fuel))%nat).
      * left. apply H.
      * destruct H as [_ [_ [Hs _]]]. rewrite Hs.
        destruct (isFinite (t + sampling_interval m targetFrameCount)); [right | left];
          reflexivity.
  - assert (Hweak : forall K, (K <= fuel)%nat ->
               (forall j, (j < K)%nat -> done_at (decoder videoFile) m targetFrameCount j = false) ->
               Forall (fun f => exists k t,
                           (k < fuel)%nat
                           /\ answer (decoder videoFile) m targetFrameCount k
                              = seeked t (FrameData.base64 f) (Some (FrameData.blob f))
                           /\ FrameData.timeOffset f = to_Q t
                           /\ leb (duration m) t = false)
                      (captures (decoder videoFile) m targetFrameCount K)).
    { intros K HK Hnot.
      eapply Forall_impl; [|apply (captures64_before_end _ _ _ K Hnot)].
      intros f [k [t [Hk H]]]. exists k, t. split; [lia | exact H]. }
    assert (Hgo : forall K, (forall j, (j < K)%nat ->
                                 goes_on (decoder videoFile) m targetFrameCount j = true) ->
                            forall j, (j < K)%nat ->
                                 done_at (decoder videoFile) m targetFrameCount j = false).
    { intros K Hall j Hj. apply (goes_on_not_done _ _ _ j (Hall j Hj)). }
    destruct (run64_from_start videoFile m targetFrameCount fuel)
      as [[W Hall]|[K [HK [Hall [_ H]]]]].
    + rewrite (w_frames _ _ _ _ _ W). apply Hweak; [lia | apply Hgo; exact Hall].
    + destruct H as [[_ [_ [Hf _]]]|[[_ [_ [Hf _]]]|[Hst [_ [Hf _]]]]]; rewrite Hf.
      * apply Hweak; [lia | apply Hgo; exact Hall].
      * apply Hweak; [lia | apply Hgo; exact Hall].
      * apply Hweak; [lia|]. intros j Hj. destruct (Nat.eq_dec j K) as [->|Hne].
        -- destruct (course_cases (decoder videoFile) m targetFrameCount K)
             as [C|[C|[C|C]]]; intuition congruence.
        -- apply (Hgo K Hall). lia.
Qed.

Lemma overshoot_seek_is_skipped_witness :
  Forall (fun f => exists k t,
              (k < 130)%nat
              /\ answer (decoder video_72s) (mkMetadata 72 1920 1080) 120 k
                 = seeked t (FrameData.base64 f) (Some (FrameData.blob f))
              /\ FrameData.timeOffset f = to_Q t
              /\ leb 72 t = false)
         (frames (run (decoder video_72s) 120 130 0
                      (on_loadedmetadata 120 (mkMetadata 72 1920 1080)))).
Proof.
  apply (overshoot_seek_is_skipped video_72s (mkMetadata 72 1920 1080) 120 130 eq_refl).
Defined.

End Sampler64Claims.

(** * Further properties of the sampler on doubles *)

Module Schedule64Extras.

Import PrimFloat Binary64 VideoUtils64 Schedule64 Sampler64Facts Samples64.

Local Open Scope float_scope.

(** X17. The course of a run is fixed seek by seek.  When every seek before
    K is answered, fails the test of line 34 and leads to a finite next
    time, the promise is pending during the first K events, and the seek K
    decides the outcome: if the test holds there, the promise resolves with
    the frames of the seeks before K whose encoding gave a blob, each
    stamped with the time the element reported; if the element raises
    [error] there, the promise is rejected; and if the next time is not
    finite there, the setter throws and the promise stays pending for
    ever. *)
Theorem sampler_schedule
        (videoFile : VideoFile) (m : Metadata) (targetFrameCount K : nat) :
  loadedmetadata videoFile = Some m ->
  let dec := decoder videoFile in
  (forall k, (k < K)%nat -> goes_on dec m targetFrameCount k = true) ->
  (forall fuel, (fuel <= K)%nat ->
                extractFramesFromVideo fuel true videoFile targetFrameCount = Pending)
  /\ (done_at dec m targetFrameCount K = true ->
      forall more,
        extractFramesFromVideo (S K + more) true videoFile targetFrameCount
        = Resolved (captures dec m targetFrameCount K))
  /\ (fails_at dec m targetFrameCount K = true ->
      forall more,
        extractFramesFromVideo (S K + more) true videoFile targetFrameCount
        = Rejected (JS.Error "视频加载失败，请检查文件格式"))
  /\ (stuck_at dec m targetFrameCount K = true ->
      forall more,
        extractFramesFromVideo (S K + more) true videoFile targetFrameCount = Pending).
Proof.
  intros Hload dec Hgo. subst dec.
  assert (Hout : forall more,
             goes_on (decoder videoFile) m targetFrameCount K = false ->
             let p := extractFramesFromVideo (S K + more) true videoFile targetFrameCount in
             (done_at (decoder videoFile) m targetFrameCount K = true
              /\ p = Resolved (captures (decoder videoFile) m targetFrameCount K))
             \/ (fails_at (decoder videoFile) m targetFrameCount K = true
                 /\ p = Rejected (JS.Error "视频加载失败，请检查文件格式"))
             \/ (stuck_at (decoder videoFile) m targetFrameCount K = true /\ p = Pending)).
  { intros more Hstop. cbv zeta.
    rewrite (extract64_unfold videoFile m targetFrameCount Hload).
    destruct (extract64_at videoFile m targetFrameCount K more Hgo Hstop)
      as [_ [[D [Hp _]]|[[D [Hp _]]|[D [Hp _]]]]]; rewrite Hp; tauto. }
  pose proof (course_cases (decoder videoFile) m targetFrameCount K) as C.
  split; [|split; [|split]].
  - intros fuel Hfuel.
    rewrite (extract64_unfold videoFile m targetFrameCount Hload).
    destruct (run64_from_start videoFile m targetFrameCount fuel)
      as [[W _]|[K' [HK' [_ [_ H]]]]]; [apply (w_promise _ _ _ _ _ W)|].
    exfalso. pose proof (Hgo K' ltac:(lia)) as Hgo'.
    destruct (course_cases (decoder videoFile) m targetFrameCount K') as [C'|[C'|[C'|C']]];
      destruct H as [[D _]|[[D _]|[D _]]]; intuition congruence.
  - intros Hd more.
    destruct (Hout more) as [[_ E]|[[D _]|[D _]]]; [intuition congruence | exact E | |];
      intuition congruence.
  - intros Hd more.
    destruct (Hout more) as [[D _]|[[_ E]|[D _]]]; [intuition congruence | | exact E |];
      intuition congruence.
  - intros Hd more.
    destruct (Hout more) as [[D _]|[[D _]|[_ E]]]; [intuition congruence | | | exact E];
      intuition congruence.
Qed.

Lemma sampler_schedule_witness :
  extractFramesFromVideo 0 true live_stream 120 = Pending
  /\ extractFramesFromVideo 500 true live_stream 120 = Pending.
Proof.
  destruct (sampler_schedule live_stream (mkMetadata infinity 1920 1080) 120 0 eq_refl)
    as [H0 [_ [_ Hs]]]; [intros k Hk; lia|].
  split; [apply H0; lia|].
  apply (Hs eq_refl 499%nat).
Defined.

(** A stream of unbounded length: the interval is [+Infinity], the first
    frame is captured, the assignment of line 54 throws, and the promise
    never settles. *)
Example live_stream_never_settles :
  forall fuel, extractFramesFromVideo fuel true live_stream 120 = Pending.
Proof.
  intros fuel.
  rewrite (extract64_unfold live_stream (mkMetadata infinity 1920 1080) 120 eq_refl).
  destruct fuel as [|fuel]; [reflexivity|].
  destruct (extract64_at live_stream (mkMetadata infinity 1920 1080) 120 0 fuel)
    as [_ [[D _]|[[D _]|[_ [Hp _]]]]];
    [intros k Hk; lia | reflexivity | discriminate D | discriminate D | exact Hp].
Qed.

(** Ten additions of 6 / 10 stay below 6: with the first encoding failing,
    a tenth frame is captured just before the end. *)
Example drift_below_the_end :
  exists fs,
    extractFramesFromVideo 12 true video_6s 10 = Resolved fs
    /\ List.length fs = 10%nat
    /\ (5 < last (VideoUtils.timeOffsets fs) 0 < 6)%Q.
Proof.
  eexists. split; [vm_compute; reflexivity|]. split; [reflexivity|].
  split; vm_compute; reflexivity.
Qed.

(** 120 additions of 61 / 120 stay below 61: the count of the frames is what
    ends the run. *)
Example count_test_decides :
  exists fs,
    extractFramesFromVideo 121 true video_61s 120 = Resolved fs
    /\ List.length fs = 120%nat
    /\ leb 61 (asked 61 (sampling_interval (mkMetadata 61 1920 1080) 120) 120) = false.
Proof.
  eexists. split; [vm_compute; reflexivity|]. split; vm_compute; reflexivity.
Qed.

(** A source 1074 wide: the product 1074 * (960 / 1074) falls below 960 and
    the canvas keeps 959. *)
Example canvas_in_doubles :
  (Canvas.width 1074, Canvas.height 1074 604) = (959, 539)%Z
  /\ (Canvas.width 1920, Canvas.height 1920 1080) = (960, 540)%Z
  /\ (Canvas.width 640, Canvas.height 640 360) = (640, 360)%Z
  /\ (Canvas.width 0, Canvas.height 0 360) = (0, 360)%Z.
Proof. repeat split; vm_compute; reflexivity. Qed.

End Schedule64Extras.

(** * The canvas size under rounding *)

Module CanvasFacts.

Import JS Rounded.

Local Open Scope Q_scope.

Lemma QN_nonneg (n : N) : 0 <= QN n.
Proof. unfold QN, Qle. simpl. lia. Qed.

Lemma QN_zero (n : N) : Qeq_bool (QN n) 0 = true -> n = 0%N.
Proof. intros E. apply Qeq_bool_iff in E. unfold QN, Qeq in E. simpl in E. lia. Qed.

Lemma QN_pos (n : N) : Qeq_bool (QN n) 0 = false -> 0 < QN n.
Proof.
  intros E. apply Qeq_bool_neq in E. pose proof (QN_nonneg n) as H.
  apply Qle_lteq in H. destruct H as [H|H]; [exact H|]. elim E. symmetry. exact H.
Qed.

Lemma QN_lt (n : N) (z : Z) : (Z.of_N n < z)%Z -> QN n < inject_Z z.
Proof. intros H. unfold QN. rewrite <- Zlt_Qlt. exact H. Qed.

Lemma floor_between (q : Q) (n : Z) :
  0 <= q -> q <= inject_Z n -> (0 <= Qfloor q <= n)%Z.
Proof.
  intros H0 Hn. split.
  - change 0%Z with (Qfloor (inject_Z 0)). apply Qfloor_resp_le. exact H0.
  - rewrite <- (Qfloor_Z n). apply Qfloor_resp_le. exact Hn.
Qed.

Lemma set_reflected_floor (default : Z) (q : Q) (n : Z) :
  0 <= q -> q <= inject_Z n -> (n < 2 ^ 31)%Z ->
  set_reflected default (Fin q) = Qfloor q.
Proof.
  intros H0 Hn H31. unfold set_reflected, to_unsigned_long, Qtruncate.
  apply Qle_bool_iff in H0 as Hb. rewrite Hb.
  pose proof (floor_between q n H0 Hn) as Hf.
  rewrite Z.mod_small by lia.
  destruct (Z.leb_spec (Qfloor q) 2147483647) as [_|Hgt]; [reflexivity | lia].
Qed.

Lemma floor_within_one (q : Q) : q - 1 < inject_Z (Qfloor q) <= q.
Proof.
  split; [|apply Qfloor_le].
  pose proof (Qlt_floor q) as H. rewrite inject_Z_plus in H.
  change (inject_Z 1) with 1 in H. lra.
Qed.

Lemma floor_below (q : Q) (n : Z) : q < inject_Z (n + 1) -> (Qfloor q <= n)%Z.
Proof.
  intros H. pose proof (Qfloor_le q) as Hf.
  assert (Hlt : inject_Z (Qfloor q) < inject_Z (n + 1)) by lra.
  rewrite <- Zlt_Qlt in Hlt. lia.
Qed.

Lemma mult_between (x s q lo hi : Q) :
  0 <= x -> q * lo <= s -> s <= q * hi ->
  x * q * lo <= x * s /\ x * s <= x * q * hi.
Proof.
  intros Hx Hlo Hhi. split.
  - assert (H : 0 <= x * (s - q * lo)) by (apply Qmult_le_0_compat; lra).
    assert (E : x * (s - q * lo) == x * s - x * q * lo) by ring.
    rewrite E in H. lra.
  - assert (H : 0 <= x * (q * hi - s)) by (apply Qmult_le_0_compat; lra).
    assert (E : x * (q * hi - s) == x * q * hi - x * s) by ring.
    rewrite E in H. lra.
Qed.

Lemma mult_ge (x s : Q) : 1 <= x -> 0 <= s -> s <= x * s.
Proof.
  intros Hx Hs. assert (H : 0 <= (x - 1) * s) by (apply Qmult_le_0_compat; lra).
  assert (E : (x - 1) * s == x * s - s) by ring. rewrite E in H. lra.
Qed.

Lemma u_value : u = 1 # 9007199254740992.
Proof. reflexivity. Qed.

Section Rounding.

Variable rnd : Q -> Q.
Hypothesis near : nearest_double rnd.

Lemma rnd_eq (x y : Q) : x == y -> rnd x == rnd y.
Proof.
  intros E. apply Qle_antisym; apply (rnd_monotone rnd near); rewrite E; apply Qle_refl.
Qed.

Lemma rnd_N (n : N) : (n < 2 ^ 53)%N -> rnd (QN n) == QN n.
Proof. intros H. unfold QN. apply (rnd_integer rnd near). lia. Qed.

Lemma rnd_nonneg (x : Q) : 0 <= x -> 0 <= rnd x.
Proof.
  intros H. pose proof (rnd_integer rnd near 0 ltac:(lia)) as H0.
  change (inject_Z 0) with 0 in H0. rewrite <- H0.
  apply (rnd_monotone rnd near). exact H.
Qed.

Lemma rnd_near (x : Q) :
  1 # 4294967296 <= x -> x <= 18446744073709551616 ->
  x * (1 - u) <= rnd x /\ rnd x <= x * (1 + u).
Proof. intros H1 H2. apply (rnd_error rnd near); assumption. Qed.

(** The factor [scale]: 1 up to a width of 960, and the rounded quotient
    beyond. *)
Lemma scale_rounded (w : N) :
  (w < 2 ^ 32)%N ->
  exists s : Q,
    scale rnd w = Fin s
    /\ 0 < s /\ s <= 1
    /\ (w <> 0%N -> s == Qmin 1 (rnd (MAX_WIDTH / QN w)))
    /\ (QN w <= MAX_WIDTH -> s == 1)
    /\ (MAX_WIDTH < QN w ->
        MAX_WIDTH / QN w * (1 - u) <= s /\ s <= MAX_WIDTH / QN w * (1 + u)).
Proof.
  intros Hw32. unfold scale, div.
  destruct (Qeq_bool (QN w) 0) eqn:E.
  - exists 1. change (Qeq_bool MAX_WIDTH 0) with false.
    change (Qle_bool 0 MAX_WIDTH) with true. cbv iota. simpl round.
    pose proof (QN_zero _ E) as H0. apply Qeq_bool_iff in E.
    split; [reflexivity|]. split; [reflexivity|]. split; [discriminate|].
    split; [intros Hne; elim (Hne H0)|]. split; [reflexivity|].
    intros Hlt. rewrite E in Hlt. unfold MAX_WIDTH in Hlt. lra.
  - pose proof (QN_pos _ E) as Hpos.
    assert (Hw : QN w < 4294967296) by (apply (QN_lt w 4294967296); lia).
    set (x := QN w) in *. set (q := MAX_WIDTH / x).
    assert (Hxq : x * q == MAX_WIDTH)
      by (unfold q; apply Qmult_div_r; intros H; rewrite H in Hpos; lra).
    assert (Hq : 0 < q)
      by (unfold q; apply Qlt_shift_div_l; [exact Hpos | unfold MAX_WIDTH; lra]).
    assert (Hqlo : 1 # 4294967296 <= q).
    { unfold q. apply Qle_shift_div_l; [exact Hpos|]. unfold MAX_WIDTH. lra. }
    pose proof (rnd_integer rnd near 1 ltac:(lia)) as H1.
    change (inject_Z 1) with 1 in H1.
    simpl round. exists (Qmin 1 (rnd q)). split; [reflexivity|].
    destruct (Qlt_le_dec MAX_WIDTH x) as [Hbig|Hsmall].
    + assert (Hq1 : q <= 1).
      { unfold q. apply Qle_shift_div_r; [exact Hpos|]. lra. }
      destruct (rnd_near q Hqlo ltac:(lra)) as [Hlo Hhi].
      assert (Hr1 : rnd q <= 1)
        by (rewrite <- H1; apply (rnd_monotone rnd near); exact Hq1).
      assert (Hmin : Qmin 1 (rnd q) == rnd q) by (apply Q.min_r; exact Hr1).
      rewrite u_value in *.
      split; [rewrite Hmin; nra|]. split; [rewrite Hmin; exact Hr1|].
      split; [intros _; reflexivity|]. split; [intros Hle; lra|].
      intros _. rewrite Hmin. split; assumption.
    + assert (Hq1 : 1 <= q).
      { unfold q. apply Qle_shift_div_l; [exact Hpos|]. lra. }
      assert (Hr1 : 1 <= rnd q)
        by (rewrite <- H1; apply (rnd_monotone rnd near); exact Hq1).
      assert (Hmin : Qmin 1 (rnd q) == 1) by (apply Q.min_l; exact Hr1).
      split; [rewrite Hmin; reflexivity|]. split; [rewrite Hmin; apply Qle_refl|].
      split; [intros _; reflexivity|]. split; [intros _; exact Hmin|].
      intros Hlt. lra.
Qed.

End Rounding.

End CanvasFacts.

(** * Rounding to the nearest double is such a rounding *)

Module NearestFacts.

Import Nearest.

Local Open Scope Q_scope.

Lemma Qcompare_cases (a b : Q) :
  CompareSpec (a == b) (a < b) (b < a) (Qcompare a b).
Proof.
  destruct (Qcompare a b) eqn:E; constructor.
  - apply Qeq_alt. exact E.
  - apply Qlt_alt. exact E.
  - apply Qgt_alt. exact E.
Qed.

Lemma rhe_cases (y : Q) :
  let f := Qfloor y in
  (round_half_even y = f /\ y - inject_Z f <= 1 # 2)
  \/ (round_half_even y = (f + 1)%Z /\ 1 # 2 <= y - inject_Z f).
Proof.
  intros f. unfold round_half_even. fold f.
  destruct (Qcompare_cases (y - inject_Z f) (1 # 2)) as [E|E|E].
  - destruct (Z.even f); [left | right]; split; try reflexivity; lra.
  - left. split; [reflexivity | lra].
  - right. split; [reflexivity | lra].
Qed.

Lemma floor_bounds (y : Q) : inject_Z (Qfloor y) <= y /\ y < inject_Z (Qfloor y) + 1.
Proof.
  split; [apply Qfloor_le|]. pose proof (Qlt_floor y) as H.
  rewrite inject_Z_plus in H. exact H.
Qed.

Lemma rhe_near (y : Q) :
  y - (1 # 2) <= inject_Z (round_half_even y)
  /\ inject_Z (round_half_even y) <= y + (1 # 2).
Proof.
  destruct (floor_bounds y) as [H1 H2].
  destruct (rhe_cases y) as [[-> H]|[-> H]].
  - split; lra.
  - rewrite inject_Z_plus. change (inject_Z 1) with 1. split; lra.
Qed.

Lemma rhe_mono (y y' : Q) : y <= y' -> (round_half_even y <= round_half_even y')%Z.
Proof.
  intros Hle. pose proof (Qfloor_resp_le _ _ Hle) as Hf.
  destruct (floor_bounds y) as [H1 H2]. destruct (floor_bounds y') as [H1' H2'].
  destruct (Z.eq_dec (Qfloor y) (Qfloor y')) as [E|Hne].
  - unfold round_half_even. rewrite <- E.
    destruct (Qcompare_cases (y - inject_Z (Qfloor y)) (1 # 2)) as [C|C|C];
      destruct (Qcompare_cases (y' - inject_Z (Qfloor y)) (1 # 2)) as [C'|C'|C'];
      try (exfalso; lra); try (destruct (Z.even (Qfloor y))); lia.
  - assert (Hlt : (Qfloor y + 1 <= Qfloor y')%Z) by lia.
    destruct (rhe_cases y) as [[-> _]|[-> _]];
      destruct (rhe_cases y') as [[-> _]|[-> _]]; lia.
Qed.

Lemma rhe_eq (y y' : Q) : y == y' -> round_half_even y = round_half_even y'.
Proof.
  intros E. apply Z.le_antisymm; apply rhe_mono; rewrite E; apply Qle_refl.
Qed.

Lemma rhe_Z (z : Z) : round_half_even (inject_Z z) = z.
Proof.
  unfold round_half_even. rewrite Qfloor_Z.
  assert (E : Qcompare (inject_Z z - inject_Z z) (1 # 2) = Lt).
  { apply Qlt_alt. assert (E0 : inject_Z z - inject_Z z == 0) by ring.
    rewrite E0. reflexivity. }
  rewrite E. reflexivity.
Qed.

Lemma pow2_pos (k : Z) : 0 < 2 ^ k.
Proof. apply Qpower_0_lt. reflexivity. Qed.

Lemma pow2_plus (a b : Z) : 2 ^ (a + b) == 2 ^ a * 2 ^ b.
Proof. apply Qpower_plus. discriminate. Qed.

Lemma pow2_mono (a b : Z) : (a <= b)%Z -> 2 ^ a <= 2 ^ b.
Proof. intros H. apply Qpower_le_compat_l; [exact H | discriminate]. Qed.

Lemma pow2_Z (k : Z) : (0 <= k)%Z -> inject_Z (2 ^ k) == 2 ^ k.
Proof. intros H. rewrite (Zpower_Qpower 2 k H). reflexivity. Qed.

Lemma pow2_cancel (e : Z) : 2 ^ (- e) * 2 ^ e == 1.
Proof. rewrite <- pow2_plus. replace (- e + e)%Z with 0%Z by lia. reflexivity. Qed.

Lemma log2_below (X : Z) : (X < 2 ^ (Z.log2 X + 1))%Z.
Proof.
  destruct (Z.lt_ge_cases 0 X) as [Hpos|Hle].
  - apply (Z.log2_spec X Hpos).
  - rewrite (Z.log2_nonpos X Hle). simpl. lia.
Qed.

Lemma log2_above (X : Z) : (0 < Z.log2 X)%Z -> (2 ^ Z.log2 X <= X)%Z.
Proof.
  intros H. destruct (Z.lt_ge_cases 0 X) as [Hpos|Hle].
  - apply (Z.log2_spec X Hpos).
  - rewrite (Z.log2_nonpos X Hle) in H. lia.
Qed.

(** The scaled value [x / 2^e] has at most 53 bits, and exactly 53 when
    [e] is above the least exponent. *)
Lemma last_place_spec (x : Q) :
  0 <= x ->
  let e := last_place x in
  let y := x * 2 ^ (- e) in
  (-1074 <= e)%Z
  /\ 0 <= y /\ y < 2 ^ 53
  /\ ((-1074 < e)%Z -> 2 ^ 52 <= y)
  /\ x == y * 2 ^ e.
Proof.
  intros Hx e y.
  assert (Hxy : x == y * 2 ^ e).
  { unfold y. rewrite <- Qmult_assoc, pow2_cancel. ring. }
  assert (Hy0 : 0 <= y).
  { unfold y. apply Qmult_le_0_compat; [exact Hx | apply Qlt_le_weak, pow2_pos]. }
  split; [unfold e, last_place; lia|]. split; [exact Hy0|].
  set (s := x * 2 ^ 1074).
  set (X := Qfloor s). set (L := Z.log2 X).
  assert (HL0 : (0 <= L)%Z) by apply Z.log2_nonneg.
  assert (Hs : y == s * 2 ^ (- e - 1074)).
  { unfold y, s. rewrite <- Qmult_assoc, <- pow2_plus.
    replace (1074 + (- e - 1074))%Z with (- e)%Z by lia. reflexivity. }
  assert (Hshi : s < 2 ^ (L + 1)).
  { destruct (floor_bounds s) as [_ H]. fold X in H.
    pose proof (log2_below X) as Hlog. fold L in Hlog.
    assert (Hz : inject_Z X + 1 <= inject_Z (2 ^ (L + 1))).
    { change 1 with (inject_Z 1). rewrite <- inject_Z_plus, <- Zle_Qle. lia. }
    rewrite (pow2_Z (L + 1)) in Hz by lia. lra. }
  assert (Hslo : (0 < L)%Z -> 2 ^ L <= s).
  { intros HL. destruct (floor_bounds s) as [H _]. fold X in H.
    pose proof (log2_above X HL) as Hlog. fold L in Hlog.
    rewrite Zle_Qle, (pow2_Z L) in Hlog by lia. lra. }
  assert (He : e = Z.max (-1074) (L - 1126)) by reflexivity.
  destruct (Z.le_gt_cases 52 L) as [Hbig|Hsmall].
  - assert (He' : (- e - 1074 = 52 - L)%Z) by lia.
    rewrite He' in Hs. pose proof (pow2_pos (52 - L)) as Hp.
    split; [|split; [|exact Hxy]].
    + rewrite Hs.
      assert (E53 : 2 ^ 53 == 2 ^ (L + 1) * 2 ^ (52 - L)).
      { rewrite <- pow2_plus. replace (L + 1 + (52 - L))%Z with 53%Z by lia. reflexivity. }
      rewrite E53. apply Qmult_lt_compat_r; assumption.
    + intros Habove. rewrite Hs.
      assert (E52 : 2 ^ 52 == 2 ^ L * 2 ^ (52 - L)).
      { rewrite <- pow2_plus. replace (L + (52 - L))%Z with 52%Z by lia. reflexivity. }
      rewrite E52. apply Qmult_le_compat_r; [apply Hslo; lia | apply Qlt_le_weak, Hp].
  - assert (He' : (- e - 1074 = 0)%Z) by lia.
    rewrite He' in Hs. change (2 ^ 0) with 1 in Hs. rewrite Qmult_1_r in Hs.
    split; [|split; [intros Habove; lia | exact Hxy]].
    rewrite Hs. apply (Qlt_le_trans _ (2 ^ (L + 1))); [exact Hshi|].
    apply pow2_mono. lia.
Qed.

Lemma last_place_mono (x x' : Q) : 0 <= x -> x <= x' -> (last_place x <= last_place x')%Z.
Proof.
  intros Hx Hle. unfold last_place.
  assert (Hs : x * 2 ^ 1074 <= x' * 2 ^ 1074)
    by (apply Qmult_le_compat_r; [exact Hle | apply Qlt_le_weak, pow2_pos]).
  pose proof (Z.log2_le_mono _ _ (Qfloor_resp_le _ _ Hs)). lia.
Qed.

Lemma nearest_pos_nonneg (x : Q) : 0 <= x -> 0 <= nearest_pos x.
Proof.
  intros Hx. destruct (last_place_spec x Hx) as [_ [Hy _]].
  unfold nearest_pos. apply Qmult_le_0_compat; [|apply Qlt_le_weak, pow2_pos].
  change 0 with (inject_Z 0). rewrite <- Zle_Qle.
  rewrite <- (rhe_Z 0). apply rhe_mono. exact Hy.
Qed.

Lemma nearest_pos_mono (x x' : Q) :
  0 <= x -> x <= x' -> nearest_pos x <= nearest_pos x'.
Proof.
  intros Hx Hle. assert (Hx' : 0 <= x') by lra.
  destruct (last_place_spec x Hx) as [He [Hy0 [Hy53 [_ _]]]].
  destruct (last_place_spec x' Hx') as [_ [_ [_ [Hy52 _]]]].
  pose proof (last_place_mono x x' Hx Hle) as Hee.
  unfold nearest_pos.
  set (e := last_place x) in *. set (e' := last_place x') in *.
  destruct (Z.eq_dec e e') as [E|Hne].
  - rewrite <- E. apply Qmult_le_compat_r; [|apply Qlt_le_weak, pow2_pos].
    rewrite <- Zle_Qle. apply rhe_mono.
    apply Qmult_le_compat_r; [exact Hle | apply Qlt_le_weak, pow2_pos].
  - assert (Hlt : (e + 1 <= e')%Z) by lia.
    assert (H1 : inject_Z (round_half_even (x * 2 ^ (- e))) <= 2 ^ 53).
    { rewrite <- (pow2_Z 53) by lia. rewrite <- Zle_Qle.
      rewrite <- (rhe_Z (2 ^ 53)). apply rhe_mono.
      rewrite (pow2_Z 53) by lia. apply Qlt_le_weak. exact Hy53. }
    assert (H2 : 2 ^ 52 <= inject_Z (round_half_even (x' * 2 ^ (- e')))).
    { rewrite <- (pow2_Z 52) by lia. rewrite <- Zle_Qle.
      rewrite <- (rhe_Z (2 ^ 52)). apply rhe_mono.
      rewrite (pow2_Z 52) by lia. apply Hy52. lia. }
    apply (Qle_trans _ (2 ^ 53 * 2 ^ e)).
    { apply Qmult_le_compat_r; [exact H1 | apply Qlt_le_weak, pow2_pos]. }
    apply (Qle_trans _ (2 ^ 52 * 2 ^ e')).
    { assert (E : 2 ^ 53 * 2 ^ e == 2 ^ 52 * 2 ^ (e + 1)).
      { rewrite <- !pow2_plus. replace (53 + e)%Z with (52 + (e + 1))%Z by lia.
        reflexivity. }
      rewrite E. rewrite (Qmult_comm (2 ^ 52) (2 ^ (e + 1))), (Qmult_comm (2 ^ 52) (2 ^ e')).
      apply Qmult_le_compat_r; [apply pow2_mono; exact Hlt | apply Qlt_le_weak, pow2_pos]. }
    apply Qmult_le_compat_r; [exact H2 | apply Qlt_le_weak, pow2_pos].
Qed.

(** An integer multiple of [2^e] that fits is kept. *)
Lemma nearest_pos_exact (x : Q) (k : Z) :
  0 <= x -> x * 2 ^ (- last_place x) == inject_Z k -> nearest_pos x == x.
Proof.
  intros Hx Hk. destruct (last_place_spec x Hx) as [_ [_ [_ [_ Hxy]]]].
  unfold nearest_pos. rewrite (rhe_eq _ _ Hk), rhe_Z, <- Hk. symmetry. exact Hxy.
Qed.

Lemma nearest_pos_integer (z : Z) :
  (0 <= z <= 2 ^ 53)%Z -> nearest_pos (inject_Z z) == inject_Z z.
Proof.
  intros Hz.
  assert (H0 : 0 <= inject_Z z) by (change 0 with (inject_Z 0); rewrite <- Zle_Qle; lia).
  destruct (Z.eq_dec z 0) as [->|Hne]; [vm_compute; reflexivity|].
  destruct (Z.eq_dec z (2 ^ 53)) as [->|Hne']; [vm_compute; reflexivity|].
  assert (Hfloor : Qfloor (inject_Z z * 2 ^ 1074) = (z * 2 ^ 1074)%Z).
  { rewrite <- (Qfloor_Z (z * 2 ^ 1074)). apply Qfloor_comp.
    rewrite inject_Z_mult, (pow2_Z 1074) by lia. reflexivity. }
  assert (Hlog : (Z.log2 z <= 52)%Z).
  { apply Z.lt_succ_r. apply Z.log2_lt_pow2; lia. }
  assert (He : (last_place (inject_Z z) <= 0)%Z).
  { unfold last_place. rewrite Hfloor, Z.log2_mul_pow2 by lia. lia. }
  apply (nearest_pos_exact _ (z * 2 ^ (- last_place (inject_Z z)))); [exact H0|].
  rewrite inject_Z_mult, (pow2_Z (- last_place (inject_Z z))) by lia. reflexivity.
Qed.

Lemma nearest_pos_error (x : Q) :
  1 # (2 ^ 32) <= x -> x <= inject_Z (2 ^ 64) ->
  x * (1 - Rounded.u) <= nearest_pos x /\ nearest_pos x <= x * (1 + Rounded.u).
Proof.
  intros Hlo Hhi.
  assert (Hx : 0 <= x) by (apply (Qle_trans _ (1 # 2 ^ 32)); [discriminate | exact Hlo]).
  assert (He : (-1074 < last_place x)%Z).
  { unfold last_place.
    assert (Hs : inject_Z (2 ^ 1042) <= x * 2 ^ 1074).
    { rewrite (pow2_Z 1042) by lia.
      assert (E : 2 ^ 1042 == (1 # 2 ^ 32) * 2 ^ 1074) by (vm_compute; reflexivity).
      rewrite E. apply Qmult_le_compat_r; [exact Hlo | apply Qlt_le_weak, pow2_pos]. }
    apply Qfloor_resp_le in Hs. rewrite Qfloor_Z in Hs.
    apply Z.log2_le_mono in Hs. rewrite Z.log2_pow2 in Hs by lia. lia. }
  destruct (last_place_spec x Hx) as [_ [Hy0 [_ [Hy52 Hxy]]]].
  specialize (Hy52 He).
  destruct (rhe_near (x * 2 ^ (- last_place x))) as [Hr1 Hr2].
  unfold nearest_pos.
  set (e := last_place x) in *. set (y := x * 2 ^ (- e)) in *.
  set (r := inject_Z (round_half_even y)) in *.
  pose proof (pow2_pos e) as Ht. set (t := 2 ^ e) in *.
  assert (A1 : y * t - (1 # 2) * t <= r * t).
  { assert (H : (y - (1 # 2)) * t <= r * t)
      by (apply Qmult_le_compat_r; [exact Hr1 | apply Qlt_le_weak, Ht]).
    assert (E : (y - (1 # 2)) * t == y * t - (1 # 2) * t) by ring.
    rewrite E in H. exact H. }
  assert (A2 : r * t <= y * t + (1 # 2) * t).
  { assert (H : r * t <= (y + (1 # 2)) * t)
      by (apply Qmult_le_compat_r; [exact Hr2 | apply Qlt_le_weak, Ht]).
    assert (E : (y + (1 # 2)) * t == y * t + (1 # 2) * t) by ring.
    rewrite E in H. exact H. }
  assert (A3 : 4503599627370496 * t <= y * t).
  { apply Qmult_le_compat_r; [|apply Qlt_le_weak, Ht].
    assert (E : 2 ^ 52 == 4503599627370496) by reflexivity.
    rewrite <- E. exact Hy52. }
  rewrite Hxy. rewrite CanvasFacts.u_value.
  clearbody t r y. split; lra.
Qed.

Lemma nearest_is_nearest_double : Rounded.nearest_double nearest.
Proof.
  constructor.
  - intros x y Hle. unfold nearest.
    destruct (Qle_bool 0 x) eqn:Ex; destruct (Qle_bool 0 y) eqn:Ey.
    + apply Qle_bool_iff in Ex. apply nearest_pos_mono; assumption.
    + apply Qle_bool_iff in Ex. apply SamplerFacts.Qle_bool_false in Ey. lra.
    + apply SamplerFacts.Qle_bool_false in Ex. apply Qle_bool_iff in Ey.
      pose proof (nearest_pos_nonneg (- x) ltac:(lra)).
      pose proof (nearest_pos_nonneg y Ey). lra.
    + apply SamplerFacts.Qle_bool_false in Ex. apply SamplerFacts.Qle_bool_false in Ey.
      pose proof (nearest_pos_mono (- y) (- x) ltac:(lra) ltac:(lra)). lra.
  - intros z Hz. unfold nearest.
    assert (E : Qle_bool 0 (inject_Z z) = true).
    { apply Qle_bool_iff. change 0 with (inject_Z 0). rewrite <- Zle_Qle. lia. }
    rewrite E. apply nearest_pos_integer. exact Hz.
  - intros x Hlo Hhi. unfold nearest.
    assert (E : Qle_bool 0 x = true).
    { apply Qle_bool_iff. apply (Qle_trans _ (1 # 2 ^ 32)); [discriminate | exact Hlo]. }
    rewrite E. apply nearest_pos_error; assumption.
Qed.

End NearestFacts.

Module CanvasClaims.

Import JS Rounded CanvasFacts.

Local Open Scope Q_scope.

(** C9. The canvas is sized from the source dimensions and the factor
    scale = Math.min(1, 960 / sourceWidth), the quotient and the two
    products being rounded to doubles and the canvas keeping the integer
    part.  For every rounding that is monotone, exact on the integers up to
    2^53 and moves a value by at most the fraction 2^-53 of it, as rounding
    to the nearest double does, a source of width below 2^32 and height
    below 2^31 gives: a scale in (0, 1]; an output width of at most 960 and
    no output dimension above the source's; for a source no wider than 960,
    the scale 1 exactly and the source's own dimensions; for a wider
    source, an output width of 959 or 960 and an output height within one
    pixel, and the fraction 2^-52, of height * 960 / width. *)
Theorem canvas_dimensions (rnd : Q -> Q) (videoWidth videoHeight : N) :
  nearest_double rnd ->
  (videoWidth < 2 ^ 32)%N ->
  (videoHeight < 2 ^ 31)%N ->
  let w := QN videoWidth in
  let h := QN videoHeight in
  let cw := canvas_width rnd videoWidth in
  let ch := canvas_height rnd videoWidth videoHeight in
  exists s : Q,
    scale rnd videoWidth = Fin s
    /\ 0 < s <= 1
    /\ (videoWidth <> 0%N -> s == Qmin 1 (rnd (MAX_WIDTH / w)))
    /\ cw = Qfloor (rnd (w * s))
    /\ ch = Qfloor (rnd (h * s))
    /\ (0 <= cw <= 960)%Z
    /\ (cw <= Z.of_N videoWidth)%Z
    /\ (0 <= ch <= Z.of_N videoHeight)%Z
    /\ (w <= MAX_WIDTH ->
        s == 1 /\ cw = Z.of_N videoWidth /\ ch = Z.of_N videoHeight)
    /\ (MAX_WIDTH < w ->
        (959 <= cw)%Z
        /\ h * (MAX_WIDTH / w) * (1 - u) * (1 - u) - 1 < inject_Z ch
        /\ inject_Z ch <= h * (MAX_WIDTH / w) * (1 + u) * (1 + u)).
Proof.
  intros near Hw32 Hh31 w h cw ch.
  destruct (scale_rounded rnd near videoWidth Hw32)
    as [s [Hs [Hpos [Hle1 [Hmin [Hsmall Hbig]]]]]].
  fold w in Hmin, Hsmall, Hbig.
  pose proof (QN_nonneg videoWidth) as Hw0. fold w in Hw0.
  pose proof (QN_nonneg videoHeight) as Hh0. fold h in Hh0.
  assert (Hrw : rnd w == w) by (apply (rnd_N rnd near); lia).
  assert (Hrh : rnd h == h) by (apply (rnd_N rnd near); lia).
  assert (Hws : 0 <= w * s /\ w * s <= w) by (split; nra).
  assert (Hhs : 0 <= h * s /\ h * s <= h) by (split; nra).
  assert (Hpw : 0 <= rnd (w * s) /\ rnd (w * s) <= w).
  { split; [apply (rnd_nonneg rnd near); apply Hws|].
    rewrite <- Hrw at 2. apply (rnd_monotone rnd near). apply Hws. }
  assert (Hph : 0 <= rnd (h * s) /\ rnd (h * s) <= h).
  { split; [apply (rnd_nonneg rnd near); apply Hhs|].
    rewrite <- Hrh at 2. apply (rnd_monotone rnd near). apply Hhs. }
  assert (Hbigw : MAX_WIDTH < w ->
                  959 <= rnd (w * s) /\ rnd (w * s) < 961
                  /\ (0 < h ->
                      h * (MAX_WIDTH / w) * (1 - u) * (1 - u) <= rnd (h * s)
                      /\ rnd (h * s) <= h * (MAX_WIDTH / w) * (1 + u) * (1 + u))).
  { intros Hlt. destruct (Hbig Hlt) as [Hlo Hhi].
    assert (Hwpos : 0 < w) by (unfold MAX_WIDTH in Hlt; lra).
    assert (Hw : w < 4294967296) by (apply (QN_lt videoWidth 4294967296); lia).
    set (q := MAX_WIDTH / w) in *.
    assert (Hwq : w * q == MAX_WIDTH)
      by (unfold q; apply Qmult_div_r; intros H; rewrite H in Hwpos; lra).
    assert (Hq : 960 # 4294967296 <= q).
    { unfold q. apply Qle_shift_div_l; [exact Hwpos|]. unfold MAX_WIDTH. lra. }
    assert (Hq1 : q <= 1).
    { unfold q. apply Qle_shift_div_r; [exact Hwpos|]. lra. }
    clearbody q. unfold MAX_WIDTH in *. rewrite u_value in *.
    destruct (mult_between w s q _ _ Hw0 Hlo Hhi) as [Hws1 Hws2].
    rewrite Hwq in Hws1, Hws2.
    destruct (rnd_near rnd near (w * s) ltac:(lra) ltac:(lra)) as [Hr1 Hr2].
    rewrite u_value in Hr1, Hr2.
    split; [lra|]. split; [lra|].
    intros Hhpos.
    assert (Hh1 : 1 <= h).
    { unfold h, QN in *. change 1 with (inject_Z 1). rewrite <- Zle_Qle.
      change 0 with (inject_Z 0) in Hhpos. rewrite <- Zlt_Qlt in Hhpos. lia. }
    assert (Hh : h < 2147483648) by (apply (QN_lt videoHeight 2147483648); lia).
    pose proof (mult_ge h s Hh1 ltac:(lra)) as Hhs1.
    destruct (rnd_near rnd near (h * s) ltac:(lra) ltac:(lra)) as [Hr3 Hr4].
    rewrite u_value in Hr3, Hr4.
    destruct (mult_between h s q _ _ Hh0 Hlo Hhi) as [Hhs2 Hhs3].
    assert (Hhq : 0 <= h * q) by (apply Qmult_le_0_compat; lra).
    split; lra. }
  assert (Hp961 : rnd (w * s) < 961).
  { destruct (Qlt_le_dec MAX_WIDTH w) as [Hlt|Hle]; [apply (Hbigw Hlt)|].
    unfold MAX_WIDTH in Hle. lra. }
  assert (Ecw : cw = Qfloor (rnd (w * s))).
  { unfold cw, canvas_width. rewrite Hs. simpl round.
    apply (set_reflected_floor _ _ 961); [apply Hpw | | lia].
    apply Qlt_le_weak. exact Hp961. }
  assert (Ech : ch = Qfloor (rnd (h * s))).
  { unfold ch, canvas_height. rewrite Hs. simpl round.
    apply (set_reflected_floor _ _ (Z.of_N videoHeight)); [apply Hph | apply Hph | lia]. }
  exists s. split; [exact Hs|]. split; [split; assumption|]. split; [exact Hmin|].
  split; [exact Ecw|]. split; [exact Ech|].
  split; [|split; [|split; [|split]]].
  - rewrite Ecw. split; [apply (floor_between _ 961); [apply Hpw|]|].
    + apply Qlt_le_weak. exact Hp961.
    + apply floor_below. exact Hp961.
  - rewrite Ecw. apply (floor_between _ (Z.of_N videoWidth)); apply Hpw.
  - rewrite Ech. apply (floor_between _ (Z.of_N videoHeight)); apply Hph.
  - intros Hsm. pose proof (Hsmall Hsm) as H1.
    split; [exact H1|]. rewrite Ecw, Ech. split.
    + assert (E : rnd (w * s) == inject_Z (Z.of_N videoWidth)).
      { rewrite (rnd_eq rnd near (w * s) w) by (rewrite H1; ring). exact Hrw. }
      rewrite E. apply Qfloor_Z.
    + assert (E : rnd (h * s) == inject_Z (Z.of_N videoHeight)).
      { rewrite (rnd_eq rnd near (h * s) h) by (rewrite H1; ring). exact Hrh. }
      rewrite E. apply Qfloor_Z.
  - intros Hlt. destruct (Hbigw Hlt) as [H959 [_ Hheight]].
    split.
    + rewrite Ecw. change 959%Z with (Qfloor (inject_Z 959)).
      apply Qfloor_resp_le. exact H959.
    + rewrite Ech. pose proof (floor_within_one (rnd (h * s))) as [Hf1 Hf2].
      destruct (Qlt_le_dec 0 h) as [Hhpos|Hh0'].
      * destruct (Hheight Hhpos) as [Hlo Hhi]. split; lra.
      * assert (Eh : h == 0) by lra.
        assert (E0 : rnd (h * s) == 0).
        { rewrite (rnd_eq rnd near (h * s) 0) by (rewrite Eh; ring).
          apply (rnd_integer rnd near 0). lia. }
        assert (Elo : h * (MAX_WIDTH / w) * (1 - u) * (1 - u) == 0)
          by (rewrite Eh; ring).
        assert (Ehi : h * (MAX_WIDTH / w) * (1 + u) * (1 + u) == 0)
          by (rewrite Eh; ring).
        split; lra.
Qed.

Lemma canvas_dimensions_witness :
  (959 <= canvas_width Nearest.nearest 1074 <= 960)%Z
  /\ (0 <= canvas_height Nearest.nearest 1074 604 <= 604)%Z.
Proof.
  destruct (canvas_dimensions Nearest.nearest 1074 604
              NearestFacts.nearest_is_nearest_double eq_refl eq_refl)
    as [s [_ [_ [_ [_ [_ [Hw [_ [Hh [_ Hbig]]]]]]]]]].
  split; [|exact Hh]. split; [|apply Hw].
  apply Hbig. reflexivity.
Defined.

(** Exact arithmetic is another such rounding. *)
Lemma exact_is_nearest : nearest_double (fun q => q).
Proof.
  constructor.
  - intros x y H. exact H.
  - intros z _. reflexivity.
  - intros x H1 H2. rewrite u_value.
    assert (0 <= x) by (apply (Qle_trans _ (1 # 2 ^ 32)); [discriminate | exact H1]).
    split; nra.
Qed.

(** With the rounding to the nearest double the three lines give the sizes
    that the primitive doubles give: for a source 1074 wide the canvas
    keeps 959, where the exact product is 960; and the two agree on every
    16:9 source up to a width of 2000. *)
Example canvas_rounded_as_doubles :
  (canvas_width Nearest.nearest 1074, canvas_height Nearest.nearest 1074 604)
  = (Canvas.width 1074, Canvas.height 1074 604)
  /\ Canvas.width 1074 = 959%Z
  /\ canvas_width (fun q => q) 1074 = 960%Z
  /\ forallb (fun k => let w := N.of_nat k in
                       let h := N.of_nat (k * 9 / 16) in
                       (canvas_width Nearest.nearest w =? Canvas.width w)%Z
                       && (canvas_height Nearest.nearest w h =? Canvas.height w h)%Z)
             (seq 0 2001) = true.
Proof. repeat split; vm_compute; reflexivity. Qed.

End CanvasClaims.
